(** * kordesii.utils.decoderutils: string discovery and decoding engine

  A shallow embedding of the parts of [decoderutils.py] that locate,
  decode, split and charset-detect encoded strings, together with the
  properties of these functions.

  Python values are modelled as follows.
  - [str] (Python 2 byte strings) are [list byte]; [unicode] values are
    lists of code units [list Z].
  - Integers are [Z]; an attribute holding an integer or [None] is an
    [option Z], so that [INVALID] is [Some (-1)] and [UNUSED] is [None].
  - Objects that are mutated in place live in a store (a list indexed by
    allocation order); a Python reference is an index into it.
  - A call either returns, raises one of the exceptions the module deals
    with, or (for the loops that are run with a step budget) exhausts the
    budget. *)

From Stdlib Require Import ZArith Lia.
From Stdlib.Strings Require Import Byte String.
From stdpp Require Import base decidable option list strings gmap.

Local Open Scope Z_scope.

(** ** Outcomes of a call *)

Inductive exn : Type :=
  | AttributeError
  | ValueError
  | RuntimeError
  | TypeError
  | IndexError
  | UnicodeDecodeError
  | UnicodeEncodeError
  | YaraError
  | IOError.

#[global] Instance exn_eq_dec : EqDecision exn.
Proof. solve_decision. Defined.

Inductive outcome (A : Type) : Type :=
  | Ret (a : A)
  | Raise (e : exn)
  | OutOfFuel.

Arguments Ret {A} a.
Arguments Raise {A} e.
Arguments OutOfFuel {A}.

Definition obind {A B} (m : outcome A) (f : A -> outcome B) : outcome B :=
match m with
  | Ret a => f a
  | Raise e => Raise e
  | OutOfFuel => OutOfFuel
end.

Notation "'do' x <- m ; k" := (obind m (fun x => k))
  (at level 10, x name, m at level 100, k at level 200).

(** ** Python sequence primitives *)

#[global] Instance byte_eq_dec : EqDecision byte := Byte.byte_eq_dec.

Module Py.
Section Seq.
Context {A : Type} `{EqDecision A}.

Definition len (l : list A) : Z := Z.of_nat (length l).

(** Clamping of a slice bound: a negative bound counts from the end. *)
Definition clamp (n i : Z) : Z :=
  if i <? 0 then Z.max 0 (i + n) else Z.min i n.

(** [l[a:b]]; a bound [None] is an omitted bound. *)
Definition slice (l : list A) (a b : option Z) : list A :=
  let n := len l in
  let a' := match a with Some a => clamp n a | None => 0 end in
  let b' := match b with Some b => clamp n b | None => n end in
  take (Z.to_nat (b' - a')) (drop (Z.to_nat a') l).

(** [l[i]], which raises [IndexError] out of range. *)
Definition index (l : list A) (i : Z) : outcome A :=
  let j := if i <? 0 then i + len l else i in
  if j <? 0 then Raise IndexError
  else match l !! Z.to_nat j with
       | Some x => Ret x
       | None => Raise IndexError
       end.

Fixpoint startswith (l sub : list A) {struct sub} : bool :=
  match sub with
  | [] => true
  | y :: sub' =>
    match l with
    | [] => false
    | x :: l' => bool_decide (x = y) && startswith l' sub'
    end
  end.

Fixpoint find_from (i : Z) (l sub : list A) : Z :=
  if startswith l sub then i
  else match l with
       | [] => -1
       | _ :: l' => find_from (i + 1) l' sub
       end.

(** [l.find(sub)]: lowest index of an occurrence, or [-1]. *)
Definition find (l sub : list A) : Z := find_from 0 l sub.

Fixpoint rfind_from (i last : Z) (l sub : list A) : Z :=
  let last' := if startswith l sub then i else last in
  match l with
  | [] => last'
  | _ :: l' => rfind_from (i + 1) last' l' sub
  end.

(** [l.rfind(sub)]: highest index of an occurrence, or [-1]. *)
Definition rfind (l sub : list A) : Z := rfind_from 0 (-1) l sub.

(** Stable sort by an integer key, as [list.sort(key=...)]. *)
Fixpoint insert_by (key : A -> Z) (x : A) (l : list A) : list A :=
  match l with
  | [] => [x]
  | y :: l' => if key x <=? key y then x :: l else y :: insert_by key x l'
  end.

Definition sort_by (key : A -> Z) (l : list A) : list A :=
  foldr (insert_by key) [] l.

(** Stable sort by a "less than" test, as [sorted(...)] on objects with
    [__lt__]. *)
Fixpoint insert_lt (lt : A -> A -> bool) (x : A) (l : list A) : list A :=
  match l with
  | [] => [x]
  | y :: l' => if lt y x then y :: insert_lt lt x l' else x :: l
  end.

Definition sorted (lt : A -> A -> bool) (l : list A) : list A :=
  foldr (insert_lt lt) [] l.
End Seq.
End Py.


(** [ord] and [chr] on bytes. *)
Definition ord (b : byte) : Z := Z.of_N (Byte.to_N b).
Definition chr (c : Z) : byte := default x00 (Byte.of_N (Z.to_N c)).

(** ** Python values held by the attributes of an entity *)

Inductive pyval : Type :=
  | VNone
  | VInt (z : Z)
  | VStr (s : list byte)
  | VUnicode (u : list Z).

#[global] Instance pyval_eq_dec : EqDecision pyval.
Proof. solve_decision. Defined.

Definition INVALID : Z := -1.

(** Truth value of a Python value, as tested by [if v:] and [not v]. *)
Definition truthy (v : pyval) : bool :=
  match v with
  | VNone => false
  | VInt z => negb (z =? 0)
  | VStr s => negb (bool_decide (s = []))
  | VUnicode u => negb (bool_decide (u = []))
  end.

(** [v in (INVALID, UNUSED)] *)
Definition invalid_or_unused (v : pyval) : bool :=
  match v with
  | VNone => true
  | VInt z => z =? INVALID
  | _ => false
  end.

(** The same test on an attribute that holds an integer or [None]. *)
Definition unset (f : option Z) : bool :=
  match f with
  | None => true
  | Some z => z =? INVALID
  end.

(** [CODE_PAGES], in the order of the source. *)
Inductive codec : Type :=
  | ascii
  | utf_32_be | utf_32_le | utf_16_be | utf_16_le | utf_8
  | gb18030 | gbk
  | gb2312 | hz
  | big5hkscs | big5
  | koi8_r | iso8859_5 | cp1251 | mac_cyrillic
  | cp949
  | iso8859_6 | cp1256
  | latin1.

#[global] Instance codec_eq_dec : EqDecision codec.
Proof. solve_decision. Defined.

Definition CODE_PAGES : list codec :=
  [ ascii;
    utf_32_be; utf_32_le; utf_16_be; utf_16_le; utf_8;
    gb18030; gbk;
    gb2312; hz;
    big5hkscs; big5;
    koi8_r; iso8859_5; cp1251; mac_cyrillic;
    cp949;
    iso8859_6; cp1256;
    latin1 ].

(** ** EncodedString and EncodedStackString

    One record carries both classes: [stack] is [None] for an
    [EncodedString] and holds [frame_id], [stack_offset] and [memory_ptr]
    for an [EncodedStackString]. *)

Record StackFields : Type := {
  frame_id : option Z;
  stack_offset : option Z;
  memory_ptr : option Z
}.

Record EncodedString : Type := {
  string_location : option Z;
  string_reference : option Z;
  size : option Z;
  offset : option Z;
  key : pyval;
  encoded_data : pyval;
  decoded_data : pyval;
  code_page : option codec;
  _xrefs_to : option (list Z);
  stack : option StackFields
}.

#[global] Instance StackFields_eq_dec : EqDecision StackFields.
Proof. solve_decision. Defined.

#[global] Instance EncodedString_eq_dec : EqDecision EncodedString.
Proof. solve_decision. Defined.

Definition set_decoded_data (v : pyval) (e : EncodedString) : EncodedString :=
  {| string_location := string_location e; string_reference := string_reference e;
     size := size e; offset := offset e; key := key e;
     encoded_data := encoded_data e; decoded_data := v;
     code_page := code_page e; _xrefs_to := _xrefs_to e; stack := stack e |}.

Definition set_size (v : option Z) (e : EncodedString) : EncodedString :=
  {| string_location := string_location e; string_reference := string_reference e;
     size := v; offset := offset e; key := key e;
     encoded_data := encoded_data e; decoded_data := decoded_data e;
     code_page := code_page e; _xrefs_to := _xrefs_to e; stack := stack e |}.

Definition set_offset (v : option Z) (e : EncodedString) : EncodedString :=
  {| string_location := string_location e; string_reference := string_reference e;
     size := size e; offset := v; key := key e;
     encoded_data := encoded_data e; decoded_data := decoded_data e;
     code_page := code_page e; _xrefs_to := _xrefs_to e; stack := stack e |}.

Definition set_code_page (v : option codec) (e : EncodedString) : EncodedString :=
  {| string_location := string_location e; string_reference := string_reference e;
     size := size e; offset := offset e; key := key e;
     encoded_data := encoded_data e; decoded_data := decoded_data e;
     code_page := v; _xrefs_to := _xrefs_to e; stack := stack e |}.

Definition set_encoded_data (v : pyval) (e : EncodedString) : EncodedString :=
  {| string_location := string_location e; string_reference := string_reference e;
     size := size e; offset := offset e; key := key e;
     encoded_data := v; decoded_data := decoded_data e;
     code_page := code_page e; _xrefs_to := _xrefs_to e; stack := stack e |}.

(** ** The String Splitter: [split_decoded_string]

    The two nested loops of the source, over a buffer [data] of characters
    of type [A] (bytes for a [str], code units for a [unicode]).  Each loop
    is run with a step budget. *)

(** Python 2 orders [None] below every integer: [a < b] for an integer [a]
    and an attribute [b]. *)
Definition int_lt_attr (a : Z) (b : option Z) : bool :=
  match b with
  | Some b => a <? b
  | None => false
  end.

Section Splitter.
Context {A R : Type} `{EqDecision A}.
Variable null : A.
Variable data : list A.
Variable dsize : option Z.
Variable new_string : list A -> Z -> R.

(** [while string_start >= section_start and data[string_start] == null:
        string_start -= 2] *)
Fixpoint step_back (fuel : nat) (section_start string_start : Z) : outcome Z :=
  if string_start <? section_start then Ret string_start
  else
    do c <- Py.index data string_start;
    if bool_decide (c = null) then
      match fuel with
      | O => OutOfFuel
      | S fuel' => step_back fuel' section_start (string_start - 2)
      end
    else Ret string_start.

(** "Determine where the next individual string starts". *)
Definition next_string_start (fuel : nat) (section_start : Z)
    (string_end : option Z) : outcome Z :=
  let string_start :=
    Py.rfind (Py.slice data (Some section_start) string_end) [null] in
  if string_start =? -1 then Ret section_start
  else
    do string_start <- step_back fuel section_start (string_start + section_start);
    if string_start >? section_start then Ret (string_start + 3)
    else if string_start <? section_start then Ret section_start
    else Ret string_start.

(** The inner [while True]: carve the strings of one section, right to
    left. *)
Fixpoint carve_section (fuel : nat) (section_start : Z) (string_end : option Z)
    (results : list R) : outcome (list R) :=
  match fuel with
  | O => OutOfFuel
  | S fuel' =>
    do string_start <- next_string_start (length data) section_start string_end;
    let new_decoded_string := Py.slice data (Some string_start) string_end in
    let results :=
      if bool_decide (new_decoded_string = []) then results
      else results ++ [new_string (new_decoded_string ++ [null]) string_start] in
    if string_start =? section_start then Ret results
    else carve_section fuel' section_start (Some (string_start - 1)) results
  end.

(** "Skip blocks of \x00". *)
Fixpoint skip_nulls (fuel : nat) (section_start : Z) : outcome Z :=
  if int_lt_attr section_start dsize then
    do c <- Py.index data section_start;
    if bool_decide (c = null) then
      match fuel with
      | O => OutOfFuel
      | S fuel' => skip_nulls fuel' (section_start + 1)
      end
    else Ret section_start
  else Ret section_start.

(** [data.find(null null)], with [-1] replaced by [size]. *)
Definition find_section_end (section_start : Z) : option Z :=
  let section_end := Py.find (Py.slice data (Some section_start) None) [null; null] in
  if section_end =? -1 then dsize else Some (section_end + section_start).

(** The outer [while True]: one iteration per section. *)
Fixpoint split_sections (fuel : nat) (section_start : Z) (section_end : option Z)
    (results : list R) : outcome (list R) :=
  match fuel with
  | O => OutOfFuel
  | S fuel' =>
    do results <- carve_section (S (length data)) section_start section_end results;
    if bool_decide (section_end = dsize) then Ret results
    else
      match section_end with
      | None => Raise TypeError
      | Some section_end =>
        do section_start <- skip_nulls (length data) (section_end + 2);
        split_sections fuel' section_start (find_section_end section_start) results
      end
  end.

(** The loops as entered by the source: the first section starts at 0. *)
Definition split_loops : outcome (list R) :=
  let section_end := Py.find data [null; null] in
  let section_end := if section_end =? -1 then dsize else Some section_end in
  split_sections (S (length data)) 0 section_end [].

End Splitter.

(** ** The analysis host

    The IDA database and the operations of [idaapi], [idc] and [idautils]
    that the modelled functions call.  An operation that changes the
    database returns the new database; one that may raise returns [false]
    in its first component when it did.

    Modelled from the spec: [create_function_precise] of
    [kordesii.utils.functioncreator] is not among the sources; it is "the
    host's function-creation capability", which reports whether a function
    now contains the address. *)

Record func_t : Type := { startEA : Z; endEA : Z }.

Class IDA : Type := {
  idb : Type;
  BADADDR : Z;
  get_func : idb -> Z -> option func_t;
  get_func_name : idb -> Z -> option string;
  get_name : idb -> Z -> string;
  set_name : Z -> string -> idb -> bool * idb;
  do_name_anyway : option Z -> list byte -> idb -> bool * idb;
  XrefsTo : idb -> Z -> list Z;
  create_function_precise : Z -> idb -> bool * idb;
  get_many_bytes : idb -> option Z -> option Z -> option (list byte);
  patch_many_bytes : Z -> pyval -> idb -> bool * idb;
  MakeUnknown : Z -> Z -> idb -> bool * idb;
  make_ascii_string : Z -> Z -> bool -> idb -> bool * idb;
  MakeRptCmt : option Z -> list byte -> idb -> idb;
  SetMemberComment : Z -> Z -> list byte -> idb -> idb;
  SetMemberName : Z -> Z -> list byte -> idb -> idb;
  SegName : idb -> Z -> string;
  get_fileregion_ea : idb -> Z -> Z;
  ItemHead : idb -> Z -> Z;
  GetIdbDir : idb -> string;
  GetInputFile : idb -> string;
  GetInputMD5 : idb -> string
}.

(** ** The operating system, [hashlib] and [yara]

    [yara_scan rule_text path] is the data that
    [yara.compile(source=rule_text).match(path, callback=...)] hands to
    the callback, one item per rule of the source; [None] when [yara]
    raises.  [md5_of path] is
    [hashlib.md5(open(path, 'rb').read()).hexdigest().upper()], and [None]
    when [open] or [read] raises [IOError], as on a directory or on a
    file that cannot be read.
    [cmp_values] is Python 2's [cmp] on the values that make up a
    comparison key. *)

Record rule_data : Type := {
  matches : bool;
  strings : list (Z * string)
}.

Class System : Type := {
  path_exists : string -> bool;
  path_join : string -> string -> string;
  md5_of : string -> option string;
  yara_scan : string -> string -> option (list rule_data);
  cmp_values : pyval -> pyval -> comparison
}.

(** ** The state of a run

    Modelled from the spec: [append_debug] and [append_string] of
    [kordesii.kordesiiidahelper] are not among the sources; they are the
    "debug/log channel" and the list of reported strings, and are kept
    here as the lists [debug] and [reported]. *)

Definition ref : Type := nat.

Inductive debug_msg : Type :=
  | CreatedFunction (ea : Z)
  | FailedToResetName (ea : Z)
  | IDAChangedName (wanted got : string)
  | FailedToRename (ea : Z)
  | UnableToRename (r : ref)
  | StringTypeForDecoded (ea : Z)
  | UnableToDefine (ea : Z)
  | UnableToFindString (location : Z)
  | FailedToDecode (r : ref)
  | FailedToFindStrings (ea : Z)
  | ErrorTracing (ea : Z)
  | PdataSkipped (ea : Z)
  | NoFunctionExists (ea : Z)
  | TracerNotStringTracer
  | UnableToLocateInput (path : string)
  | GuessedInputPath (path : string)
  | IDAThoughtItWas (path : string)
  | YaraFailedToMatch.

(** The text built by [report()], field by field. *)
Record report_text : Type := {
  report_frame_id : option Z;
  report_stack_offset : option Z;
  report_ea : option Z;
  report_ref : option Z;
  report_offset : option Z;
  report_code_page : option codec;
  report_raw : option pyval;
  report_dec : option (list Z)
}.

Inductive printed : Type :=
  | PrintNewline
  | PrintReport (text : report_text).

Record World `{IDA} : Type := {
  heap : list EncodedString;
  db : idb;
  debug : list debug_msg;
  reported : list (list Z);
  stdout : list printed;
  _YARA_MATCHES : list (Z * string);
  ENCODED_STRINGS : list ref;
  INPUT_FILE_PATH : string
}.

Section Run.
Context `{IDA}.

Definition M (A : Type) : Type := World -> outcome A * World.

Definition ret {A} (a : A) : M A := fun w => (Ret a, w).
Definition raise {A} (e : exn) : M A := fun w => (Raise e, w).
Definition bind {A B} (m : M A) (f : A -> M B) : M B :=
  fun w =>
    match m w with
    | (Ret a, w') => f a w'
    | (Raise e, w') => (Raise e, w')
    | (OutOfFuel, w') => (OutOfFuel, w')
    end.
Definition lift {A} (o : outcome A) : M A := fun w => (o, w).

(** [try: m except e: handler] *)
Definition catch {A} (m : M A) (e : exn) (handler : M A) : M A :=
  fun w =>
    match m w with
    | (Raise e', w') => if bool_decide (e' = e) then handler w' else (Raise e', w')
    | r => r
    end.

Definition with_heap (h : list EncodedString) (w : World) : World :=
  {| heap := h; db := db w; debug := debug w; reported := reported w;
     stdout := stdout w; _YARA_MATCHES := _YARA_MATCHES w;
     ENCODED_STRINGS := ENCODED_STRINGS w; INPUT_FILE_PATH := INPUT_FILE_PATH w |}.
Definition with_db (d : idb) (w : World) : World :=
  {| heap := heap w; db := d; debug := debug w; reported := reported w;
     stdout := stdout w; _YARA_MATCHES := _YARA_MATCHES w;
     ENCODED_STRINGS := ENCODED_STRINGS w; INPUT_FILE_PATH := INPUT_FILE_PATH w |}.
Definition with_debug (l : list debug_msg) (w : World) : World :=
  {| heap := heap w; db := db w; debug := l; reported := reported w;
     stdout := stdout w; _YARA_MATCHES := _YARA_MATCHES w;
     ENCODED_STRINGS := ENCODED_STRINGS w; INPUT_FILE_PATH := INPUT_FILE_PATH w |}.
Definition with_reported (l : list (list Z)) (w : World) : World :=
  {| heap := heap w; db := db w; debug := debug w; reported := l;
     stdout := stdout w; _YARA_MATCHES := _YARA_MATCHES w;
     ENCODED_STRINGS := ENCODED_STRINGS w; INPUT_FILE_PATH := INPUT_FILE_PATH w |}.
Definition with_stdout (l : list printed) (w : World) : World :=
  {| heap := heap w; db := db w; debug := debug w; reported := reported w;
     stdout := l; _YARA_MATCHES := _YARA_MATCHES w;
     ENCODED_STRINGS := ENCODED_STRINGS w; INPUT_FILE_PATH := INPUT_FILE_PATH w |}.
Definition with_yara_matches (l : list (Z * string)) (w : World) : World :=
  {| heap := heap w; db := db w; debug := debug w; reported := reported w;
     stdout := stdout w; _YARA_MATCHES := l;
     ENCODED_STRINGS := ENCODED_STRINGS w; INPUT_FILE_PATH := INPUT_FILE_PATH w |}.
Definition with_encoded_strings (l : list ref) (w : World) : World :=
  {| heap := heap w; db := db w; debug := debug w; reported := reported w;
     stdout := stdout w; _YARA_MATCHES := _YARA_MATCHES w;
     ENCODED_STRINGS := l; INPUT_FILE_PATH := INPUT_FILE_PATH w |}.
Definition with_input_file_path (p : string) (w : World) : World :=
  {| heap := heap w; db := db w; debug := debug w; reported := reported w;
     stdout := stdout w; _YARA_MATCHES := _YARA_MATCHES w;
     ENCODED_STRINGS := ENCODED_STRINGS w; INPUT_FILE_PATH := p |}.

Definition get {A} (f : World -> A) : M A := fun w => (Ret (f w), w).
Definition modify (f : World -> World) : M unit := fun w => (Ret tt, f w).

(** A host operation that changes the database; [false] when it raised. *)
Definition ida {A} (op : idb -> A * idb) : M A :=
  fun w => let '(a, d) := op (db w) in (Ret a, with_db d w).

(** [append_debug(msg)] *)
Definition append_debug (m : debug_msg) : M unit :=
  modify (fun w => with_debug (debug w ++ [m]) w).

(** [append_string(text)] *)
Definition append_string (text : list Z) : M unit :=
  modify (fun w => with_reported (reported w ++ [text]) w).

(** [print] *)
Definition print (p : printed) : M unit :=
  modify (fun w => with_stdout (stdout w ++ [p]) w).

(** Reading and assigning the attributes of the object behind a
    reference, and allocating a new object. *)
Definition deref (r : ref) : M EncodedString :=
  fun w => match heap w !! r with
           | Some e => (Ret e, w)
           | None => (Raise AttributeError, w)
           end.
Definition assign (r : ref) (f : EncodedString -> EncodedString) : M unit :=
  fun w => match heap w !! r with
           | Some e => (Ret tt, with_heap (<[r := f e]> (heap w)) w)
           | None => (Raise AttributeError, w)
           end.
Definition alloc (e : EncodedString) : M ref :=
  fun w => (Ret (length (heap w)), with_heap (heap w ++ [e]) w).

End Run.

Notation "'run' x <- m ; k" := (bind m (fun x => k))
  (at level 10, x name, m at level 100, k at level 200).

Section SplitDecodedString.
Context `{IDA}.

(** [string_location in (UNUSED, INVALID, idc.BADADDR)] *)
Definition no_location (e : EncodedString) : bool :=
  match string_location e with
  | None => true
  | Some loc => (loc =? INVALID) || (loc =? BADADDR)
  end.

(** The [startEA] property of an entity. *)
Definition entity_startEA (e : EncodedString) : Z :=
  match string_location e with
  | None => INVALID
  | Some loc =>
    if (loc =? INVALID) || (loc =? BADADDR) then INVALID
    else loc + (if unset (offset e) then 0 else default 0 (offset e))
  end.

(** [copy.copy(decoded_string)] followed by the three assignments to the
    copy. *)
Definition carved {A} (wrap : list A -> pyval) (decoded_string : EncodedString)
    (new_decoded_string : list A) (string_start : Z) : EncodedString :=
  let new_string := decoded_string in
  let new_string := set_decoded_data (wrap new_decoded_string) new_string in
  let new_string := set_size (Some (Py.len new_decoded_string)) new_string in
  set_offset (Some string_start) new_string.

(** The splitting loops on the entity's buffer; any value that is not a
    string has no [find] method. *)
Definition split_results (decoded_string : EncodedString)
    : outcome (list EncodedString) :=
  match decoded_data decoded_string with
  | VStr data =>
      split_loops x00 data (size decoded_string) (carved VStr decoded_string)
  | VUnicode data =>
      split_loops 0 data (size decoded_string) (carved VUnicode decoded_string)
  | _ => Raise AttributeError
  end.

(** [as_bytes]: [''.join(imap(str, decoded_data))]; [str] of a code unit
    outside ASCII raises. *)
Definition as_bytes (e : EncodedString) : outcome pyval :=
  if negb (truthy (decoded_data e)) then Ret (VInt INVALID)
  else match decoded_data e with
       | VStr s => Ret (VStr s)
       | VUnicode u =>
           if forallb (fun c => c <? 128) u
           then Ret (VStr (map chr u))
           else Raise UnicodeEncodeError
       | _ => Raise TypeError
       end.

(** [byte_length] *)
Definition byte_length (e : EncodedString) : outcome Z :=
  if negb (truthy (decoded_data e)) then Ret INVALID
  else
    do b <- as_bytes e;
    match b with
    | VStr s => Ret (Py.len s)
    | _ => Raise TypeError
    end.

(** [string_type]: [true] stands for [ASCSTR_UNICODE], [false] for
    [ASCSTR_C]. *)
Definition string_type (e : EncodedString) : bool :=
  match decoded_data e with
  | VUnicode _ => true
  | _ => false
  end.

(** [define()]: every exception raised inside the [try] is caught and
    logged. *)
Definition define (r : ref) : M unit :=
  run e <- deref r;
  match byte_length e with
  | Ret n =>
      fun w =>
        let '(ok, d) := MakeUnknown (entity_startEA e) n (db w) in
        if ok then
          let '(ok, d) := make_ascii_string (entity_startEA e) n (string_type e) d in
          if ok then (Ret tt, with_db d w)
          else append_debug (UnableToDefine (entity_startEA e)) (with_db d w)
        else append_debug (UnableToDefine (entity_startEA e)) (with_db d w)
  | _ => append_debug (UnableToDefine (entity_startEA e))
  end.

Fixpoint alloc_all (l : list EncodedString) : M (list ref) :=
  match l with
  | [] => ret []
  | e :: l' =>
      run r <- alloc e;
      run rs <- alloc_all l';
      ret (r :: rs)
  end.

Fixpoint define_all (l : list ref) : M unit :=
  match l with
  | [] => ret tt
  | r :: l' => run _ <- define r; define_all l'
  end.

(** [results.sort(key=lambda decoded_string: decoded_string.startEA)] on a
    list of references. *)
Definition sort_results (results : list ref) : M (list ref) :=
  fun w =>
    (Ret (Py.sort_by (fun r => from_option entity_startEA INVALID (heap w !! r)) results), w).

(** [split_decoded_string(decoded_string, identify)].  The copies are
    allocated in the order in which the loops append them. *)
Definition split_decoded_string (decoded_string : ref) (identify : bool)
    : M (list ref) :=
  run e <- deref decoded_string;
  run copies <- lift (split_results e);
  run results <- alloc_all copies;
  run results <- sort_results results;
  run _ <- (if identify then define_all results else ret tt);
  ret results.

End SplitDecodedString.

(** ** A concrete host, used to run the model on examples

    A database with a table of functions, a table of cross-references
    [(frm, to)] and one run of bytes loaded at [image_base]. *)

Module Image.

Record db : Type := {
  functions : list (string * func_t);
  xrefs : list (Z * Z);
  image_base : Z;
  image : list byte
}.

Definition func_at (d : db) (ea : Z) : option (string * func_t) :=
  List.find (fun '(_, f) => (startEA f <=? ea) && (ea <? endEA f)) (functions d).

Definition read (d : db) (location size : option Z) : option (list byte) :=
  match location, size with
  | Some ea, Some n =>
      if (image_base d <=? ea) && (0 <=? n) && (ea + n <=? image_base d + Py.len (image d))
      then Some (take (Z.to_nat n) (drop (Z.to_nat (ea - image_base d)) (image d)))
      else None
  | _, _ => None
  end.

#[global] Instance ida : IDA := {|
  idb := db;
  BADADDR := 0xFFFFFFFF;
  get_func := fun d ea => snd <$> func_at d ea;
  get_func_name := fun d ea => fst <$> func_at d ea;
  get_name := fun d ea => default EmptyString (fst <$> func_at d ea);
  set_name := fun _ _ d => (false, d);
  do_name_anyway := fun _ _ d => (true, d);
  XrefsTo := fun d ea => map fst (filter (fun x => snd x = ea) (xrefs d));
  create_function_precise := fun _ d => (false, d);
  get_many_bytes := read;
  patch_many_bytes := fun _ _ d => (true, d);
  MakeUnknown := fun _ _ d => (true, d);
  make_ascii_string := fun _ _ _ d => (true, d);
  MakeRptCmt := fun _ _ d => d;
  SetMemberComment := fun _ _ _ d => d;
  SetMemberName := fun _ _ _ d => d;
  SegName := fun _ _ => ".text"%string;
  get_fileregion_ea := fun d off => image_base d + off;
  ItemHead := fun _ ea => ea;
  GetIdbDir := fun _ => "."%string;
  GetInputFile := fun _ => "sample.bin"%string;
  GetInputMD5 := fun _ => "D41D8CD98F00B204E9800998ECF8427E"%string
|}.

Definition empty : db :=
  {| functions := []; xrefs := []; image_base := 0; image := [] |}.

End Image.

(** ** Notions used to state the properties of the splitter *)

Section SplitterSpec.
Context {A R : Type}.
Variable null : A.
Variable data : list A.
Variable new_string : list A -> Z -> R.

(** An item carved from [data]: a non-empty slice [data[s:e]], with the
    terminator added, tagged with its start. *)
Definition Carved (r : R) : Prop :=
  exists s e, 0 <= s /\ s < e /\ e <= Py.len data /\
    r = new_string (take (Z.to_nat (e - s)) (drop (Z.to_nat s) data) ++ [null]) s.

(** A section ends at the end of the buffer or at a double null inside
    it. *)
Definition section_end_ok (ss e : Z) : Prop :=
  ss <= e /\ (e = Py.len data \/ e + 2 <= Py.len data).

End SplitterSpec.

Section PlainStrings.
Context {A R : Type}.
Variable null : A.
Variable new_string : list A -> Z -> R.

(** The buffer holding the strings of [strs], each followed by one null. *)
Definition join (strs : list (list A)) : list A :=
  concat (map (fun s => s ++ [null]) strs).

(** The expected items, with the start of each string in the buffer. *)
Fixpoint pieces_from (o : Z) (strs : list (list A)) : list R :=
  match strs with
  | [] => []
  | s :: strs' => new_string (s ++ [null]) o :: pieces_from (o + Py.len s + 1) strs'
  end.

Definition plain (s : list A) : Prop := (null ∉ s) /\ (2 <= length s)%nat.

Definition long_head (strs : list (list A)) : Prop :=
  match strs with
  | [] => True
  | s :: _ => (3 <= length s)%nat
  end.

End PlainStrings.

(** Buffers of several groups of strings.  A group is a sequence of
    null-terminated strings; in the buffer every group of [groups] is
    followed by one more null, so that a double null ends it, and the
    strings of [last] follow without that null. *)
Section Groups.
Context {A R : Type}.
Variable null : A.
Variable new_string : list A -> Z -> R.

Definition layout (groups : list (list (list A))) (last : list (list A)) : list A :=
  concat (map (fun g => join null g ++ [null]) groups) ++ join null last.

(** The strings of a group have at least two characters, and the first
    one at least three when the group holds several strings. *)
Definition group (g : list (list A)) : Prop :=
  g <> [] /\ Forall (plain null) g /\ (length g = 1%nat \/ long_head g).

(** The expected items, group by group, with the start of each string in
    the buffer. *)
Fixpoint group_pieces (o : Z) (groups : list (list (list A))) (last : list (list A))
    : list R :=
  match groups with
  | [] => pieces_from null new_string o last
  | g :: groups' =>
      pieces_from null new_string o g
      ++ group_pieces (o + Py.len (join null g) + 1) groups' last
  end.

(** The same items in the order in which the loops append them: group by
    group, and from the last string to the first inside a group. *)
Fixpoint carving_order (o : Z) (groups : list (list (list A))) (last : list (list A))
    : list R :=
  match groups with
  | [] => rev (pieces_from null new_string o last)
  | g :: groups' =>
      rev (pieces_from null new_string o g)
      ++ carving_order (o + Py.len (join null g) + 1) groups' last
  end.

End Groups.

Section Orders.
Context {A : Type}.
Variable key : A -> Z.

(** Keys in non-decreasing order. *)
Definition ascending (l : list A) : Prop :=
  forall i j x y, (i <= j)%nat -> l !! i = Some x -> l !! j = Some y -> key x <= key y.

(** Keys in strictly increasing order. *)
Fixpoint increasing (l : list A) : Prop :=
  match l with
  | [] => True
  | x :: l' => Forall (fun y => key x < key y) l' /\ increasing l'
  end.

End Orders.

Section EntitySpec.
Context `{IDA}.

(** The entity has a start address: its location is neither [INVALID],
    [UNUSED] nor [BADADDR]. *)
Definition located (e : EncodedString) : Prop :=
  match string_location e with
  | Some loc => loc <> INVALID /\ loc <> BADADDR
  | None => False
  end.

(** [e'] agrees with [e] on every attribute that [split_decoded_string]
    does not assign to the copy. *)
Definition copy_of (e e' : EncodedString) : Prop :=
  string_location e' = string_location e /\
  string_reference e' = string_reference e /\
  key e' = key e /\
  encoded_data e' = encoded_data e /\
  code_page e' = code_page e /\
  _xrefs_to e' = _xrefs_to e /\
  stack e' = stack e.

End EntitySpec.

(** ** Example inputs *)

Module Examples.

Definition entity (location : option Z) (data : list byte) : EncodedString :=
  {| string_location := location; string_reference := Some INVALID;
     size := Some (Py.len data); offset := Some INVALID; key := VInt INVALID;
     encoded_data := VStr data; decoded_data := VStr data;
     code_page := None; _xrefs_to := None; stack := None |}.

Definition world (h : list EncodedString) : World :=
  {| heap := h; db := Image.empty; debug := []; reported := []; stdout := [];
     _YARA_MATCHES := []; ENCODED_STRINGS := []; INPUT_FILE_PATH := "sample.bin" |}.

(** A world holding one decoded entity located at 0x401000. *)
Definition decoded_at_401000 (data : list byte) : EncodedString :=
  entity (Some 0x401000) data.
Definition one_entity (data : list byte) : World :=
  world [decoded_at_401000 data].

(** "AB\x00\x00C\x00D\x00\x00" *)
Definition mixed : list byte := ["A"; "B"; x00; x00; "C"; x00; "D"; x00; x00]%byte.

(** "AB\x00\x00CDE\x00FG\x00\x00": the double-byte string "AB", then the
    single-byte strings "CDE" and "FG". *)
Definition wide_then_narrow : list (list (list byte)) :=
  [[["A"; "B"]]; [["C"; "D"; "E"]; ["F"; "G"]]]%byte.

(** "ABC\x00DE\x00" *)
Definition two_strings : list (list byte) := [["A"; "B"; "C"]; ["D"; "E"]]%byte.

(** "AB\x00CD\x00" *)
Definition short_head : list byte := ["A"; "B"; x00; "C"; "D"; x00]%byte.

(** An undecoded-charset entity holding "A\x00". *)
Definition a_nul : EncodedString := entity None ["A"; x00]%byte.

(** An entity whose bytes were never read: [encoded_data] is [INVALID]. *)
Definition unresolved (location : Z) : EncodedString :=
  {| string_location := Some location; string_reference := Some INVALID;
     size := Some INVALID; offset := Some INVALID; key := VInt INVALID;
     encoded_data := VInt INVALID; decoded_data := VInt INVALID;
     code_page := None; _xrefs_to := None; stack := None |}.

(** A decode function: the encoded bytes with their first byte dropped,
    so that a one-byte string decodes to nothing. *)
Definition drop_first (e : EncodedString) : pyval :=
  match encoded_data e with
  | VStr s => VStr (tail s)
  | _ => VNone
  end.

(** Three entities: one that decodes, one unresolved, one that decodes to
    the empty string. *)
Definition three_entities : World :=
  world [entity (Some 0x1000) ["x"; "A"; "B"]%byte; unresolved 0x2000;
         entity (Some 0x3000) ["x"]%byte].

(** "A\x00B\x00" *)
Definition single_chars : list byte := ["A"; x00; "B"; x00]%byte.

End Examples.

(** ** The Charset Detector: [decode_unknown_charset]

    Python's codec library is a parameter: [decode cp s] is
    [s.decode(cp)], with [None] for [UnicodeDecodeError], and
    [unicode_escape c] is [c.encode('unicode-escape')] for a one-character
    text [c], and [display_encode text] is
    [text.encode(DISPLAY_CODE, 'replace')]. *)

Class Codecs : Type := {
  decode : codec -> list byte -> option (list Z);
  unicode_escape : Z -> list byte;
  display_encode : list Z -> list byte
}.

Definition b2z (b : bool) : Z := if b then 1 else 0.

(** [text.rstrip(u'\x00')] *)
Definition rstrip (text : list Z) : list Z :=
  foldr (fun c acc => if (c =? 0) && bool_decide (acc = []) then [] else c :: acc) [] text.

(** [code_page in ('utf-16-le', 'utf-16-be', 'utf-32-le', 'utf-32-be')] *)
Definition is_utf_wide (cp : codec) : bool :=
  match cp with
  | utf_16_le | utf_16_be | utf_32_le | utf_32_be => true
  | _ => false
  end.

Section CharsetDetector.
Context `{Codecs}.

(** [_num_raw_bytes(string)] *)
Definition _num_raw_bytes (string : list Z) : Z :=
  fold_left
    (fun count char =>
       let char := unicode_escape char in
       count + (b2z (Py.startswith char ["\"; "x"]%byte)
                + b2z (Py.startswith char ["\"; "u"]%byte) * 2))
    string 0.

(** The [while ... else] loop that strips trailing nulls before decoding;
    [rdata] is the remaining buffer, reversed.  [None] stands for the
    [else: continue] exit. *)
Fixpoint strip_and_decode (code_page : codec) (rdata : list byte) : option (list Z) :=
  match rdata with
  | [] => None
  | last :: rdata' =>
      if bool_decide (last = x00) then
        match decode code_page (rev rdata') with
        | Some text => Some (rstrip text)
        | None => strip_and_decode code_page rdata'
        end
      else None
  end.

(** The body of the [for] loop up to the scoring: the output of one
    candidate, or [None] when the loop moves on to the next one. *)
Definition candidate_output (data : list byte) (code_page : codec) : option (list Z) :=
  match decode code_page data with
  | Some text => Some (rstrip text)
  | None =>
      if is_utf_wide code_page then strip_and_decode code_page (rev data)
      else None
  end.

Record best : Type := {
  best_score : Z;
  best_code_page : option codec;
  best_output : option (list Z)
}.

(** [not best_output] *)
Definition no_output (b : best) : bool :=
  match best_output b with
  | None => true
  | Some text => bool_decide (text = [])
  end.

Definition try_code_page (data : list byte) (b : best) (code_page : codec) : best :=
  match candidate_output data code_page with
  | None => b
  | Some output =>
      let score := _num_raw_bytes output in
      if no_output b || (score <? best_score b) then
        {| best_score := score; best_code_page := Some code_page;
           best_output := Some output |}
      else b
  end.

(** The [for code_page in CODE_PAGES] loop. *)
Definition detect (data : list byte) : best :=
  fold_left (try_code_page data)
    CODE_PAGES
    {| best_score := Py.len data; best_code_page := None; best_output := None |}.

(** [decode_unknown_charset], on the attributes of the entity: the text
    returned and the entity after the call. *)
Definition decode_unknown_charset (e : EncodedString)
    : outcome (list Z) * EncodedString :=
  if invalid_or_unused (decoded_data e) then (Ret [], e)
  else
    match decoded_data e with
    | VUnicode text => (Ret text, e)
    | VStr data =>
        let full_detection :=
          let b := detect data in
          if no_output b then (Ret [], e)
          else (Ret (default [] (best_output b)),
                set_code_page (best_code_page b) e) in
        match code_page e with
        | Some cp =>
            match decode cp data with
            | Some text => (Ret text, e)
            | None => full_detection
            end
        | None => full_detection
        end
    | _ =>
        match code_page e with
        | Some _ => (Raise AttributeError, e)
        | None => (Raise TypeError, e)
        end
    end.

(** Full detection is entered: no code page is set, or the one that is
    set does not decode the buffer. *)
Definition detection_reached (e : EncodedString) (data : list byte) : Prop :=
  match code_page e with
  | None => True
  | Some cp => decode cp data = None
  end.

(** What the loop has found so far came from a candidate. *)
Definition found (data : list byte) (b : best) : Prop :=
  no_output b = true \/
  exists cp out,
    best_code_page b = Some cp /\ best_output b = Some out /\
    candidate_output data cp = Some out.

(** No candidate has a strictly lower score than the ASCII output. *)
Definition ascii_score_is_lowest (data : list byte) (output : list Z) : bool :=
  forallb
    (fun cp =>
       match candidate_output data cp with
       | Some out => _num_raw_bytes output <=? _num_raw_bytes out
       | None => true
       end)
    CODE_PAGES.

End CharsetDetector.

Section CharsetDetectorRun.
Context `{IDA} `{Codecs}.

(** [decode_unknown_charset] on the object behind a reference. *)
Definition decode_unknown_charset_ref (r : ref) : M (list Z) :=
  run e <- deref r;
  let '(o, e') := decode_unknown_charset e in
  run _ <- assign r (fun _ => e');
  lift o.

End CharsetDetectorRun.

(** ** A reference codec library, used to run the detector on examples

    [ascii], [latin1] and the four UTF-16/UTF-32 codecs are given in full
    (code points as on a UCS-4 build).  The other code pages are
    table-driven and are given on 7-bit buffers only, where each of them
    agrees with ASCII ([hz] when the buffer has no '~'); on any other
    buffer they are left undefined here and reported as failing, so the
    examples below use 7-bit buffers only. *)

Module Py27.

Definition decode_seven_bit (data : list byte) : option (list Z) :=
  if forallb (fun b => ord b <? 128) data then Some (map ord data) else None.

Definition decode_latin1 (data : list byte) : option (list Z) := Some (map ord data).

Fixpoint units16 (big_endian : bool) (data : list byte) : option (list Z) :=
  match data with
  | [] => Some []
  | [_] => None
  | a :: b :: rest =>
      let u := if big_endian then 256 * ord a + ord b else ord a + 256 * ord b in
      cons u <$> units16 big_endian rest
  end.

Fixpoint join_surrogates (units : list Z) : option (list Z) :=
  match units with
  | [] => Some []
  | u :: rest =>
      if (0xD800 <=? u) && (u <? 0xDC00) then
        match rest with
        | lo :: rest' =>
            if (0xDC00 <=? lo) && (lo <? 0xE000)
            then cons (0x10000 + (u - 0xD800) * 1024 + (lo - 0xDC00)) <$> join_surrogates rest'
            else None
        | [] => None
        end
      else if (0xDC00 <=? u) && (u <? 0xE000) then None
      else cons u <$> join_surrogates rest
  end.

Definition decode_utf16 (big_endian : bool) (data : list byte) : option (list Z) :=
  units16 big_endian data ≫= join_surrogates.

Fixpoint decode_utf32 (big_endian : bool) (data : list byte) : option (list Z) :=
  match data with
  | [] => Some []
  | a :: b :: c :: d :: rest =>
      let u := if big_endian
               then ((ord a * 256 + ord b) * 256 + ord c) * 256 + ord d
               else ((ord d * 256 + ord c) * 256 + ord b) * 256 + ord a in
      if u <? 0x110000 then cons u <$> decode_utf32 big_endian rest else None
  | _ => None
  end.

Definition decode_hz (data : list byte) : option (list Z) :=
  if forallb (fun b => negb (ord b =? 126)) data then decode_seven_bit data else None.

Definition hex_digit (n : Z) : byte :=
  nth (Z.to_nat n)
    ["0"; "1"; "2"; "3"; "4"; "5"; "6"; "7"; "8"; "9"; "a"; "b"; "c"; "d"; "e"; "f"]%byte
    "0"%byte.

Fixpoint hex (width : nat) (n : Z) : list byte :=
  match width with
  | O => []
  | S width' => hex width' (n / 16) ++ [hex_digit (n mod 16)]
  end.

Definition escape (c : Z) : list byte :=
  if c =? 92 then ["\"; "\"]%byte
  else if c =? 9 then ["\"; "t"]%byte
  else if c =? 10 then ["\"; "n"]%byte
  else if c =? 13 then ["\"; "r"]%byte
  else if (c <? 32) || ((127 <=? c) && (c <? 256)) then ["\"; "x"]%byte ++ hex 2 c
  else if c <? 256 then [chr c]
  else if c <? 65536 then ["\"; "u"]%byte ++ hex 4 c
  else ["\"; "U"]%byte ++ hex 8 c.

#[global] Instance codecs : Codecs := {|
  decode := fun cp data =>
    match cp with
    | ascii => decode_seven_bit data
    | latin1 => decode_latin1 data
    | utf_16_be => decode_utf16 true data
    | utf_16_le => decode_utf16 false data
    | utf_32_be => decode_utf32 true data
    | utf_32_le => decode_utf32 false data
    | hz => decode_hz data
    | _ => decode_seven_bit data
    end;
  unicode_escape := escape;
  display_encode := map (fun c => if c <? 128 then chr c else "?"%byte)
|}.

End Py27.

(** ** Building entities: [EncodedString.__init__] and [get_bytes] *)

Section Entities.
Context `{IDA}.

(** Truth value of an attribute that holds an integer or [None]. *)
Definition truthy_attr (a : option Z) : bool :=
  match a with
  | None => false
  | Some z => negb (z =? 0)
  end.

(** [get_bytes()]; the method of [EncodedStackString] returns [INVALID]. *)
Definition get_bytes (d : idb) (self : EncodedString) : outcome pyval :=
  match stack self with
  | Some _ => Ret (VInt INVALID)
  | None =>
      if bool_decide (size self = Some INVALID) then Raise ValueError
      else
        let bytes :=
          if truthy_attr (size self)
          then get_many_bytes d (string_location self) (size self)
          else Some [] in
        Ret (match bytes with
             | Some b => VStr b
             | None => VInt INVALID
             end)
  end.

(** The body of [EncodedString.__init__], run on an object of class [cls]
    ([None] for [EncodedString], the stack attributes for
    [EncodedStackString]). *)
Definition init_entity (d : idb) (cls : option StackFields)
    (string_location string_reference size offset : option Z) (key : pyval)
    : outcome EncodedString :=
  let self :=
    {| string_location := string_location; string_reference := string_reference;
       size := size; offset := offset; key := key;
       encoded_data := VNone; decoded_data := VNone;
       code_page := None; _xrefs_to := None; stack := cls |} in
  do encoded_data <- (if unset size then Ret (VInt INVALID) else get_bytes d self);
  Ret (set_decoded_data (VInt INVALID) (set_encoded_data encoded_data self)).

(** [EncodedString(string_location, string_reference, size, offset, key)] *)
Definition EncodedString__init__ (d : idb)
    (string_location string_reference size offset : option Z) (key : pyval)
    : outcome EncodedString :=
  init_entity d None string_location string_reference size offset key.

(** [EncodedStackString(frame_id, stack_offset, memory_ptr,
    string_reference, size, offset, key)] *)
Definition EncodedStackString__init__ (d : idb)
    (frame_id stack_offset memory_ptr string_reference size offset : option Z)
    (key : pyval) : outcome EncodedString :=
  init_entity d
    (Some {| frame_id := frame_id; stack_offset := stack_offset;
             memory_ptr := memory_ptr |})
    (Some INVALID) string_reference size offset key.

(** The constructors as calls that allocate the new object. *)
Definition new_EncodedString
    (string_location string_reference size offset : option Z) (key : pyval) : M ref :=
  run d <- get db;
  run e <- lift (EncodedString__init__ d string_location string_reference size offset key);
  alloc e.

End Entities.

(** ** The Function Locator: [SuperFunc_t] *)

Record SuperFunc_t : Type := {
  origin_ea : Z;
  identifier : option string;
  function_obj : func_t;
  name : option string;
  xrefs_to : list Z;
  xref_count : Z
}.

Section FunctionLocator.
Context `{IDA}.

(** [SuperFunc_t(ea, identifier, create_if_not_exists)].  The attributes
    [startEA] and [endEA] of the object are those of [function_obj]. *)
Definition SuperFunc_t__init__ (ea : Z) (identifier : option string)
    (create_if_not_exists : bool) : M SuperFunc_t :=
  run found <- get (fun w => get_func (db w) ea);
  run function_obj <-
    match found with
    | Some f => ret f
    | None =>
        if create_if_not_exists then
          run created <- ida (create_function_precise ea);
          if created then
            run found <- get (fun w => get_func (db w) ea);
            match found with
            | Some f => run _ <- append_debug (CreatedFunction (startEA f)); ret f
            | None => raise AttributeError
            end
          else raise AttributeError
        else raise AttributeError
    end;
  run name <- get (fun w => get_func_name (db w) (startEA function_obj));
  run xrefs_to <-
    get (fun w => filter (fun frm => get_func_name (db w) frm <> name)
                    (XrefsTo (db w) (startEA function_obj)));
  ret {| origin_ea := ea; identifier := identifier; function_obj := function_obj;
         name := name; xrefs_to := xrefs_to; xref_count := Py.len xrefs_to |}.

Definition set_name_of (n : option string) (f : SuperFunc_t) : SuperFunc_t :=
  {| origin_ea := origin_ea f; identifier := identifier f;
     function_obj := function_obj f; name := n;
     xrefs_to := xrefs_to f; xref_count := xref_count f |}.

(** [rename(new_name)]: the object after the call and the value returned. *)
Definition SuperFunc_t_rename (self : SuperFunc_t) (new_name : string)
    : M (SuperFunc_t * option string) :=
  let start := startEA (function_obj self) in
  if bool_decide (new_name = EmptyString) then
    run ok <- ida (set_name start new_name);
    if ok then
      run n <- get (fun w => get_name (db w) start);
      ret (self, Some n)
    else
      run _ <- append_debug (FailedToResetName start);
      ret (self, None)
  else
    run ok <- ida (fun d => do_name_anyway (Some start)
                              (String.list_byte_of_string new_name) d);
    if ok then
      run n <- get (fun w => get_name (db w) start);
      run _ <- (if bool_decide (n = new_name) then ret tt
                else append_debug (IDAChangedName new_name n));
      ret (set_name_of (Some n) self, Some n)
    else
      run _ <- append_debug (FailedToRename start);
      ret (self, None).

(** The key of [__eq__] and [__hash__]: the text of [__repr__]. *)
Definition SuperFunc_t_key (f : SuperFunc_t) : option string * Z * Z :=
  (name f, startEA (function_obj f), endEA (function_obj f)).

End FunctionLocator.

(** ** The String Tracer and the discovery drivers *)

Record StringTracer : Type := {
  initial_offset : option Z;
  tracer_identifier : option string;
  func_ea : Z
}.

(** A tracer class: whether it extends [StringTracer], and its [search]
    method, which returns its result together with the [encoded_strings]
    it has accumulated. *)
Record TracerClass `{IDA} : Type := {
  extends_StringTracer : bool;
  search : StringTracer -> M (bool * list ref)
}.

Section Drivers.
Context `{IDA}.
Variable Tracer : TracerClass.
Variable decode : EncodedString -> pyval.

(** [StringTracer.__init__(initial_offset, identifier)] *)
Definition StringTracer__init__ (initial_offset : option Z)
    (identifier : option string) : M StringTracer :=
  match initial_offset with
  | Some ea =>
      run found <- get (fun w => get_func (db w) ea);
      match found with
      | None => raise AttributeError
      | Some f =>
          ret {| initial_offset := initial_offset; tracer_identifier := identifier;
                 func_ea := startEA f |}
      end
  | None =>
      ret {| initial_offset := initial_offset; tracer_identifier := identifier;
             func_ea := INVALID |}
  end.

(** The body of the [try] that both drivers run at an address: [true] when
    [search()] succeeded. *)
Definition trace_at (ea : Z) (identifier : option string)
    (encoded_strings : list ref) : M (bool * list ref) :=
  run tracer <- StringTracer__init__ (Some ea) identifier;
  run found <- search Tracer tracer;
  if fst found then ret (true, encoded_strings ++ snd found)
  else ret (false, encoded_strings).

(** [find_encoded_strings_inline(matches, Tracer)] *)
Fixpoint find_encoded_strings_inline_from (matches : list (Z * string))
    (encoded_strings : list ref) : M (list ref) :=
  match matches with
  | [] => ret encoded_strings
  | (ea, identifier) :: matches' =>
      run encoded_strings <-
        catch
          (run r <- trace_at ea (Some identifier) encoded_strings;
           if fst r then ret (snd r)
           else run _ <- append_debug (FailedToFindStrings ea); ret (snd r))
          AttributeError
          (run _ <- append_debug (ErrorTracing ea); ret encoded_strings);
      find_encoded_strings_inline_from matches' encoded_strings
  end.

Definition find_encoded_strings_inline (matches : list (Z * string)) : M (list ref) :=
  find_encoded_strings_inline_from matches [].

(** The inner loop of [find_encoded_strings]: the callers of one
    function. *)
Fixpoint trace_callers (func : SuperFunc_t) (refs : list Z)
    (encoded_strings : list ref) : M (list ref) :=
  match refs with
  | [] => ret encoded_strings
  | ref :: refs' =>
      run segment <- get (fun w => SegName (db w) ref);
      run encoded_strings <-
        (if bool_decide (segment = ".pdata"%string) then
           run _ <- append_debug (PdataSkipped ref); ret encoded_strings
         else
           catch
             (run r <- trace_at ref (identifier func) encoded_strings;
              if fst r then ret (snd r)
              else run _ <- append_debug (FailedToFindStrings ref); ret (snd r))
             AttributeError
             (run _ <- append_debug (NoFunctionExists ref); ret encoded_strings));
      trace_callers func refs' encoded_strings
  end.

(** [find_encoded_strings(funcs, Tracer)] *)
Fixpoint find_encoded_strings_from (funcs : list SuperFunc_t)
    (encoded_strings : list ref) : M (list ref) :=
  match funcs with
  | [] => ret encoded_strings
  | func :: funcs' =>
      run encoded_strings <- trace_callers func (xrefs_to func) encoded_strings;
      find_encoded_strings_from funcs' encoded_strings
  end.

Definition find_encoded_strings (funcs : list SuperFunc_t) : M (list ref) :=
  find_encoded_strings_from funcs [].

(** ** The Decode Pipeline: [decode_strings]

    The message of the skip path formats [string_location] with [%X],
    which raises [TypeError] when the location is [None]. *)
Fixpoint decode_strings_from (encoded_strings : list ref)
    (decoded_strings : list ref) : M (list ref) :=
  match encoded_strings with
  | [] => ret decoded_strings
  | encoded_string :: rest =>
      run e <- deref encoded_string;
      if bool_decide (encoded_data e = VInt INVALID) then
        match string_location e with
        | Some location =>
            run _ <- append_debug (UnableToFindString location);
            decode_strings_from rest decoded_strings
        | None => raise TypeError
        end
      else
        run _ <- assign encoded_string (set_decoded_data (decode e));
        if truthy (decode e) then
          decode_strings_from rest (decoded_strings ++ [encoded_string])
        else
          run _ <- append_debug (FailedToDecode encoded_string);
          decode_strings_from rest decoded_strings
  end.

Definition decode_strings (encoded_strings : list ref) : M (list ref) :=
  decode_strings_from encoded_strings [].

End Drivers.

(** ** The Pattern Matcher *)

Section PatternMatcher.
Context `{IDA} `{System}.

(** [_yara_callback(data)] *)
Definition _yara_callback (data : rule_data) : M unit :=
  if negb (matches data) then ret tt
  else
    modify (fun w =>
      with_yara_matches
        (_YARA_MATCHES w ++
         map (fun datum => (ItemHead (db w) (get_fileregion_ea (db w) (fst datum)),
                            snd datum))
             (strings data)) w).

Fixpoint run_callbacks (rules : list rule_data) : M unit :=
  match rules with
  | [] => ret tt
  | data :: rules' => run _ <- _yara_callback data; run_callbacks rules'
  end.

(** [yara.compile(source=rule_text).match(INPUT_FILE_PATH, callback=...)]:
    the callback runs on every rule, and the value returned is the list of
    the rules that matched. *)
Definition yara_match (rule_text : string) : M (list rule_data) :=
  run path <- get INPUT_FILE_PATH;
  match yara_scan rule_text path with
  | None => raise YaraError
  | Some rules =>
      run _ <- run_callbacks rules;
      ret (List.filter matches rules)
  end.

(** [generic_run_yara(rule_text)] *)
Definition generic_run_yara (rule_text : string) : M (list (Z * string)) :=
  run _ <- modify (with_yara_matches []);
  run _ <- yara_match rule_text;
  get _YARA_MATCHES.

(** [make_superfunc_t_from_matches(matches, func_name)].  The functions
    are collected in a set keyed by their [__repr__]; the list made from
    the set is given here in order of first insertion. *)
Fixpoint make_superfunc_t_from (matches : list (Z * string)) (func_name : option string)
    (decode_funcs : list SuperFunc_t) : M (list SuperFunc_t) :=
  match matches with
  | [] => ret decode_funcs
  | (ea, identifier) :: matches' =>
      if ea =? BADADDR then make_superfunc_t_from matches' func_name decode_funcs
      else
        run func <- SuperFunc_t__init__ ea (Some identifier) true;
        run func <-
          match func_name with
          | Some n => run r <- SuperFunc_t_rename func n; ret (fst r)
          | None => ret func
          end;
        let decode_funcs :=
          if bool_decide (SuperFunc_t_key func ∈ map SuperFunc_t_key decode_funcs)
          then decode_funcs else decode_funcs ++ [func] in
        make_superfunc_t_from matches' func_name decode_funcs
  end.

Definition make_superfunc_t_from_matches (matches : list (Z * string))
    (func_name : option string) : M (list SuperFunc_t) :=
  make_superfunc_t_from matches func_name [].

(** [yara_find_decode_functions(rule_text, func_name)] *)
Definition yara_find_decode_functions (rule_text : string) (func_name : option string)
    : M (list SuperFunc_t) :=
  run _ <- modify (with_yara_matches []);
  run matched <- yara_match rule_text;
  if bool_decide (matched = []) then raise RuntimeError
  else
    run found <- get _YARA_MATCHES;
    make_superfunc_t_from_matches found func_name.

End PatternMatcher.

(** ** The Output Stage *)

Section OutputStage.
Context `{IDA} `{System} `{Codecs}.

Definition attr_value (a : option Z) : pyval :=
  match a with
  | None => VNone
  | Some z => VInt z
  end.

(** [_compare_key()] of the two classes, as the list of its components. *)
Definition _compare_key (e : EncodedString) : list pyval :=
  match stack e with
  | None => [attr_value (string_location e); attr_value (string_reference e);
             decoded_data e]
  | Some s => [attr_value (string_reference e); attr_value (frame_id s);
               attr_value (stack_offset s); decoded_data e]
  end.

(** Python 2's comparison of two tuples. *)
Fixpoint cmp_tuples (a b : list pyval) : comparison :=
  match a, b with
  | [], [] => Eq
  | [], _ :: _ => Lt
  | _ :: _, [] => Gt
  | x :: a', y :: b' =>
      match cmp_values x y with
      | Eq => cmp_tuples a' b'
      | c => c
      end
  end.

Definition key_at (h : list EncodedString) (r : ref) : list pyval :=
  from_option _compare_key [] (h !! r).

(** [set(decoded_strings)], with the elements in order of first
    insertion. *)
Fixpoint as_set (h : list EncodedString) (l seen : list ref) : list ref :=
  match l with
  | [] => seen
  | r :: l' =>
      if existsb (fun s => bool_decide (cmp_tuples (key_at h s) (key_at h r) = Eq)) seen
      then as_set h l' seen
      else as_set h l' (seen ++ [r])
  end.

(** [__str__()] *)
Definition __str__ (r : ref) : M (list byte) :=
  run text <- decode_unknown_charset_ref r;
  ret (concat (map unicode_escape text)).

(** [display_name] *)
Definition display_name (r : ref) : M (list byte) :=
  run text <- decode_unknown_charset_ref r;
  ret (display_encode text).

(** [report()] of the two classes. *)
Definition report (r : ref) : M report_text :=
  run e <- deref r;
  run dec <-
    (if invalid_or_unused (decoded_data e) then ret None
     else run text <- decode_unknown_charset_ref r; ret (Some text));
  run e' <- deref r;
  let set_attr (a : option Z) := if unset a then None else a in
  let truthy_field (a : option Z) := if truthy_attr a then a else None in
  ret {| report_frame_id := stack e ≫= fun s => truthy_field (frame_id s);
         report_stack_offset := stack e ≫= fun s => truthy_field (stack_offset s);
         report_ea := set_attr (string_location e);
         report_ref := set_attr (string_reference e);
         report_offset := set_attr (offset e);
         report_code_page := dec ≫= fun _ => code_page e';
         report_raw := dec ≫= fun _ => Some (decoded_data e);
         report_dec := dec |}.

Definition _MAX_COMMENT_LENGTH : nat := 130.
Definition _MAX_NAME_LENGTH : nat := 30.

(** The comment text: the name, cut and quoted. *)
Definition comment_for (name : list byte) : list byte :=
  let comment := [x22] ++ take _MAX_COMMENT_LENGTH name ++ [x22] in
  if (_MAX_COMMENT_LENGTH <? length name)%nat
  then comment ++ String.list_byte_of_string " (truncated)"
  else comment.

(** [re.sub('[^_$?@0-9A-Za-z]', '_', ...)] and [capitalize()] on bytes. *)
Definition name_char (b : byte) : byte :=
  let c := ord b in
  if (c =? 95) || (c =? 36) || (c =? 63) || (c =? 64)
     || ((48 <=? c) && (c <=? 57)) || ((65 <=? c) && (c <=? 90))
     || ((97 <=? c) && (c <=? 122))
  then b else "_"%byte.
Definition upper (b : byte) : byte :=
  if (97 <=? ord b) && (ord b <=? 122) then chr (ord b - 32) else b.
Definition lower (b : byte) : byte :=
  if (65 <=? ord b) && (ord b <=? 90) then chr (ord b + 32) else b.
Definition capitalize (s : list byte) : list byte :=
  match s with
  | [] => []
  | b :: s' => upper b :: map lower s'
  end.

(** [rename()] of the two classes, called without a name. *)
Definition rename (r : ref) : M unit :=
  run name <- display_name r;
  run e <- deref r;
  match stack e with
  | None =>
      if bool_decide (name = []) then append_debug (UnableToRename r)
      else
        let comment := comment_for name in
        run _ <- (if unset (string_location e) then ret tt
                  else modify (fun w => with_db (MakeRptCmt (string_location e) comment (db w)) w));
        run _ <- (if unset (string_reference e) then ret tt
                  else modify (fun w => with_db (MakeRptCmt (string_reference e) comment (db w)) w));
        if unset (string_location e) then ret tt
        else run _ <- ida (do_name_anyway (string_location e) (take _MAX_NAME_LENGTH name));
             ret tt
  | Some s =>
      run _ <- (if bool_decide (name = []) then append_debug (UnableToRename r) else ret tt);
      let comment := comment_for name in
      run _ <-
        match frame_id s, stack_offset s with
        | Some frame, Some off =>
            if negb (frame =? 0) && negb (off =? 0) then
              run _ <- modify (fun w => with_db (SetMemberComment frame off comment (db w)) w);
              let var_name := map name_char (take _MAX_NAME_LENGTH name) in
              if bool_decide (var_name = []) then raise ValueError
              else modify (fun w =>
                     with_db (SetMemberName frame off ("a"%byte :: capitalize var_name) (db w)) w)
            else ret tt
        | _, _ => ret tt
        end;
      if truthy_attr (string_reference e)
      then modify (fun w => with_db (MakeRptCmt (string_reference e) comment (db w)) w)
      else ret tt
  end.

(** [patch(fill_char=None, define=define)] of the two classes. *)
Definition patch (r : ref) (with_define : bool) : M unit :=
  run e <- deref r;
  match stack e with
  | Some _ => ret tt
  | None =>
      if invalid_or_unused (decoded_data e) then ret tt
      else if no_location e then ret tt
      else
        run decoded <- lift (as_bytes e);
        run ok <- ida (patch_many_bytes (entity_startEA e) decoded);
        if ok then (if with_define then define r else ret tt)
        else append_debug (StringTypeForDecoded (entity_startEA e))
  end.

Fixpoint output_each (l : list ref) (do_rename do_patch : bool)
    (string_list : list (list byte)) : M (list (list byte)) :=
  match l with
  | [] => ret string_list
  | decoded_string :: l' =>
      run s <- __str__ decoded_string;
      run text <- decode_unknown_charset_ref decoded_string;
      run _ <- append_string (rstrip text);
      run _ <- print PrintNewline;
      run display <- report decoded_string;
      run _ <- print (PrintReport display);
      run _ <- (if do_rename then rename decoded_string else ret tt);
      run _ <- (if do_patch then patch decoded_string true else ret tt);
      output_each l' do_rename do_patch (string_list ++ [s])
  end.

(** [output_strings(decoded_strings, dedup, rename, patch)] *)
Definition output_strings (decoded_strings : list ref) (dedup do_rename do_patch : bool)
    : M (list (list byte)) :=
  run h <- get heap;
  let decoded_strings := if dedup then as_set h decoded_strings [] else decoded_strings in
  let ordered :=
    Py.sorted (fun a b => bool_decide (cmp_tuples (key_at h a) (key_at h b) = Lt))
      decoded_strings in
  output_each ordered do_rename do_patch [].

Fixpoint patch_each (l : list ref) (with_define : bool) : M unit :=
  match l with
  | [] => ret tt
  | r :: l' => run _ <- patch r with_define; patch_each l' with_define
  end.

(** [patch_decoded(decoded_strings, define)] *)
Definition patch_decoded (decoded_strings : list ref) (with_define : bool) : M unit :=
  run h <- get heap;
  let location r := attr_value (from_option string_location None (h !! r)) in
  patch_each
    (Py.sorted (fun a b => bool_decide (cmp_values (location a) (location b) = Lt))
       decoded_strings)
    with_define.

End OutputStage.

(** ** The engine entry point *)

Section Engine.
Context `{IDA} `{System} `{Codecs}.

(** [find_input_file()] *)
Definition find_input_file : M bool :=
  run ida_path <- get INPUT_FILE_PATH;
  if negb (path_exists ida_path) then
    run local_path <- get (fun w => path_join (GetIdbDir (db w)) (GetInputFile (db w)));
    run md5 <- get (fun w => GetInputMD5 (db w));
    if path_exists local_path then
      match md5_of local_path with
      | None => raise IOError
      | Some digest =>
          if bool_decide (digest = md5) then
            run _ <- modify (with_input_file_path local_path);
            run _ <- append_debug (GuessedInputPath local_path);
            run _ <- append_debug (IDAThoughtItWas ida_path);
            ret true
          else ret false
      end
    else ret false
  else ret true.

(** [string_decoder_main(yara_rule, Tracer, decode, patch, func_name,
    inline)]; the value returned is [None] where the source returns
    nothing. *)
Definition string_decoder_main (yara_rule : string) (Tracer : TracerClass)
    (decode : EncodedString -> pyval) (do_patch : bool) (func_name : option string)
    (inline : bool) : M (option (list (list byte))) :=
  if negb (extends_StringTracer Tracer) then
    run _ <- append_debug TracerNotStringTracer; ret None
  else
    run located_file <- find_input_file;
    if negb located_file then
      run path <- get INPUT_FILE_PATH;
      run _ <- append_debug (UnableToLocateInput path); ret None
    else
      catch
        (run found <-
           (if inline then
              run matches <- generic_run_yara yara_rule;
              find_encoded_strings_inline Tracer matches
            else
              run decode_functions <- yara_find_decode_functions yara_rule func_name;
              find_encoded_strings Tracer decode_functions);
         run _ <- modify (with_encoded_strings found);
         run decoded <- decode_strings decode found;
         run _ <- modify (with_encoded_strings decoded);
         run string_list <- output_strings decoded true true false;
         run _ <- (if do_patch then patch_decoded decoded true else ret tt);
         ret (Some string_list))
        RuntimeError
        (run _ <- append_debug YaraFailedToMatch; ret None).

End Engine.

(** ** Notions used to state the properties of the decode pipeline *)

Section PipelineSpec.
Variable decode : EncodedString -> pyval.

(** The entity is decoded and kept. *)
Definition decodes (h : list EncodedString) (r : ref) : bool :=
  match h !! r with
  | Some e => negb (bool_decide (encoded_data e = VInt INVALID)) && truthy (decode e)
  | None => false
  end.

(** The entity after the pipeline has handled it. *)
Definition decoded_entity (e : EncodedString) : EncodedString :=
  if bool_decide (encoded_data e = VInt INVALID) then e
  else set_decoded_data (decode e) e.

(** The message, if any, that the pipeline logs for the entity. *)
Definition decode_message (h : list EncodedString) (r : ref) : option debug_msg :=
  match h !! r with
  | Some e =>
      if bool_decide (encoded_data e = VInt INVALID)
      then UnableToFindString <$> string_location e
      else if truthy (decode e) then None else Some (FailedToDecode r)
  | None => None
  end.

(** The entity exists and, when its bytes are unresolved, has an integer
    location for the log message. *)
Definition loggable (h : list EncodedString) (r : ref) : Prop :=
  exists e, h !! r = Some e /\
    (encoded_data e = VInt INVALID -> is_Some (string_location e)).

End PipelineSpec.

(** An entity as [EncodedStackString(...)] returns it on some host. *)
Definition built_on_stack `{IDA} (e : EncodedString) : Prop :=
  exists (d : idb) frame_id stack_offset memory_ptr string_reference size offset key,
    EncodedStackString__init__ d frame_id stack_offset memory_ptr string_reference
      size offset key = Ret e.

(** An entity whose bytes are populated has a known size. *)
Definition sized (e : EncodedString) : Prop :=
  encoded_data e <> VInt INVALID -> unset (size e) = false.

(** ** Notions used to state which candidate the detector records *)

Section DetectorSpec.
Context `{Codecs}.

(** [cp], with output [out], is the first candidate of lowest score in
    [before ++ cp :: after]: no later candidate scores lower, and every
    earlier candidate scores higher, provided no earlier candidate
    decodes to an empty text (after an empty output the loop takes the
    next candidate whatever its score). *)
Definition first_lowest (data : list byte) (before : list codec) (cp : codec)
    (out : list Z) (after : list codec) : Prop :=
  candidate_output data cp = Some out /\
  (forall cp' out', cp' ∈ after -> candidate_output data cp' = Some out' ->
     _num_raw_bytes out <= _num_raw_bytes out') /\
  ((forall cp', cp' ∈ before -> candidate_output data cp' <> Some []) ->
   forall cp' out', cp' ∈ before -> candidate_output data cp' = Some out' ->
     _num_raw_bytes out < _num_raw_bytes out').

(** What the loop has established once it has tried the candidates of
    [tried]. *)
Definition loop_invariant (data : list byte) (tried : list codec) (b : best) : Prop :=
  (no_output b = false ->
   exists cp out before after,
     tried = before ++ cp :: after /\
     best_code_page b = Some cp /\ best_output b = Some out /\
     best_score b = _num_raw_bytes out /\
     first_lowest data before cp out after) /\
  (no_output b = true ->
   (forall cp', cp' ∈ tried -> candidate_output data cp' <> Some []) ->
   forall cp', cp' ∈ tried -> candidate_output data cp' = None).

End DetectorSpec.

(** ** Notions used to state the properties of the discovery drivers *)

Section DriverSpec.
Context `{IDA}.

(** The message logged for a caller that is not traced. *)
Definition caller_message (d : idb) (ref : Z) : debug_msg :=
  if bool_decide (SegName d ref = ".pdata"%string) then PdataSkipped ref
  else NoFunctionExists ref.

(** A caller that cannot be traced: it lies in [.pdata] or in no
    function. *)
Definition untraceable (d : idb) (ref : Z) : Prop :=
  SegName d ref = ".pdata"%string \/ get_func d ref = None.

End DriverSpec.

(** ** Notions used to state the properties of the pattern matcher *)

Section MatcherSpec.
Context `{IDA}.

(** What the callback records for the rules of one scan: the strings of
    the rules that matched, each with the head of the item at its file
    offset. *)
Definition yara_hits (d : idb) (rules : list rule_data) : list (Z * string) :=
  concat (map (fun data =>
                 if matches data
                 then map (fun datum => (ItemHead d (get_fileregion_ea d (fst datum)), snd datum))
                        (strings data)
                 else [])
              rules).

End MatcherSpec.

(** ** Sample hosts

    A database with two functions, [decode] called twice from [main] and
    once from itself, and a file system that holds the input file next to
    the database. *)

Module Hosts.

Definition two_functions : Image.db :=
  {| Image.functions :=
       [("decode"%string, {| startEA := 0x401000; endEA := 0x401100 |});
        ("main"%string, {| startEA := 0x402000; endEA := 0x402100 |})];
     Image.xrefs := [(0x402010, 0x401000); (0x401050, 0x401000); (0x402020, 0x401000)];
     Image.image_base := 0x400000;
     Image.image := [] |}.

(** The same database with the first call listed twice. *)
Definition repeated_call : Image.db :=
  {| Image.functions := Image.functions two_functions;
     Image.xrefs := (0x402010, 0x401000) :: Image.xrefs two_functions;
     Image.image_base := 0x400000;
     Image.image := [] |}.

Definition world_of (d : Image.db) (path : string) : World :=
  {| heap := []; db := d; debug := []; reported := []; stdout := [];
     _YARA_MATCHES := []; ENCODED_STRINGS := []; INPUT_FILE_PATH := path |}.

Definition at_rest : World := world_of two_functions "sample.bin".

(** Python 2's [cmp] on values of one type; across types, [None] is below
    the integers and the integers below text, which is compared by code
    point. *)
Fixpoint cmp_points (a b : list Z) : comparison :=
  match a, b with
  | [], [] => Eq
  | [], _ :: _ => Lt
  | _ :: _, [] => Gt
  | x :: a', y :: b' =>
      match x ?= y with
      | Eq => cmp_points a' b'
      | c => c
      end
  end.

Definition cmp (a b : pyval) : comparison :=
  match a, b with
  | VNone, VNone => Eq
  | VNone, _ => Lt
  | _, VNone => Gt
  | VInt x, VInt y => x ?= y
  | VInt _, _ => Lt
  | _, VInt _ => Gt
  | VStr x, VStr y => cmp_points (map ord x) (map ord y)
  | VStr x, VUnicode y => cmp_points (map ord x) y
  | VUnicode x, VStr y => cmp_points x (map ord y)
  | VUnicode x, VUnicode y => cmp_points x y
  end.

(** A file system that holds the input file next to the database, and a
    scanner that knows three rule texts: one with a rule that matches at
    two file offsets inside [decode], one with a rule that matches at an
    offset outside every function, and one whose only rule does not
    match.  Any other text does not compile. *)
Definition decode_rules : list rule_data :=
  [ {| matches := false; strings := [(0x2000, "$main"%string)] |};
    {| matches := true; strings := [(0x1020, "$a"%string); (0x1040, "$b"%string)] |} ].
Definition stray_rules : list rule_data :=
  [ {| matches := true; strings := [(0x100000, "$a"%string)] |} ].
Definition absent_rules : list rule_data :=
  [ {| matches := false; strings := [] |} ].

#[global] Instance system : System := {|
  path_exists := fun p => bool_decide (p = "./sample.bin"%string);
  path_join := fun a b => (a ++ "/" ++ b)%string;
  md5_of := fun _ => Some "D41D8CD98F00B204E9800998ECF8427E"%string;
  yara_scan := fun rule_text _ =>
    if bool_decide (rule_text = "decode"%string) then Some decode_rules
    else if bool_decide (rule_text = "stray"%string) then Some stray_rules
    else if bool_decide (rule_text = "absent"%string) then Some absent_rules
    else None;
  cmp_values := cmp
|}.

(** The function object that the host gives for an address inside
    [decode], tagged with the identifier [$a]. *)
Definition decode_function : SuperFunc_t :=
  {| origin_ea := 0x401020; identifier := Some "$a"%string;
     function_obj := {| startEA := 0x401000; endEA := 0x401100 |};
     name := Some "decode"%string; xrefs_to := [0x402010; 0x402020]; xref_count := 2 |}.

(** Two matches inside [decode] and one at the host's invalid address. *)
Definition three_matches : list (Z * string) :=
  [(0x401020, "$a"%string); (0x401040, "$b"%string); (0xFFFFFFFF, "$c"%string)].

(** The same file system, where the file next to the database cannot be
    read. *)
Definition unreadable : System := {|
  path_exists := fun p => bool_decide (p = "./sample.bin"%string);
  path_join := fun a b => (a ++ "/" ++ b)%string;
  md5_of := fun _ => None;
  yara_scan := fun _ _ => None;
  cmp_values := cmp
|}.

(** The same host once the input file has been located. *)
Definition input_found : World := world_of two_functions "./sample.bin".

(** An entity without a location that holds the strings "ABC" and "DE",
    and an entity at 0x401000 that holds them as a [unicode] object. *)
Definition unlocated_strings : World :=
  Examples.world [Examples.entity None (join x00 Examples.two_strings)].

Definition wide_strings : list (list Z) := [[65; 66; 67]; [68; 69]].

Definition wide_entity : EncodedString :=
  {| string_location := Some 0x401000; string_reference := Some INVALID;
     size := Some (Py.len (join 0 wide_strings)); offset := Some INVALID;
     key := VInt INVALID; encoded_data := VInt INVALID;
     decoded_data := VUnicode (join 0 wide_strings);
     code_page := None; _xrefs_to := None; stack := None |}.

(** The stack string built for frame 7, stack offset 0x10 and size 4,
    referenced from [main], and a world that holds it. *)
Definition on_stack : EncodedString :=
  {| string_location := Some INVALID; string_reference := Some 0x402010;
     size := Some 4; offset := Some INVALID; key := VInt INVALID;
     encoded_data := VInt INVALID; decoded_data := VInt INVALID;
     code_page := None; _xrefs_to := None;
     stack := Some {| frame_id := Some 7; stack_offset := Some 0x10;
                      memory_ptr := None |} |}.

Definition with_stack_string : World :=
  {| heap := [on_stack]; db := two_functions; debug := []; reported := []; stdout := [];
     _YARA_MATCHES := []; ENCODED_STRINGS := []; INPUT_FILE_PATH := "./sample.bin" |}.

(** A world whose input file is not where the database recorded it but
    sits next to the database. *)
Definition moved : World := world_of two_functions "C:/samples/sample.bin".

(** A tracer class whose [search] succeeds without finding a string. *)
Definition finds_nothing : TracerClass :=
  {| extends_StringTracer := true; search := fun _ => ret (true, []) |}.

(** A tracer class whose [search] raises [RuntimeError]. *)
Definition gives_up : TracerClass :=
  {| extends_StringTracer := true; search := fun _ => raise RuntimeError |}.

(** A function object whose callers lie outside every function. *)
Definition orphan_callers : SuperFunc_t :=
  {| origin_ea := 0x401000; identifier := Some "$decode"%string;
     function_obj := {| startEA := 0x401000; endEA := 0x401100 |};
     name := Some "decode"%string; xrefs_to := [0x500000; 0x500010]; xref_count := 2 |}.

End Hosts.

(** * kordesii.kordesiitester: test-case support

    The results of a decoder are kept as a JSON list of metadata
    dictionaries, one per input file.  Dictionaries are finite maps on
    their keys.  A dictionary access [d[key]] that raises [KeyError] is
    [None]; file access is left out: the functions that rewrite the
    results file take the parsed content and return the content they
    write. *)

Module Tester.

Definition INPUT_FILE_PATH : string := "input_file".

(** The test statuses of [ResultComparison]. *)
Inductive status : Type := PASS | FAIL | SUPERSET.

#[global] Instance status_eq_dec : EqDecision status.
Proof. solve_decision. Defined.

Section Comparison.
Context {A : Type} `{EqDecision A}.

(** A [ResultComparison] object.  [StringsComparison] and
    [FilesComparison] are this class with the field name fixed. *)
Record ResultComparison : Type := {
  field : string;
  code : status;
  missing : list (list A);
  unexpected : list (list A)
}.

Definition ResultComparison__init__ (field : string) : ResultComparison :=
  {| field := field; code := FAIL; missing := []; unexpected := [] |}.

(** One of the two loops of [compare]: the items of [xs] with
    [len(item) > 0 and item not in ys], in order. *)
Definition not_in (xs ys : list (list A)) : list (list A) :=
  filter (fun item => (0 < length item)%nat /\ item ∉ ys) xs.

(** [compare(test_case_results, new_results)]: the object after the
    call. *)
Definition compare (self : ResultComparison) (test_case_results new_results : list (list A))
    : ResultComparison :=
  let missing := missing self ++ not_in test_case_results new_results in
  let unexpected := unexpected self ++ not_in new_results test_case_results in
  {| field := field self;
     code := if bool_decide (missing <> []) then FAIL
             else if bool_decide (unexpected <> []) then SUPERSET
             else PASS;
     missing := missing;
     unexpected := unexpected |}.

(** [passed()] *)
Definition passed (self : ResultComparison) : bool :=
  match code self with
  | FAIL | SUPERSET => false
  | PASS => true
  end.

(** A result set: the value of a field is a list of items.  The value
    under [INPUT_FILE_PATH] is only ever deleted. *)
Definition results : Type := gmap string (list (list A)).

(** [compare_results_field(results_a, results_b, field_name)] *)
Definition compare_results_field (results_a results_b : results) (field_name : string)
    : ResultComparison :=
  let comparer := ResultComparison__init__ field_name in
  if bool_decide (results_a !! field_name = None /\ results_b !! field_name = None)
  then comparer
  else
    let result_a := default [] (results_a !! field_name) in
    let result_b := default [] (results_b !! field_name) in
    compare comparer result_a result_b.

(** The loops of [compare_results] that compare the fields of a list of
    names. *)
Definition compare_fields (results_a results_b : results) (names : list string)
    : bool * gmap string ResultComparison :=
  fold_left
    (fun acc field_name =>
       let comparer := compare_results_field results_a results_b field_name in
       (if passed comparer then fst acc else false, <[field_name := comparer]> (snd acc)))
    names (true, ∅).

(** [results.pop(ignore_field, None)] for each ignored field. *)
Definition pop_all (ignore_field_names : list string) (r : results) : results :=
  fold_left (fun r ignore_field => delete ignore_field r) ignore_field_names r.

(** [compare_results(results_a, results_b, field_names,
    ignore_field_names)].  The keys of a dictionary are visited in the
    order of [elements]; neither component of the value returned depends
    on the order. *)
Definition compare_results (results_a results_b : results)
    (field_names ignore_field_names : list string)
    : bool * gmap string ResultComparison :=
  let results_a := delete INPUT_FILE_PATH results_a in
  let results_b := delete INPUT_FILE_PATH results_b in
  if (0 <? length field_names)%nat then
    compare_fields results_a results_b field_names
  else
    let results_a := pop_all ignore_field_names results_a in
    let results_b := pop_all ignore_field_names results_b in
    if bool_decide (dom results_a <> dom results_b) then
      let all_keys := dom results_a ∪ dom results_b in
      (false, snd (compare_fields results_a results_b (elements all_keys)))
    else
      compare_fields results_a results_b (elements (dom results_a)).

(** The two result lists hold the same non-empty items. *)
Definition same_items (xs ys : list (list A)) : Prop :=
  forall item, item <> [] -> (item ∈ xs <-> item ∈ ys).

End Comparison.

Arguments ResultComparison : clear implicits.
Arguments results : clear implicits.

Section ResultsFile.
Context {V : Type} `{EqDecision V}.

(** A metadata dictionary; [V] is the type of JSON values. *)
Definition metadata : Type := gmap string V.

(** The loop of [list_test_files] on the parsed results file. *)
Fixpoint list_test_files_from (data : list metadata) (filelist : list V)
    : option (list V) :=
  match data with
  | [] => Some filelist
  | metadata :: data' =>
      path ← metadata !! INPUT_FILE_PATH;
      list_test_files_from data' (filelist ++ [path])
  end.

Definition list_test_files (data : list metadata) : option (list V) :=
  list_test_files_from data [].

(** The [while] loop of [update_test_results], entered at [index] with
    [found] false: the list after the loop and the final [found]. *)
Fixpoint find_duplicate (results_data : metadata) (replace : bool)
    (results_file_data : list metadata) (index : nat) (remaining : nat)
    : option (list metadata * bool) :=
  match remaining with
  | O => Some (results_file_data, false)
  | S remaining' =>
      match results_file_data !! index with
      | None => Some (results_file_data, false)
      | Some metadata =>
          a ← metadata !! INPUT_FILE_PATH;
          b ← results_data !! INPUT_FILE_PATH;
          if bool_decide (a = b) then
            Some (if replace then <[index := results_data]> results_file_data
                  else results_file_data, true)
          else find_duplicate results_data replace results_file_data (S index) remaining'
      end
  end.

(** [update_test_results(results_file_path, results_data, replace)]:
    [on_disk] is the parsed results file, [None] when there is no such
    file; the value is the list that is written. *)
Definition update_test_results (on_disk : option (list metadata))
    (results_data : metadata) (replace : bool) : option (list metadata) :=
  match on_disk with
  | Some results_file_data =>
      match find_duplicate results_data replace results_file_data 0%nat
              (length results_file_data) with
      | Some (results_file_data, found) =>
          Some (if found then results_file_data else results_file_data ++ [results_data])
      | None => None
      end
  | None => Some [results_data]
  end.

(** The loop of [remove_test_results]. *)
Fixpoint remove_from (data : list metadata) (filenames : list V)
    (removed_files : list V) (results_file_data : list metadata)
    : option (list V * list metadata) :=
  match data with
  | [] => Some (removed_files, results_file_data)
  | metadata :: data' =>
      path ← metadata !! INPUT_FILE_PATH;
      if bool_decide (path ∈ filenames)
      then remove_from data' filenames (removed_files ++ [path]) results_file_data
      else remove_from data' filenames removed_files (results_file_data ++ [metadata])
  end.

(** [remove_test_results(decoder_name, filenames)] on the parsed results
    file: the files removed and the list that is written. *)
Definition remove_test_results (data : list metadata) (filenames : list V)
    : option (list V * list metadata) :=
  remove_from data filenames [] [].

End ResultsFile.

(** Sample result sets and a sample results file. *)
Definition expected : results Byte.byte :=
  {[ "strings"%string := [["a"; "b"]; []; ["c"]]%byte;
     "input_file"%string := [["x"]]%byte;
     "debug"%string := [["o"; "l"; "d"]]%byte ]}.

Definition produced : results Byte.byte :=
  {[ "strings"%string := [["c"]; ["a"; "b"]]%byte;
     "debug"%string := [["n"; "e"; "w"]]%byte ]}.

Definition entry (path : string) (note : string) : gmap string string :=
  {[ "input_file"%string := path; "note"%string := note ]}.

Definition results_file : list (gmap string string) :=
  [entry "a.bin" "1"; entry "b.bin" "2"; entry "a.bin" "3"].

End Tester.
(** * Properties *)

(** ** Facts about the sequence primitives *)

Section SeqFacts.
Context {A : Type} `{EqDecision A}.
Implicit Types (l sub : list A) (c : A).

Lemma len_nonneg l : 0 <= Py.len l.
Proof. unfold Py.len. lia. Qed.

Lemma len_app l1 l2 : Py.len (l1 ++ l2) = Py.len l1 + Py.len l2.
Proof. unfold Py.len. rewrite length_app. lia. Qed.

Lemma len_cons c l : Py.len (c :: l) = 1 + Py.len l.
Proof. unfold Py.len. simpl. lia. Qed.

Lemma slice_in_range l a b :
  0 <= a -> a <= b -> b <= Py.len l ->
  Py.slice l (Some a) (Some b) = take (Z.to_nat (b - a)) (drop (Z.to_nat a) l).
Proof.
  intros Ha Hab Hb. unfold Py.slice, Py.clamp.
  destruct (Z.ltb_spec a 0), (Z.ltb_spec b 0); try lia.
  rewrite !Z.min_l by lia. reflexivity.
Qed.

Lemma slice_middle l1 l2 l3 :
  Py.slice (l1 ++ l2 ++ l3) (Some (Py.len l1)) (Some (Py.len l1 + Py.len l2)) = l2.
Proof.
  pose proof (len_nonneg l1). pose proof (len_nonneg l2). pose proof (len_nonneg l3).
  rewrite slice_in_range; rewrite ?len_app; try lia.
  unfold Py.len. rewrite Nat2Z.id.
  rewrite drop_app_length.
  replace (Z.to_nat _) with (length l2) by lia.
  apply take_app_length.
Qed.

Lemma slice_prefix l1 l2 : Py.slice (l1 ++ l2) (Some 0) (Some (Py.len l1)) = l1.
Proof.
  pose proof (slice_middle [] l1 l2) as Hm.
  change (Py.len []) with 0 in Hm. rewrite Z.add_0_l in Hm. exact Hm.
Qed.

Lemma slice_length_le l a b :
  0 <= a -> Py.len (Py.slice l (Some a) b) <= Py.len l - a \/ Py.slice l (Some a) b = [].
Proof.
  intros Ha. unfold Py.slice, Py.clamp.
  destruct (Z.ltb_spec a 0); try lia.
  destruct (Z.le_gt_cases a (Py.len l)) as [Hle|Hgt].
  - left. unfold Py.len in *. rewrite length_take, length_drop. lia.
  - right. rewrite drop_ge by (unfold Py.len in *; lia). apply take_nil.
Qed.

Lemma index_in_range l i c :
  l !! Z.to_nat i = Some c -> 0 <= i -> Py.index l i = Ret c.
Proof.
  intros Hl Hi. unfold Py.index.
  destruct (Z.ltb_spec i 0); try lia.
  destruct (Z.ltb_spec i 0); try lia.
  rewrite Hl. reflexivity.
Qed.

Lemma index_total l i :
  0 <= i < Py.len l -> exists c, Py.index l i = Ret c /\ l !! Z.to_nat i = Some c.
Proof.
  intros Hi. destruct (lookup_lt_is_Some_2 l (Z.to_nat i)) as [c Hc].
  - unfold Py.len in Hi. lia.
  - exists c. split; [apply index_in_range; [assumption | lia] | assumption].
Qed.

Lemma startswith_single l c :
  Py.startswith l [c] = match l with x :: _ => bool_decide (x = c) | [] => false end.
Proof. destruct l; simpl; [reflexivity | apply andb_true_r]. Qed.

Lemma startswith_cons x l y sub :
  Py.startswith (x :: l) (y :: sub) = bool_decide (x = y) && Py.startswith l sub.
Proof. reflexivity. Qed.

Lemma find_from_cons i x l sub :
  Py.find_from i (x :: l) sub =
  if Py.startswith (x :: l) sub then i else Py.find_from (i + 1) l sub.
Proof. reflexivity. Qed.

Lemma startswith_length l sub :
  Py.startswith l sub = true -> (length sub <= length l)%nat.
Proof.
  revert l. induction sub as [|y sub IH]; intros [|x l]; simpl; try lia; try discriminate.
  intros [_ Hs]%andb_true_iff. apply IH in Hs. lia.
Qed.

(** [rfind] of a single character. *)
Lemma rfind_from_absent i last l c :
  c ∉ l -> Py.rfind_from i last l [c] = last.
Proof.
  revert i last. induction l as [|x l IH]; intros i last Hc; simpl; [reflexivity|].
  apply not_elem_of_cons in Hc as [Hne Hc].
  rewrite bool_decide_false by congruence. simpl. apply IH, Hc.
Qed.

Lemma rfind_from_last i last l1 l2 c :
  c ∉ l2 -> Py.rfind_from i last (l1 ++ c :: l2) [c] = i + Py.len l1.
Proof.
  revert i last. induction l1 as [|x l1 IH]; intros i last Hc; simpl.
  - rewrite bool_decide_true by reflexivity. simpl.
    rewrite rfind_from_absent by assumption. unfold Py.len. simpl. lia.
  - rewrite IH by assumption. rewrite len_cons. lia.
Qed.

Lemma rfind_absent l c : c ∉ l -> Py.rfind l [c] = -1.
Proof. apply rfind_from_absent. Qed.

Lemma rfind_last l1 l2 c : c ∉ l2 -> Py.rfind (l1 ++ c :: l2) [c] = Py.len l1.
Proof. intros Hc. unfold Py.rfind. rewrite rfind_from_last by assumption. lia. Qed.

(** Every list either lacks [c] or splits at its last occurrence. *)
Lemma last_occurrence l c :
  c ∉ l \/ exists l1 l2, l = l1 ++ c :: l2 /\ c ∉ l2.
Proof.
  induction l as [|x l IH].
  - left. apply not_elem_of_nil.
  - destruct IH as [Hn | (l1 & l2 & -> & Hn)].
    + destruct (decide (x = c)) as [->|Hne].
      * right. exists [], l. split; [reflexivity | assumption].
      * left. apply not_elem_of_cons. split; [congruence | assumption].
    + right. exists (x :: l1), l2. split; [reflexivity | assumption].
Qed.

(** [find]: a result other than [-1] is the start of an occurrence. *)
Lemma find_from_range i l sub r :
  Py.find_from i l sub = r -> r <> -1 -> 0 <= i ->
  i <= r /\ r + Py.len sub <= i + Py.len l /\
  Py.startswith (drop (Z.to_nat (r - i)) l) sub = true.
Proof.
  revert i. induction l as [|x l IH]; intros i Hf Hr Hi; simpl in Hf.
  - destruct (Py.startswith [] sub) eqn:Hs; [|congruence].
    subst r. apply startswith_length in Hs as Hlen.
    replace (Z.to_nat (i - i)) with 0%nat by lia. simpl.
    split; [lia|]. split; [unfold Py.len in *; simpl in *; lia|].
    destruct sub; [reflexivity | simpl in Hlen; lia].
  - destruct (Py.startswith (x :: l) sub) eqn:Hs.
    + subst r. apply startswith_length in Hs as Hlen.
      replace (Z.to_nat (i - i)) with 0%nat by lia. simpl.
      split; [lia|]. split; [unfold Py.len in *; simpl in *; lia | assumption].
    + apply IH in Hf as (H1 & H2 & H3); [|assumption|lia].
      split; [lia|]. split; [rewrite len_cons; lia|].
      replace (Z.to_nat (r - i)) with (S (Z.to_nat (r - (i + 1)))) by lia.
      exact H3.
Qed.

Lemma find_from_none i l sub :
  (forall k, Py.startswith (drop k l) sub = false) -> Py.find_from i l sub = -1.
Proof.
  revert i. induction l as [|x l IH]; intros i Hk; simpl.
  - specialize (Hk 0%nat). simpl in Hk. rewrite Hk. reflexivity.
  - pose proof (Hk 0%nat) as H0. simpl in H0. rewrite H0.
    apply IH. intros k. apply (Hk (S k)).
Qed.

End SeqFacts.

(** ** The splitting loops return, and what they append

    For a buffer whose [size] attribute is its length, every loop ends
    within its budget, no index is out of range, and each appended item is
    a non-empty slice [data[s:e]] of the buffer, re-terminated, and tagged
    with its start [s]. *)

Section SplitterFacts.
Context {A R : Type} `{EqDecision A}.
Variable null : A.
Variable data : list A.
Variable new_string : list A -> Z -> R.

Local Abbreviation Carved := (Carved null data new_string).
Local Abbreviation section_end_ok := (section_end_ok data).


Lemma step_back_spec fuel ss s0 :
  0 <= ss -> s0 < Py.len data -> s0 - ss < 2 * Z.of_nat fuel ->
  exists s, step_back null data fuel ss s0 = Ret s /\ s <= s0 /\
    (ss <= s0 -> data !! Z.to_nat s0 = Some null -> s <= s0 - 2) /\
    (ss <= s -> exists c, data !! Z.to_nat s = Some c /\ c <> null).
Proof.
  revert s0. induction fuel as [|fuel IH]; intros s0 Hss Hs0 Hfuel.
  - exists s0. simpl. destruct (Z.ltb_spec s0 ss); [|lia].
    split; [reflexivity|]. split; [lia|]. split; intros; lia.
  - simpl. destruct (Z.ltb_spec s0 ss) as [Hlt|Hge].
    + exists s0. split; [reflexivity|]. split; [lia|]. split; intros; lia.
    + destruct (index_total data s0) as (c & Hc & Hl); [lia|].
      rewrite Hc. simpl. destruct (decide (c = null)) as [->|Hne].
      * rewrite bool_decide_true by reflexivity.
        destruct (IH (s0 - 2)) as (s & Hs & Hle & _ & Hnn); [lia..|].
        exists s. split; [assumption|]. split; [lia|]. split; [intros; lia | assumption].
      * rewrite bool_decide_false by assumption.
        exists s0. split; [reflexivity|]. split; [lia|].
        split; [intros _ Hn; congruence | intros _; eauto].
Qed.

Lemma next_string_start_spec ss e :
  0 <= ss -> ss <= e -> e <= Py.len data ->
  exists s, next_string_start null data (length data) ss (Some e) = Ret s /\
    ss <= s <= e.
Proof.
  intros Hss Hse He. unfold next_string_start.
  rewrite slice_in_range by lia.
  set (sl := take _ _).
  assert (Hsl : forall i c, sl !! i = Some c ->
            data !! (Z.to_nat ss + i)%nat = Some c /\ (Z.of_nat i < e - ss)).
  { intros i c Hi. unfold sl in Hi.
    apply lookup_take_Some in Hi as [Hi Hlt]. rewrite lookup_drop in Hi.
    split; [assumption | lia]. }
  destruct (last_occurrence sl null) as [Habs | (l1 & l2 & Heq & Habs)].
  - rewrite rfind_absent by assumption. simpl. exists ss. split; [reflexivity | lia].
  - rewrite Heq, rfind_last by assumption.
    pose proof (len_nonneg l1) as Hl1.
    destruct (Z.eqb_spec (Py.len l1) (-1)); [lia|].
    destruct (Hsl (length l1) null) as [Hd Hlt].
    { rewrite Heq. rewrite lookup_app_r by lia. rewrite Nat.sub_diag. reflexivity. }
    destruct (step_back_spec (length data) ss (Py.len l1 + ss))
      as (s & Hs & Hle & Hnull & _); [unfold Py.len in *; lia..|].
    rewrite Hs. simpl.
    assert (s <= Py.len l1 + ss - 2).
    { apply Hnull; [lia|]. unfold Py.len.
      replace (Z.to_nat (Z.of_nat (length l1) + ss)) with (Z.to_nat ss + length l1)%nat by lia.
      assumption. }
    unfold Py.len in *.
    destruct (Z.gtb_spec s ss).
    + eexists. split; [reflexivity | lia].
    + destruct (Z.ltb_spec s ss); eexists; (split; [reflexivity | lia]).
Qed.

Lemma carve_section_total fuel ss e results :
  0 <= ss -> ss <= e -> e <= Py.len data -> e - ss < Z.of_nat fuel ->
  Forall Carved results ->
  exists res, carve_section null data new_string fuel ss (Some e) results = Ret res /\
    Forall Carved res.
Proof.
  revert e results. induction fuel as [|fuel IH]; intros e results Hss Hse He Hfuel Hres;
    [lia|].
  simpl.
  destruct (next_string_start_spec ss e) as (s & Hs & Hrange); [lia..|].
  rewrite Hs. simpl.
  rewrite slice_in_range by lia.
  set (piece := take _ _).
  assert (Hres' : Forall Carved
            (if bool_decide (piece = []) then results
             else results ++ [new_string (piece ++ [null]) s])).
  { case_bool_decide as Hp; [assumption|].
    apply Forall_app. split; [assumption|]. apply Forall_singleton.
    exists s, e. split; [lia|]. split; [|split; [lia | reflexivity]].
    destruct (Z.eq_dec s e) as [->|]; [|lia].
    exfalso. apply Hp. unfold piece. rewrite Z.sub_diag. reflexivity. }
  destruct (Z.eqb_spec s ss).
  - eexists. split; [reflexivity | assumption].
  - apply IH; [lia..|assumption].
Qed.

Lemma skip_nulls_spec fuel ss :
  0 <= ss -> ss <= Py.len data -> Py.len data - ss <= Z.of_nat fuel ->
  exists s, skip_nulls null data (Some (Py.len data)) fuel ss = Ret s /\
    ss <= s <= Py.len data.
Proof.
  revert ss. induction fuel as [|fuel IH]; intros ss Hss Hle Hfuel.
  - simpl. destruct (Z.ltb_spec ss (Py.len data)); [lia|].
    exists ss. split; [reflexivity | lia].
  - simpl. destruct (Z.ltb_spec ss (Py.len data)) as [Hlt|Hge].
    + destruct (index_total data ss) as (c & Hc & _); [lia|].
      rewrite Hc. simpl. case_bool_decide.
      * destruct (IH (ss + 1)) as (s & Hs & Hr); [lia..|].
        exists s. split; [assumption | lia].
      * exists ss. split; [reflexivity | lia].
    + exists ss. split; [reflexivity | lia].
Qed.


Lemma find_section_end_spec ss :
  0 <= ss -> ss <= Py.len data ->
  exists e, find_section_end null data (Some (Py.len data)) ss = Some e /\
    section_end_ok ss e.
Proof.
  intros Hss Hle. unfold find_section_end.
  destruct (Z.eqb_spec (Py.find (Py.slice data (Some ss) None) [null; null]) (-1))
    as [Heq|Hne].
  - exists (Py.len data). split; [reflexivity|]. split; [lia | left; reflexivity].
  - eexists. split; [reflexivity|].
    destruct (find_from_range 0 (Py.slice data (Some ss) None) [null; null] _ eq_refl Hne)
      as (H1 & H2 & _); [lia|].
    fold (Py.find (Py.slice data (Some ss) None) [null; null]) in H1, H2.
    change (Py.len [null; null]) with 2 in H2.
    destruct (slice_length_le data ss None Hss) as [Hlen|Hnil].
    + split; [lia|]. right. lia.
    + rewrite Hnil in H1, H2. change (Py.len []) with 0 in H2. lia.
Qed.

Lemma split_sections_S dsize fuel ss se results :
  split_sections null data dsize new_string (S fuel) ss se results =
  do results <- carve_section null data new_string (S (length data)) ss se results;
  if bool_decide (se = dsize) then Ret results
  else match se with
       | None => Raise TypeError
       | Some section_end =>
         do section_start <- skip_nulls null data dsize (length data) (section_end + 2);
         split_sections null data dsize new_string fuel section_start
           (find_section_end null data dsize section_start) results
       end.
Proof. reflexivity. Qed.

Lemma split_sections_total fuel ss e results :
  0 <= ss -> section_end_ok ss e -> Py.len data - ss < Z.of_nat fuel ->
  Forall Carved results ->
  exists res,
    split_sections null data (Some (Py.len data)) new_string fuel ss (Some e) results
      = Ret res /\ Forall Carved res.
Proof.
  revert ss e results.
  induction fuel as [|fuel IH]; intros ss e results Hss [Hse He] Hfuel Hres; [lia|].
  rewrite split_sections_S.
  destruct (carve_section_total (S (length data)) ss e results)
    as (res & Hc & Hres'); [unfold Py.len in *; lia..|assumption|].
  rewrite Hc. cbn [obind]. case_bool_decide as Hend.
  - exists res. split; [reflexivity | assumption].
  - assert (e + 2 <= Py.len data) by (destruct He; [congruence | assumption]).
    destruct (skip_nulls_spec (length data) (e + 2)) as (s & Hs & Hr);
      [unfold Py.len in *; lia..|].
    rewrite Hs. cbn [obind].
    destruct (find_section_end_spec s) as (e' & He' & Hok); [lia..|].
    rewrite He'. apply IH; [lia | assumption | lia | assumption].
Qed.

Lemma split_loops_total :
  exists res,
    split_loops null data (Some (Py.len data)) new_string = Ret res /\
    Forall Carved res.
Proof.
  unfold split_loops.
  pose proof (len_nonneg data) as Hlen.
  destruct (Z.eqb_spec (Py.find data [null; null]) (-1)) as [Heq|Hne].
  - apply split_sections_total; [lia | split; [lia | left; reflexivity] |
      unfold Py.len; lia | constructor].
  - destruct (find_from_range 0 data [null; null] _ eq_refl Hne) as (H1 & H2 & _); [lia|].
    fold (Py.find data [null; null]) in H1, H2.
    change (Py.len [null; null]) with 2 in H2.
    apply split_sections_total; [lia | | unfold Py.len; lia | constructor].
    split; [lia|]. right. lia.
Qed.

End SplitterFacts.

(** ** Buffers of null-terminated single-byte strings

    The buffer [join strs] holds the strings of [strs], each followed by
    one null.  When every string has at least two characters and the first
    at least three, the loops carve exactly these strings, from right to
    left. *)

Section NullTerminated.
Context {A R : Type} `{EqDecision A}.
Variable null : A.
Variable new_string : list A -> Z -> R.

Local Abbreviation join := (join null).
Local Abbreviation pieces_from := (pieces_from null new_string).
Local Abbreviation plain := (plain null).
Implicit Types (strs pre : list (list A)) (s t : list A).

Lemma join_app strs1 strs2 : join (strs1 ++ strs2) = join strs1 ++ join strs2.
Proof. unfold join. rewrite map_app, concat_app. reflexivity. Qed.

Lemma join_snoc strs s : join (strs ++ [s]) = join strs ++ s ++ [null].
Proof. rewrite join_app. unfold join. simpl. rewrite app_nil_r. reflexivity. Qed.

Lemma join_cons s strs : join (s :: strs) = s ++ null :: join strs.
Proof. unfold join. simpl. rewrite <- app_assoc. reflexivity. Qed.

Lemma len_join_cons s strs :
  Py.len (join (s :: strs)) = Py.len s + 1 + Py.len (join strs).
Proof. rewrite join_cons, len_app, len_cons. lia. Qed.

Lemma pieces_from_snoc o strs s :
  pieces_from o (strs ++ [s]) =
  pieces_from o strs ++ [new_string (s ++ [null]) (o + Py.len (join strs))].
Proof.
  revert o. induction strs as [|t strs IH]; intros o; simpl.
  - change (Py.len []) with 0. rewrite Z.add_0_r. reflexivity.
  - rewrite IH, len_join_cons.
    replace (o + Py.len t + 1 + Py.len (join strs))
      with (o + (Py.len t + 1 + Py.len (join strs))) by lia.
    reflexivity.
Qed.

Lemma long_head_snoc strs s : long_head (strs ++ [s]) -> long_head strs.
Proof. destruct strs; simpl; auto. Qed.

Lemma join_snoc_long strs s :
  Forall plain (strs ++ [s]) -> long_head (strs ++ [s]) ->
  3 <= Py.len (join strs ++ s).
Proof.
  intros Hp Hh. rewrite len_app. pose proof (len_nonneg s).
  destruct strs as [|t strs]; simpl in *.
  - change (Py.len []) with 0. unfold Py.len. lia.
  - rewrite len_join_cons. pose proof (len_nonneg (join strs)).
    unfold Py.len in *. lia.
Qed.

(** The character two places before the end of [Q ++ t] belongs to [t]. *)
Lemma lookup_penultimate (Q t : list A) :
  (2 <= length t)%nat ->
  exists c, (Q ++ t) !! (length (Q ++ t) - 2)%nat = Some c /\ c ∈ t.
Proof.
  intros Ht. destruct (lookup_lt_is_Some_2 t (length t - 2)) as [c Hc]; [lia|].
  exists c. split; [|eapply list_elem_of_lookup_2; eassumption].
  rewrite lookup_app_r by (rewrite length_app; lia).
  rewrite length_app. replace (length Q + length t - 2 - length Q)%nat
    with (length t - 2)%nat by lia. assumption.
Qed.

Section Buffer.
Variable data : list A.

Lemma carve_section_S fuel ss se (results : list R) :
  carve_section null data new_string (S fuel) ss se results =
  do string_start <- next_string_start null data (length data) ss se;
  let new_decoded_string := Py.slice data (Some string_start) se in
  let results :=
    if bool_decide (new_decoded_string = []) then results
    else results ++ [new_string (new_decoded_string ++ [null]) string_start] in
  if string_start =? ss then Ret results
  else carve_section null data new_string fuel ss (Some (string_start - 1)) results.
Proof. reflexivity. Qed.

Lemma step_back_one fuel ss p c :
  0 <= ss -> ss <= p - 2 ->
  data !! Z.to_nat p = Some null -> data !! Z.to_nat (p - 2) = Some c -> c <> null ->
  step_back null data (S fuel) ss p = Ret (p - 2).
Proof.
  intros Hss Hp Hnull Hc Hne. simpl.
  destruct (Z.ltb_spec p ss); [lia|].
  rewrite (index_in_range _ _ _ Hnull) by lia. simpl.
  rewrite bool_decide_true by reflexivity.
  assert (Hstop : forall f, step_back null data f ss (p - 2) = Ret (p - 2)).
  { intros f. destruct f; simpl; (destruct (Z.ltb_spec (p - 2) ss); [lia|]);
      rewrite (index_in_range _ _ _ Hc) by lia; simpl;
      rewrite bool_decide_false by assumption; reflexivity. }
  apply Hstop.
Qed.

(** The start of the string that ends at the null following [P], when the
    string before it has at least two characters. *)
Lemma next_string_start_after P s tail c :
  data = P ++ null :: s ++ tail -> null ∉ s ->
  3 <= Py.len P -> data !! (length P - 2)%nat = Some c -> c <> null ->
  next_string_start null data (length data) 0 (Some (Py.len (P ++ null :: s)))
    = Ret (Py.len P + 1).
Proof.
  intros Hdata Hs HP Hc Hne. unfold next_string_start.
  assert (Hsl : Py.slice data (Some 0) (Some (Py.len (P ++ null :: s))) = P ++ null :: s).
  { rewrite Hdata.
    replace (P ++ null :: s ++ tail) with ((P ++ null :: s) ++ tail)
      by (rewrite <- app_assoc; reflexivity).
    apply slice_prefix. }
  rewrite Hsl, rfind_last by assumption.
  destruct (Z.eqb_spec (Py.len P) (-1)); [lia|].
  rewrite Z.add_0_r.
  destruct (length data) as [|fuel] eqn:Hfuel.
  { rewrite Hdata, length_app in Hfuel. simpl in Hfuel. lia. }
  rewrite (step_back_one fuel 0 (Py.len P) c); try lia; try assumption.
  - simpl. destruct (Z.gtb_spec (Py.len P - 2) 0); [|lia]. f_equal. lia.
  - unfold Py.len. rewrite Nat2Z.id. rewrite Hdata.
    rewrite lookup_app_r by lia. rewrite Nat.sub_diag. reflexivity.
  - unfold Py.len in *. replace (Z.to_nat (Z.of_nat (length P) - 2)) with (length P - 2)%nat by lia.
    assumption.
Qed.

Lemma next_string_start_first s tail :
  data = s ++ tail -> null ∉ s ->
  next_string_start null data (length data) 0 (Some (Py.len s)) = Ret 0.
Proof.
  intros Hdata Hs. unfold next_string_start.
  rewrite Hdata at 1. rewrite slice_prefix, rfind_absent by assumption.
  reflexivity.
Qed.

Lemma carve_plain_strings pre : forall s tail fuel (results : list R),
  Forall plain pre -> long_head pre -> null ∉ s -> s <> [] ->
  data = join pre ++ s ++ tail -> (length pre < fuel)%nat ->
  carve_section null data new_string fuel 0 (Some (Py.len (join pre ++ s))) results =
  Ret (results ++ new_string (s ++ [null]) (Py.len (join pre)) :: rev (pieces_from 0 pre)).
Proof.
  induction pre as [|t pre IH] using rev_ind;
    intros s tail fuel results Hpl Hlh Hs Hne Hdata Hfuel.
  - destruct fuel as [|fuel]; [simpl in Hfuel; lia|].
    change (join [] ++ s) with s.
    change (join [] ++ s ++ tail) with (s ++ tail) in Hdata.
    rewrite carve_section_S, (next_string_start_first s tail) by assumption.
    cbn [obind]. cbv zeta.
    replace (Py.slice data (Some 0) (Some (Py.len s))) with s
      by (rewrite Hdata, slice_prefix; reflexivity).
    rewrite bool_decide_false by assumption. reflexivity.
  - destruct fuel as [|fuel]; [simpl in Hfuel; lia|].
    rewrite length_app in Hfuel. simpl in Hfuel.
    apply Forall_app in Hpl as Hpl'. destruct Hpl' as [Hpre Ht].
    apply Forall_singleton in Ht as [Htn Ht2].
    pose proof (join_snoc_long pre t Hpl Hlh) as Hlong.
    destruct (lookup_penultimate (join pre) t Ht2) as (c & Hc & Hin).
    assert (Hcn : c <> null) by (intros ->; contradiction).
    assert (Hdata' : data = (join pre ++ t) ++ null :: s ++ tail).
    { rewrite Hdata, join_snoc. rewrite <- !app_assoc. reflexivity. }
    assert (Hend : join (pre ++ [t]) ++ s = (join pre ++ t) ++ null :: s).
    { rewrite join_snoc. rewrite <- !app_assoc. reflexivity. }
    rewrite carve_section_S. rewrite Hend.
    rewrite (next_string_start_after (join pre ++ t) s tail c); try assumption.
    2:{ rewrite Hdata'. rewrite lookup_app_l; [assumption|].
        unfold Py.len in Hlong. lia. }
    cbn [obind]. cbv zeta.
    assert (Hpiece : Py.slice data (Some (Py.len (join pre ++ t) + 1))
              (Some (Py.len ((join pre ++ t) ++ null :: s))) = s).
    { rewrite Hdata'.
      replace ((join pre ++ t) ++ null :: s ++ tail)
        with (((join pre ++ t) ++ [null]) ++ s ++ tail)
        by (rewrite <- !app_assoc; reflexivity).
      replace (Py.len (join pre ++ t) + 1)
        with (Py.len ((join pre ++ t) ++ [null]))
        by (rewrite (len_app _ [null]); reflexivity).
      replace (Py.len ((join pre ++ t) ++ null :: s))
        with (Py.len ((join pre ++ t) ++ [null]) + Py.len s)
        by (rewrite !len_app, !len_cons; change (Py.len (@nil A)) with 0; lia).
      apply slice_middle. }
    rewrite Hpiece. rewrite bool_decide_false by assumption.
    destruct (Z.eqb_spec (Py.len (join pre ++ t) + 1) 0); [lia|].
    replace (Py.len (join pre ++ t) + 1 - 1) with (Py.len (join pre ++ t)) by lia.
    rewrite (IH t (null :: s ++ tail) fuel); try assumption.
    + rewrite pieces_from_snoc, rev_app_distr. simpl.
      rewrite <- app_assoc. simpl. do 3 f_equal.
      rewrite join_snoc, !len_app. change (Py.len [null]) with 1.
      rewrite Z.add_assoc. reflexivity.
    + eapply long_head_snoc; eassumption.
    + intros ->. simpl in Ht2. lia.
    + rewrite Hdata'. rewrite <- app_assoc. reflexivity.
    + lia.
Qed.

End Buffer.
Lemma find_from_join i strs :
  Forall plain strs -> Py.find_from i (join strs) [null; null] = -1.
Proof.
  intros Hp. revert i. induction Hp as [|s strs [Hs Hlen] Hp IH]; intros i.
  - reflexivity.
  - rewrite join_cons.
    assert (Hhead : Py.startswith (join strs) [null] = false).
    { destruct Hp as [|t strs' [Ht Htl] _]; [reflexivity|].
      rewrite join_cons. destruct t as [|c t]; [simpl in Htl; lia|].
      apply not_elem_of_cons in Ht as [Hc _].
      simpl. rewrite bool_decide_false by congruence. reflexivity. }
    clear Hlen. revert i. induction s as [|c s IHs]; intros i.
    + cbn [app]. rewrite find_from_cons, startswith_cons, Hhead, andb_false_r.
      apply IH.
    + apply not_elem_of_cons in Hs as [Hc Hs].
      cbn [app]. rewrite find_from_cons, startswith_cons.
      rewrite bool_decide_false by congruence. apply IHs, Hs.
Qed.

Lemma length_join strs : Forall plain strs -> (length strs <= length (join strs))%nat.
Proof.
  induction 1 as [|s strs [_ Hlen] _ IH]; [simpl; lia|].
  rewrite join_cons, length_app. simpl. lia.
Qed.

(** The loops on a buffer of plain strings append the strings from the
    last to the first. *)
Lemma split_loops_plain strs :
  Forall plain strs -> long_head strs ->
  split_loops null (join strs) (Some (Py.len (join strs))) new_string =
  Ret (rev (pieces_from 0 strs)).
Proof.
  intros Hp Hh. unfold split_loops, Py.find.
  rewrite find_from_join by assumption. change (-1 =? -1) with true. cbv iota.
  rewrite split_sections_S.
  destruct strs as [|s pre _] using rev_ind; [reflexivity|].
  pose proof (join_snoc_long pre s Hp Hh) as Hlong.
  apply Forall_app in Hp as Hp'. destruct Hp' as [Hpre Hs].
  apply Forall_singleton in Hs as [Hsn Hs2].
  destruct (lookup_penultimate (join pre) s Hs2) as (c & Hc & Hin).
  assert (Hcn : c <> null) by (intros ->; contradiction).
  remember (join (pre ++ [s])) as data eqn:Hd.
  assert (Hdata : data = (join pre ++ s) ++ null :: [] ++ []).
  { rewrite Hd, join_snoc, <- app_assoc. reflexivity. }
  assert (Hlen : Py.len data = Py.len ((join pre ++ s) ++ null :: [])).
  { rewrite Hdata. reflexivity. }
  assert (Hlen' : Py.len data = Py.len (join pre ++ s) + 1).
  { rewrite Hdata, len_app. reflexivity. }
  rewrite carve_section_S. rewrite Hlen.
  rewrite (next_string_start_after _ (join pre ++ s) [] [] c Hdata);
    [|apply not_elem_of_nil|assumption| |assumption].
  2:{ rewrite Hdata. rewrite lookup_app_l; [assumption|]. unfold Py.len in Hlong. lia. }
  cbn [obind]. cbv zeta. rewrite <- Hlen.
  replace (Py.slice data (Some (Py.len (join pre ++ s) + 1)) (Some (Py.len data)))
    with (@nil A).
  2:{ symmetry. rewrite <- Hlen'. unfold Py.slice, Py.clamp.
      pose proof (len_nonneg data).
      destruct (Z.ltb_spec (Py.len data) 0); [lia|].
      rewrite Z.min_id, Z.sub_diag. reflexivity. }
  rewrite bool_decide_true by reflexivity.
  destruct (Z.eqb_spec (Py.len (join pre ++ s) + 1) 0); [lia|].
  replace (Py.len (join pre ++ s) + 1 - 1) with (Py.len (join pre ++ s)) by lia.
  rewrite (carve_plain_strings _ pre s [null]); try assumption.
  - cbn [obind]. rewrite bool_decide_true by reflexivity.
    rewrite pieces_from_snoc, rev_app_distr. reflexivity.
  - eapply long_head_snoc; eassumption.
  - intros ->. simpl in Hs2. lia.
  - rewrite Hd. apply join_snoc.
  - pose proof (length_join pre Hpre). rewrite Hd, join_snoc, !length_app.
    simpl. lia.
Qed.

End NullTerminated.

(** ** A section carved in the middle of a buffer

    The loops that carve a section read the buffer inside the section
    only: carving the section [[ss, e)] of [d] behind a prefix [front] is
    carving [[ss, e)] of [d], with the starts shifted by the length of
    [front]. *)

Section Shift.
Context {A R : Type} `{EqDecision A}.
Variable null : A.
Variable new_string : list A -> Z -> R.
Variable front d : list A.

Local Abbreviation L := (Py.len front).

Lemma slice_shift a b :
  0 <= a -> a <= b -> b <= Py.len d ->
  Py.slice (front ++ d) (Some (L + a)) (Some (L + b)) = Py.slice d (Some a) (Some b).
Proof.
  intros Ha Hab Hb. pose proof (len_nonneg front).
  rewrite !slice_in_range by (rewrite ?len_app; lia).
  replace (L + b - (L + a)) with (b - a) by lia.
  f_equal. replace (Z.to_nat (L + a)) with (length front + Z.to_nat a)%nat
    by (unfold Py.len; lia).
  apply drop_app_add.
Qed.

Lemma index_shift p : 0 <= p -> Py.index (front ++ d) (L + p) = Py.index d p.
Proof.
  intros Hp. pose proof (len_nonneg front). unfold Py.index.
  destruct (Z.ltb_spec (L + p) 0); [lia|]. destruct (Z.ltb_spec p 0); [lia|].
  destruct (Z.ltb_spec (L + p) 0); [lia|]. destruct (Z.ltb_spec p 0); [lia|].
  replace (Z.to_nat (L + p)) with (length front + Z.to_nat p)%nat by (unfold Py.len; lia).
  rewrite lookup_app_r by lia.
  replace (length front + Z.to_nat p - length front)%nat with (Z.to_nat p) by lia.
  reflexivity.
Qed.

Lemma step_back_shift ss : forall f1 f2 p,
  0 <= ss -> p - ss < 2 * Z.of_nat f1 -> p - ss < 2 * Z.of_nat f2 ->
  step_back null (front ++ d) f1 (L + ss) (L + p) =
  do r <- step_back null d f2 ss p; Ret (L + r).
Proof.
  induction f1 as [|f1 IH]; intros f2 p Hss H1 H2.
  - destruct f2; simpl; (destruct (Z.ltb_spec (L + p) (L + ss)); [|lia]);
      (destruct (Z.ltb_spec p ss); [|lia]); reflexivity.
  - destruct f2 as [|f2].
    + simpl. destruct (Z.ltb_spec (L + p) (L + ss)); [|lia].
      destruct (Z.ltb_spec p ss); [|lia]. reflexivity.
    + simpl. destruct (Z.ltb_spec (L + p) (L + ss)), (Z.ltb_spec p ss); try lia;
        [reflexivity|].
      rewrite index_shift by lia.
      destruct (Py.index d p) as [c| |]; simpl; try reflexivity.
      case_bool_decide; [|reflexivity].
      replace (L + p - 2) with (L + (p - 2)) by lia.
      apply IH; lia.
Qed.

Lemma rfind_single_range (l : list A) c :
  Py.rfind l [c] = -1 \/ (0 <= Py.rfind l [c] < Py.len l).
Proof.
  destruct (last_occurrence l c) as [Habs | (l1 & l2 & -> & Habs)].
  - left. apply rfind_absent, Habs.
  - right. rewrite rfind_last by assumption. rewrite len_app, len_cons.
    pose proof (len_nonneg l1). pose proof (len_nonneg l2). lia.
Qed.

Lemma next_string_start_shift ss e :
  0 <= ss -> ss <= e -> e <= Py.len d ->
  next_string_start null (front ++ d) (length (front ++ d)) (L + ss) (Some (L + e)) =
  do r <- next_string_start null d (length d) ss (Some e); Ret (L + r).
Proof.
  intros Hss Hse He. unfold next_string_start.
  rewrite slice_shift by lia.
  destruct (rfind_single_range (Py.slice d (Some ss) (Some e)) null) as [Hr|Hr].
  - rewrite Hr. reflexivity.
  - destruct (Z.eqb_spec (Py.rfind (Py.slice d (Some ss) (Some e)) [null]) (-1)); [lia|].
    assert (Hlen : Py.len (Py.slice d (Some ss) (Some e)) <= Py.len d - ss).
    { destruct (slice_length_le d ss (Some e) Hss) as [Hle|Hnil]; [exact Hle|].
      rewrite Hnil in Hr. change (Py.len (@nil A)) with 0 in Hr. lia. }
    set (r0 := Py.rfind (Py.slice d (Some ss) (Some e)) [null]) in *.
    replace (r0 + (L + ss)) with (L + (r0 + ss)) by lia.
    rewrite (step_back_shift ss (length (front ++ d)) (length d) (r0 + ss))
      by (rewrite ?length_app; unfold Py.len in *; lia).
    destruct (step_back null d (length d) ss (r0 + ss)) as [s| |]; simpl; try reflexivity.
    destruct (Z.gtb_spec (L + s) (L + ss)), (Z.gtb_spec s ss); try lia.
    + apply (f_equal Ret). lia.
    + destruct (Z.ltb_spec (L + s) (L + ss)), (Z.ltb_spec s ss); try lia; reflexivity.
Qed.

Lemma carve_section_shift ss : forall fuel e results,
  0 <= ss -> ss <= e -> e <= Py.len d ->
  carve_section null (front ++ d) new_string fuel (L + ss) (Some (L + e)) results =
  carve_section null d (fun piece o => new_string piece (L + o)) fuel ss (Some e) results.
Proof.
  induction fuel as [|fuel IH]; intros e results Hss Hse He; [reflexivity|].
  rewrite !carve_section_S.
  rewrite next_string_start_shift by lia.
  destruct (next_string_start_spec null d ss e) as (s & Hs & Hrange); [lia..|].
  rewrite Hs. cbn [obind]. cbv zeta.
  rewrite slice_shift by lia.
  destruct (Z.eqb_spec (L + s) (L + ss)), (Z.eqb_spec s ss); try lia; [reflexivity|].
  replace (L + s - 1) with (L + (s - 1)) by lia.
  apply IH; lia.
Qed.

Lemma pieces_from_shift o (strs : list (list A)) :
  pieces_from null (fun piece o => new_string piece (L + o)) o strs =
  pieces_from null new_string (L + o) strs.
Proof.
  revert o. induction strs as [|s strs IH]; intros o; simpl; [reflexivity|].
  rewrite IH. do 2 f_equal. lia.
Qed.

End Shift.

(** ** Buffers of several groups of strings *)

Section GroupFacts.
Context {A R : Type} `{EqDecision A}.
Variable null : A.

Local Abbreviation join := (join null).
Local Abbreviation plain := (plain null).
Local Abbreviation layout := (layout null).
Local Abbreviation group := (group null).
Implicit Types (g strs pre last : list (list A)) (groups : list (list (list A))).

Lemma plain_head s : plain s -> exists c tl, s = c :: tl /\ c <> null.
Proof.
  intros [Hn Hlen]. destruct s as [|c tl]; [simpl in Hlen; lia|].
  exists c, tl. split; [reflexivity|]. intros ->. apply Hn. left.
Qed.

Lemma join_head strs :
  Forall plain strs -> strs = [] \/ exists c tl, join strs = c :: tl /\ c <> null.
Proof.
  destruct 1 as [|s strs Hs _]; [left; reflexivity|]. right.
  destruct (plain_head s Hs) as (c & tl & -> & Hc).
  rewrite join_cons. exists c. eexists. split; [reflexivity | exact Hc].
Qed.

(** The first double null of a group that is followed by a null is the
    terminator of its last string. *)
Lemma find_from_group g :
  Forall plain g -> g <> [] -> forall i rest,
  Py.find_from i (join g ++ null :: rest) [null; null] = i + Py.len (join g) - 1.
Proof.
  induction 1 as [|s g Hs Hg IH]; intros Hne i rest; [contradiction|].
  destruct Hs as [Hs _].
  rewrite len_join_cons, join_cons, <- app_assoc. cbn [app].
  assert (Hnull : Py.find_from (i + Py.len s) (null :: join g ++ null :: rest) [null; null]
            = i + Py.len s + Py.len (join g)).
  { rewrite find_from_cons, startswith_cons, bool_decide_true by reflexivity.
    cbn [andb].
    destruct g as [|t g'].
    - change (join []) with (@nil A). cbn [app].
      rewrite startswith_single, bool_decide_true by reflexivity.
      change (Py.len (@nil A)) with 0. lia.
    - assert (Hhead : Py.startswith (join (t :: g') ++ null :: rest) [null] = false).
      { destruct (join_head (t :: g') Hg) as [Hnil | (c & tl & Hj & Hc)]; [discriminate|].
        rewrite Hj. cbn. rewrite bool_decide_false by exact Hc. reflexivity. }
      rewrite Hhead. rewrite IH by discriminate. lia. }
  clear IH Hne. revert i Hnull. induction s as [|c s IHs]; intros i Hnull.
  - change (Py.len []) with 0 in *. cbn [app]. rewrite Z.add_0_r in Hnull.
    rewrite Hnull. lia.
  - apply not_elem_of_cons in Hs as [Hc Hs].
    cbn [app]. rewrite find_from_cons, startswith_cons.
    rewrite bool_decide_false by congruence. cbn [andb].
    rewrite (IHs Hs (i + 1)); [rewrite len_cons; lia|].
    rewrite len_cons in Hnull.
    replace (i + 1 + Py.len s) with (i + (1 + Py.len s)) by lia. exact Hnull.
Qed.

Lemma slice_from (front rest : list A) :
  Py.slice (front ++ rest) (Some (Py.len front)) None = rest.
Proof.
  unfold Py.slice, Py.clamp. pose proof (len_nonneg front).
  destruct (Z.ltb_spec (Py.len front) 0); [lia|].
  rewrite len_app, Z.min_l by (pose proof (len_nonneg rest); lia).
  unfold Py.len. rewrite Nat2Z.id, drop_app_length.
  apply take_ge. lia.
Qed.

Lemma find_section_end_group dsize front g rest :
  Forall plain g -> g <> [] ->
  find_section_end null (front ++ join g ++ null :: rest) dsize (Py.len front)
    = Some (Py.len front + Py.len (join g) - 1).
Proof.
  intros Hg Hne. unfold find_section_end. rewrite slice_from.
  unfold Py.find. rewrite find_from_group by assumption.
  assert (1 <= Py.len (join g)).
  { destruct g as [|s g']; [contradiction|]. rewrite len_join_cons.
    pose proof (len_nonneg s). pose proof (len_nonneg (join g')). lia. }
  destruct (Z.eqb_spec (0 + Py.len (join g) - 1) (-1)); [lia|].
  f_equal. lia.
Qed.

Lemma find_section_end_last dsize front last :
  Forall plain last ->
  find_section_end null (front ++ join last) dsize (Py.len front) = dsize.
Proof.
  intros Hl. unfold find_section_end. rewrite slice_from.
  unfold Py.find. rewrite (find_from_join null) by assumption. reflexivity.
Qed.

Lemma skip_nulls_stay (data : list A) dsize fuel ss :
  int_lt_attr ss dsize = false \/ (exists c, Py.index data ss = Ret c /\ c <> null) ->
  skip_nulls null data dsize fuel ss = Ret ss.
Proof.
  intros Hstay. destruct fuel; simpl;
    (destruct (int_lt_attr ss dsize); [|reflexivity]);
    (destruct Hstay as [Hlt | (c & Hc & Hn)]; [discriminate|]);
    rewrite Hc; simpl; rewrite bool_decide_false by exact Hn; reflexivity.
Qed.

Lemma layout_cons g groups last :
  layout (g :: groups) last = join g ++ null :: layout groups last.
Proof. unfold layout. cbn [map concat]. rewrite <- !app_assoc. reflexivity. Qed.

Lemma layout_head groups last :
  Forall group groups -> Forall plain last ->
  layout groups last = [] \/ exists c tl, layout groups last = c :: tl /\ c <> null.
Proof.
  intros Hg Hl. destruct Hg as [|g groups (Hne & Hp & _) _].
  - unfold layout. cbn [map concat app].
    destruct (join_head last Hl) as [-> | Hh]; [left; reflexivity | right; exact Hh].
  - right. rewrite layout_cons.
    destruct (join_head g Hp) as [-> | (c & tl & -> & Hc)]; [contradiction|].
    exists c. eexists. split; [reflexivity | exact Hc].
Qed.

Lemma length_layout groups last :
  Forall group groups -> (length groups <= length (layout groups last))%nat.
Proof.
  induction 1 as [|g groups _ _ IH]; [simpl; lia|].
  rewrite layout_cons, length_app. simpl. lia.
Qed.

Lemma carve_section_app (new_string : list A -> Z -> R) (data : list A) ss :
  forall fuel e (results : list R),
  carve_section null data new_string fuel ss e results =
  do r <- carve_section null data new_string fuel ss e []; Ret (results ++ r).
Proof.
  induction fuel as [|fuel IH]; intros e results; [reflexivity|].
  rewrite !carve_section_S.
  destruct (next_string_start null data (length data) ss e) as [s| |];
    cbn [obind]; try reflexivity.
  cbv zeta. destruct (s =? ss).
  - cbn [obind]. case_bool_decide; [rewrite app_nil_r|]; reflexivity.
  - rewrite IH. rewrite (IH _ (if bool_decide _ then [] else _)).
    destruct (carve_section null data new_string fuel ss (Some (s - 1)) []) as [r| |];
      cbn [obind]; try reflexivity.
    case_bool_decide; [reflexivity|]. rewrite <- app_assoc. reflexivity.
Qed.

Lemma carve_section_mono (new_string : list A -> Z -> R) (data : list A) ss :
  forall fuel fuel' e (results r : list R),
  carve_section null data new_string fuel ss e results = Ret r ->
  (fuel <= fuel')%nat ->
  carve_section null data new_string fuel' ss e results = Ret r.
Proof.
  induction fuel as [|fuel IH]; intros fuel' e results r Hrun Hle; [discriminate|].
  destruct fuel' as [|fuel']; [lia|].
  rewrite carve_section_S in Hrun |- *.
  destruct (next_string_start null data (length data) ss e) as [s| |];
    cbn [obind] in Hrun |- *; try discriminate.
  cbv zeta in Hrun |- *. destruct (s =? ss); [exact Hrun|].
  eapply IH; [exact Hrun | lia].
Qed.

Lemma carve_plain_all (new_string : list A -> Z -> R) strs :
  Forall plain strs -> long_head strs ->
  carve_section null (join strs) new_string (S (length (join strs))) 0
    (Some (Py.len (join strs))) [] = Ret (rev (pieces_from null new_string 0 strs)).
Proof.
  intros Hp Hh. pose proof (split_loops_plain null new_string strs Hp Hh) as Hrun.
  unfold split_loops, Py.find in Hrun. rewrite (find_from_join null) in Hrun by assumption.
  change (-1 =? -1) with true in Hrun. cbv iota in Hrun.
  rewrite split_sections_S in Hrun.
  destruct (carve_section null (join strs) new_string (S (length (join strs))) 0
              (Some (Py.len (join strs))) []) as [r| |]; cbn [obind] in Hrun;
    try discriminate.
  rewrite bool_decide_true in Hrun by reflexivity. exact Hrun.
Qed.

Section Carving.
Variable new_string : list A -> Z -> R.

Local Abbreviation pieces_from := (pieces_from null new_string).
Local Abbreviation carving_order := (carving_order null new_string).

(** The section of a group, anywhere in the buffer. *)
Lemma carve_group front g rest fuel (results : list R) :
  group g -> (length g < fuel)%nat ->
  carve_section null (front ++ join g ++ null :: rest) new_string fuel
    (Py.len front) (Some (Py.len front + Py.len (join g) - 1)) results =
  Ret (results ++ rev (pieces_from (Py.len front) g)).
Proof.
  intros (Hne & Hp & Hlong) Hfuel.
  destruct g as [|s pre _] using rev_ind; [contradiction|]. clear Hne.
  apply Forall_app in Hp as [Hpre Hs]. apply Forall_inv in Hs as [Hsn Hs2].
  assert (Hlh : long_head pre).
  { destruct Hlong as [Hone|Hlh].
    - rewrite length_app in Hone. simpl in Hone. destruct pre; [exact I | simpl in Hone; lia].
    - eapply long_head_snoc. exact Hlh. }
  assert (Hsne : s <> []) by (intros ->; simpl in Hs2; lia).
  rewrite length_app in Hfuel. simpl in Hfuel.
  pose proof (len_nonneg (join pre)) as Hj. pose proof (len_nonneg s) as Hls.
  assert (Hend : Py.len (join (pre ++ [s])) - 1 = Py.len (join pre ++ s)).
  { rewrite join_snoc, !len_app. change (Py.len [null]) with 1. lia. }
  replace (Py.len front + Py.len (join (pre ++ [s])) - 1)
    with (Py.len front + Py.len (join pre ++ s)) by lia.
  replace (front ++ join (pre ++ [s]) ++ null :: rest)
    with (front ++ (join pre ++ s ++ null :: null :: rest))
    by (rewrite join_snoc, <- !app_assoc; reflexivity).
  rewrite <- (Z.add_0_r (Py.len front)) at 1.
  rewrite carve_section_shift;
    [|lia | rewrite len_app; lia | rewrite !len_app; pose proof (len_nonneg (null :: null :: rest)); lia].
  rewrite (carve_plain_strings null _ (join pre ++ s ++ null :: null :: rest) pre s
             (null :: null :: rest) fuel results Hpre Hlh Hsn Hsne eq_refl) by lia.
  rewrite pieces_from_shift, pieces_from_snoc, rev_app_distr, Z.add_0_r. reflexivity.
Qed.

(** The section of the strings that end the buffer. *)
Lemma carve_last front last (results : list R) :
  Forall plain last -> long_head last ->
  carve_section null (front ++ join last) new_string (S (length (front ++ join last)))
    (Py.len front) (Some (Py.len (front ++ join last))) results =
  Ret (results ++ rev (pieces_from (Py.len front) last)).
Proof.
  intros Hp Hh. pose proof (len_nonneg (join last)) as Hj.
  rewrite len_app. rewrite <- (Z.add_0_r (Py.len front)) at 1.
  rewrite carve_section_shift by lia.
  rewrite carve_section_app.
  rewrite (carve_section_mono _ _ 0 (S (length (join last))) _ _ _ _
             (carve_plain_all _ last Hp Hh)) by (rewrite length_app; lia).
  cbn [obind]. rewrite pieces_from_shift, Z.add_0_r. reflexivity.
Qed.

(** The outer loop, entered at the start of a group: the groups are
    carved one after the other. *)
Lemma split_sections_groups (data : list A) last :
  Forall plain last -> long_head last ->
  forall groups front fuel (results : list R),
    Forall group groups ->
    data = front ++ layout groups last ->
    (length groups < fuel)%nat ->
    split_sections null data (Some (Py.len data)) new_string fuel (Py.len front)
      (find_section_end null data (Some (Py.len data)) (Py.len front)) results =
    Ret (results ++ carving_order (Py.len front) groups last).
Proof.
  intros Hlast Hlh.
  induction groups as [|g groups IH]; intros front fuel results Hg Hdata Hfuel.
  - destruct fuel as [|fuel]; [simpl in Hfuel; lia|].
    unfold layout in Hdata. cbn [map concat app] in Hdata. subst data.
    rewrite find_section_end_last by assumption.
    rewrite split_sections_S, carve_last by assumption.
    cbn [obind]. rewrite bool_decide_true by reflexivity. reflexivity.
  - destruct fuel as [|fuel]; [simpl in Hfuel; lia|]. simpl in Hfuel.
    apply Forall_cons in Hg as [Hgrp Hg].
    pose proof Hgrp as (Hne & Hp & _).
    rewrite layout_cons in Hdata.
    assert (Hend : find_section_end null data (Some (Py.len data)) (Py.len front)
              = Some (Py.len front + Py.len (join g) - 1)).
    { rewrite Hdata. apply find_section_end_group; assumption. }
    rewrite Hend, split_sections_S.
    assert (Hcarve : carve_section null data new_string (S (length data)) (Py.len front)
              (Some (Py.len front + Py.len (join g) - 1)) results
            = Ret (results ++ rev (pieces_from (Py.len front) g))).
    { rewrite Hdata. apply carve_group; [exact Hgrp|].
      pose proof (length_join null g Hp). rewrite !length_app. lia. }
    rewrite Hcarve. cbn [obind].
    assert (Hlen : Py.len data
              = Py.len front + Py.len (join g) + 1 + Py.len (layout groups last)).
    { rewrite Hdata, !len_app, len_cons. lia. }
    pose proof (len_nonneg (layout groups last)) as Hrest.
    rewrite bool_decide_false by (intros [= Heq]; lia).
    set (front' := front ++ join g ++ [null]).
    assert (Hfront' : Py.len front' = Py.len front + Py.len (join g) - 1 + 2).
    { unfold front'. rewrite !len_app. change (Py.len [null]) with 1. lia. }
    assert (Hdata' : data = front' ++ layout groups last).
    { rewrite Hdata. unfold front'. rewrite <- !app_assoc. reflexivity. }
    rewrite <- Hfront'.
    rewrite skip_nulls_stay.
    2:{ destruct (layout_head groups last Hg Hlast) as [Hnil | (c & tl & Hcons & Hc)].
        - left. simpl. apply Z.ltb_ge. rewrite Hlen, Hnil, Hfront'.
          change (Py.len (@nil A)) with 0. lia.
        - right. exists c. split; [|exact Hc].
          rewrite Hdata', Hcons. rewrite <- (Z.add_0_r (Py.len front')).
          rewrite index_shift by lia. reflexivity. }
    cbn [obind].
    rewrite (IH front' fuel _ Hg Hdata') by lia.
    rewrite <- app_assoc. cbn [carving_order].
    rewrite Hfront'.
    replace (Py.len front + Py.len (join g) - 1 + 2)
      with (Py.len front + Py.len (join g) + 1) by lia.
    reflexivity.
Qed.

Lemma split_loops_groups groups last :
  Forall group groups -> Forall plain last -> long_head last ->
  split_loops null (layout groups last) (Some (Py.len (layout groups last))) new_string =
  Ret (carving_order 0 groups last).
Proof.
  intros Hg Hlast Hlh. unfold split_loops.
  set (data := layout groups last).
  pose proof (split_sections_groups data last Hlast Hlh groups [] (S (length data)) []
                Hg eq_refl) as Hrun.
  change (Py.len (@nil A)) with 0 in Hrun.
  assert (Hend : find_section_end null data (Some (Py.len data)) 0 =
            (if Py.find data [null; null] =? -1 then Some (Py.len data)
             else Some (Py.find data [null; null]))).
  { unfold find_section_end.
    replace (Py.slice data (Some 0) None) with data
      by (symmetry; apply (slice_from [] data)).
    rewrite Z.add_0_r. reflexivity. }
  rewrite Hend in Hrun. cbv zeta. rewrite Hrun; [reflexivity|].
  pose proof (length_layout groups last Hg). unfold data. lia.
Qed.

End Carving.

End GroupFacts.

(** ** Facts about the stable sort *)

Section SortFacts.
Context {A : Type}.
Variable key : A -> Z.

Local Abbreviation ascending := (ascending key).
Local Abbreviation increasing := (increasing key).

Lemma insert_by_perm x l : Py.insert_by key x l ≡ₚ x :: l.
Proof.
  induction l as [|y l IH]; simpl; [reflexivity|].
  destruct (key x <=? key y); [reflexivity|].
  rewrite IH. apply Permutation_swap.
Qed.

Lemma sort_by_perm l : Py.sort_by key l ≡ₚ l.
Proof.
  induction l as [|x l IH]; simpl; [reflexivity|].
  rewrite insert_by_perm. f_equiv. exact IH.
Qed.


Lemma ascending_cons x l :
  ascending (x :: l) <-> Forall (fun y => key x <= key y) l /\ ascending l.
Proof.
  split.
  - intros Ha. split.
    + apply Forall_lookup. intros i y Hy. apply (Ha 0%nat (S i) x y); [lia|reflexivity|exact Hy].
    + intros i j a b Hij Hi Hj. apply (Ha (S i) (S j) a b); [lia|exact Hi|exact Hj].
  - intros [Hx Ha] i j a b Hij Hi Hj.
    destruct i as [|i], j as [|j]; simpl in *.
    + injection Hi as <-. injection Hj as <-. lia.
    + injection Hi as <-. rewrite Forall_lookup in Hx. eapply Hx; eassumption.
    + lia.
    + apply (Ha i j); [lia|assumption..].
Qed.

Lemma insert_by_ascending x l : ascending l -> ascending (Py.insert_by key x l).
Proof.
  induction l as [|y l IH]; intros Ha; simpl.
  - apply ascending_cons. split; [constructor | intros [|?] [|?] ? ? ? ?; discriminate].
  - destruct (Z.leb_spec (key x) (key y)) as [Hle|Hgt].
    + apply ascending_cons. split; [|assumption].
      apply ascending_cons in Ha as [Hy _].
      constructor; [assumption|].
      eapply Forall_impl; [exact Hy|]. simpl. intros; lia.
    + apply ascending_cons in Ha as [Hy Ha].
      apply ascending_cons. split; [|apply IH, Ha].
      rewrite insert_by_perm. constructor; [lia | assumption].
Qed.

Lemma sort_by_ascending l : ascending (Py.sort_by key l).
Proof.
  induction l as [|x l IH]; simpl.
  - intros [|?] [|?] ? ? ? ?; discriminate.
  - apply insert_by_ascending, IH.
Qed.

Lemma insert_by_last x l :
  Forall (fun y => key y < key x) l -> Py.insert_by key x l = l ++ [x].
Proof.
  induction 1 as [|y l Hy _ IH]; simpl; [reflexivity|].
  destruct (Z.leb_spec (key x) (key y)); [lia|]. rewrite IH. reflexivity.
Qed.

Lemma insert_by_first x l :
  Forall (fun y => key x <= key y) l -> Py.insert_by key x l = x :: l.
Proof.
  destruct 1 as [|y l Hy _]; simpl; [reflexivity|].
  destruct (Z.leb_spec (key x) (key y)); [reflexivity | lia].
Qed.


Lemma increasing_snoc l x :
  increasing (l ++ [x]) -> Forall (fun y => key y < key x) l /\ increasing l.
Proof.
  induction l as [|y l IH]; simpl; [auto|].
  intros [Hy Hl]. apply Forall_app in Hy as [Hy Hx].
  apply Forall_inv in Hx. destruct (IH Hl) as [H1 H2].
  split; [constructor; [exact Hx | exact H1] | split; [exact Hy | exact H2]].
Qed.

(** Sorting the reversal of a strictly increasing list restores it. *)
Lemma sort_by_rev_increasing l : increasing l -> Py.sort_by key (rev l) = l.
Proof.
  induction l as [|x l IH] using rev_ind; intros Hl; [reflexivity|].
  apply increasing_snoc in Hl as [Hx Hl].
  rewrite rev_app_distr. simpl. rewrite (IH Hl). apply insert_by_last, Hx.
Qed.

(** A list with a single key is left as it is. *)
Lemma sort_by_constant l k : Forall (fun y => key y = k) l -> Py.sort_by key l = l.
Proof.
  induction 1 as [|x l Hx Hl IH]; simpl; [reflexivity|].
  rewrite IH. apply insert_by_first.
  eapply Forall_impl; [exact Hl|]. simpl. intros; lia.
Qed.

Lemma insert_by_middle x l1 l2 :
  Forall (fun y => key y < key x) l1 -> Forall (fun y => key x <= key y) l2 ->
  Py.insert_by key x (l1 ++ l2) = l1 ++ x :: l2.
Proof.
  intros H1 H2. induction H1 as [|y l1 Hy _ IH]; cbn [app].
  - apply insert_by_first, H2.
  - simpl. destruct (Z.leb_spec (key x) (key y)); [lia|]. rewrite IH. reflexivity.
Qed.

(** Sorting a reversed increasing run that precedes, in key, everything
    after it. *)
Lemma sort_by_rev_app l rest :
  increasing l -> (forall x y, x ∈ l -> y ∈ rest -> key x < key y) ->
  Py.sort_by key (rev l ++ rest) = l ++ Py.sort_by key rest.
Proof.
  induction l as [|x l IH] using rev_ind; intros Hl Hcross; [reflexivity|].
  apply increasing_snoc in Hl as [Hx Hl].
  rewrite rev_app_distr. cbn [rev app]. cbn [Py.sort_by foldr].
  fold (Py.sort_by key (rev l ++ rest)).
  rewrite IH; [|exact Hl|].
  2:{ intros a b Ha Hb. apply Hcross; [apply elem_of_app; left; exact Ha | exact Hb]. }
  rewrite insert_by_middle; [rewrite <- app_assoc; reflexivity | exact Hx |].
  apply Forall_forall. intros y Hy. rewrite sort_by_perm in Hy.
  assert (key x < key y); [|lia].
  apply Hcross; [apply elem_of_app; right; left | exact Hy].
Qed.

End SortFacts.

Lemma insert_by_Forall2 {A B} (R : A -> B -> Prop) (k1 : A -> Z) (k2 : B -> Z) x y l1 l2 :
  (forall a b, R a b -> k1 a = k2 b) -> R x y -> Forall2 R l1 l2 ->
  Forall2 R (Py.insert_by k1 x l1) (Py.insert_by k2 y l2).
Proof.
  intros Hk Hxy Hl. induction Hl as [|a b l1 l2 Hab Hl IH]; simpl.
  - constructor; [assumption | constructor].
  - rewrite (Hk x y Hxy), (Hk a b Hab).
    destruct (k2 y <=? k2 b); constructor; try assumption.
    constructor; assumption.
Qed.

Lemma sort_by_Forall2 {A B} (R : A -> B -> Prop) (k1 : A -> Z) (k2 : B -> Z) l1 l2 :
  (forall a b, R a b -> k1 a = k2 b) -> Forall2 R l1 l2 ->
  Forall2 R (Py.sort_by k1 l1) (Py.sort_by k2 l2).
Proof.
  intros Hk Hl. induction Hl as [|a b l1 l2 Hab Hl IH]; simpl; [constructor|].
  apply insert_by_Forall2; assumption.
Qed.

(** ** The store during [split_decoded_string] *)

Section StoreFacts.
Context `{IDA}.

Lemma with_heap_same (w : World) : with_heap (heap w) w = w.
Proof. destruct w. reflexivity. Qed.

Lemma alloc_all_spec l (w : World) :
  alloc_all l w = (Ret (seq (length (heap w)) (length l)), with_heap (heap w ++ l) w).
Proof.
  revert w. induction l as [|e l IH]; intros w.
  - simpl. unfold ret. rewrite app_nil_r, with_heap_same. reflexivity.
  - simpl. unfold bind at 1. unfold alloc at 1. unfold bind. rewrite IH.
    unfold ret. simpl. rewrite length_app, Nat.add_1_r, <- app_assoc. reflexivity.
Qed.

(** [define] changes the database and the log only, and never raises on
    an existing object. *)
Lemma define_frame r e (w : World) :
  heap w !! r = Some e ->
  exists w', define r w = (Ret tt, w') /\ heap w' = heap w.
Proof.
  intros Hr. unfold define, bind, deref. rewrite Hr.
  destruct (byte_length e) as [n| |].
  - destruct (MakeUnknown (entity_startEA e) n (db w)) as [[] d].
    + destruct (make_ascii_string (entity_startEA e) n (string_type e) d) as [[] d'];
        eexists; (split; [reflexivity|reflexivity]).
    + eexists; (split; [reflexivity|reflexivity]).
  - eexists; (split; [reflexivity|reflexivity]).
  - eexists; (split; [reflexivity|reflexivity]).
Qed.

Lemma define_all_frame rs (w : World) :
  Forall (fun r => is_Some (heap w !! r)) rs ->
  exists w', define_all rs w = (Ret tt, w') /\ heap w' = heap w.
Proof.
  revert w. induction rs as [|r rs IH]; intros w Hrs.
  - exists w. split; reflexivity.
  - apply Forall_cons in Hrs as [[e He] Hrs].
    destruct (define_frame r e w He) as (w1 & Hd & Hh).
    destruct (IH w1) as (w2 & Hd2 & Hh2); [rewrite Hh; assumption|].
    exists w2. simpl. unfold bind. rewrite Hd. split; [assumption | congruence].
Qed.

Lemma seq_lookup_app (h l : list EncodedString) :
  Forall2 (fun r e => (h ++ l) !! r = Some e) (seq (length h) (length l)) l.
Proof.
  revert h. induction l as [|e l IH]; intros h; simpl; [constructor|].
  constructor.
  - rewrite lookup_app_r by lia. rewrite Nat.sub_diag. reflexivity.
  - specialize (IH (h ++ [e])). rewrite length_app, Nat.add_1_r, <- app_assoc in IH.
    exact IH.
Qed.

(** What a call does once the loops have returned the copies. *)
Lemma split_decoded_string_run r identify (w : World) e copies :
  heap w !! r = Some e -> split_results e = Ret copies ->
  exists refs w',
    split_decoded_string r identify w = (Ret refs, w') /\
    heap w' = heap w ++ copies /\
    refs ≡ₚ seq (length (heap w)) (length copies) /\
    Forall2 (fun r e => heap w' !! r = Some e) refs (Py.sort_by entity_startEA copies).
Proof.
  intros Hr Hc. unfold split_decoded_string.
  unfold bind at 1. unfold deref. rewrite Hr.
  unfold bind at 1. unfold lift. rewrite Hc.
  unfold bind at 1. rewrite alloc_all_spec.
  unfold bind at 1. unfold sort_results at 1.
  set (w1 := with_heap (heap w ++ copies) w).
  set (refs := Py.sort_by _ _).
  assert (Hsorted : Forall2 (fun r e => heap w1 !! r = Some e) refs
            (Py.sort_by entity_startEA copies)).
  { apply sort_by_Forall2; [|apply seq_lookup_app].
    intros a b Hab. simpl in Hab |- *. rewrite Hab. reflexivity. }
  assert (Hperm : refs ≡ₚ seq (length (heap w)) (length copies)) by apply sort_by_perm.
  destruct identify.
  - destruct (define_all_frame refs w1) as (w2 & Hd & Hh).
    { eapply Forall2_Forall_l; [exact Hsorted|]. apply Forall_forall. intros; eauto. }
    exists refs, w2. unfold bind, ret. rewrite Hd.
    split; [reflexivity|]. split; [rewrite Hh; reflexivity|]. split; [assumption|].
    rewrite Hh. assumption.
  - exists refs, w1. split; [reflexivity|]. split; [reflexivity|]. split; assumption.
Qed.

End StoreFacts.

(** Whatever the size attribute, every item the loops append is built by
    [new_string]. *)
Section SplitterShape.
Context {A R : Type} `{EqDecision A}.
Variable null : A.
Variable data : list A.
Variable dsize : option Z.
Variable new_string : list A -> Z -> R.
Variable P : R -> Prop.
Hypothesis P_new : forall x s, P (new_string x s).

Lemma carve_section_shape fuel ss se results res :
  Forall P results ->
  carve_section null data new_string fuel ss se results = Ret res -> Forall P res.
Proof.
  revert se results. induction fuel as [|fuel IH]; intros se results Hres Hc;
    [discriminate|].
  rewrite carve_section_S in Hc.
  destruct (next_string_start null data (length data) ss se) as [s| |];
    try discriminate.
  cbn [obind] in Hc. cbv zeta in Hc.
  assert (Hres' : Forall P
    (if bool_decide (Py.slice data (Some s) se = []) then results
     else results ++ [new_string (Py.slice data (Some s) se ++ [null]) s])).
  { case_bool_decide; [assumption|].
    apply Forall_app. split; [assumption|]. apply Forall_singleton, P_new. }
  destruct (s =? ss).
  - injection Hc as <-. assumption.
  - eapply IH; eassumption.
Qed.

Lemma split_sections_shape fuel ss se results res :
  Forall P results ->
  split_sections null data dsize new_string fuel ss se results = Ret res -> Forall P res.
Proof.
  revert ss se results. induction fuel as [|fuel IH]; intros ss se results Hres Hc;
    [discriminate|].
  rewrite split_sections_S in Hc.
  destruct (carve_section null data new_string (S (length data)) ss se results)
    as [res1| |] eqn:Hc1; try discriminate.
  apply carve_section_shape in Hc1; [|assumption].
  cbn [obind] in Hc. case_bool_decide.
  - injection Hc as <-. assumption.
  - destruct se as [e|]; [|discriminate].
    destruct (skip_nulls null data dsize (length data) (e + 2)) as [s| |];
      try discriminate.
    cbn [obind] in Hc. eapply IH; eassumption.
Qed.

Lemma split_loops_shape res :
  split_loops null data dsize new_string = Ret res -> Forall P res.
Proof. apply split_sections_shape. constructor. Qed.

End SplitterShape.

(** ** The String Splitter on entities *)

Section SplitterClaims.
Context `{IDA}.

Lemma startEA_carved {A} (wrap : list A -> pyval) e piece o loc :
  string_location e = Some loc -> loc <> INVALID -> loc <> BADADDR -> 0 <= o ->
  entity_startEA (carved wrap e piece o) = loc + o.
Proof.
  intros Hloc Hi Hb Ho. unfold entity_startEA. simpl. rewrite Hloc.
  destruct (Z.eqb_spec loc INVALID); [contradiction|].
  destruct (Z.eqb_spec loc BADADDR); [contradiction|].
  simpl. unfold INVALID. destruct (Z.eqb_spec o (-1)); [lia | reflexivity].
Qed.

Lemma startEA_not_located e :
  ~ located e -> entity_startEA e = INVALID.
Proof.
  unfold located, entity_startEA. destruct (string_location e) as [loc|]; [|reflexivity].
  intros Hn. destruct (Z.eqb_spec loc INVALID); [reflexivity|].
  destruct (Z.eqb_spec loc BADADDR); [reflexivity|].
  exfalso. apply Hn. split; assumption.
Qed.

Lemma pieces_increasing e loc strs o :
  string_location e = Some loc -> loc <> INVALID -> loc <> BADADDR -> 0 <= o ->
  Forall (fun p => loc + o <= entity_startEA p) (pieces_from x00 (carved VStr e) o strs) /\
  increasing entity_startEA (pieces_from x00 (carved VStr e) o strs).
Proof.
  intros Hloc Hi Hb. revert o. induction strs as [|s strs IH]; intros o Ho; simpl.
  - split; [constructor | exact I].
  - pose proof (len_nonneg s) as Hs.
    destruct (IH (o + Py.len s + 1)) as [Hge Hinc]; [lia|].
    pose proof (startEA_carved VStr e (s ++ [x00]) o loc Hloc Hi Hb Ho) as Hk.
    split; [|split; [|assumption]].
    + constructor; [lia|]. eapply Forall_impl; [exact Hge|]. simpl. intros; lia.
    + rewrite Hk. eapply Forall_impl; [exact Hge|]. simpl. intros; lia.
Qed.

Lemma pieces_decoded_data e strs o :
  map decoded_data (pieces_from x00 (carved VStr e) o strs) =
  map (fun s => VStr (s ++ [x00])) strs.
Proof.
  revert o. induction strs as [|s strs IH]; intros o; simpl; [reflexivity|].
  rewrite IH. reflexivity.
Qed.

(** C1, as the code has it.  A buffer of null-terminated single-byte
    strings, each of at least two bytes and the first of at least three,
    is split into exactly these strings: the entities returned are, up to
    order, one copy per string, holding the string and its terminator and
    the start of the string as [offset]; they come in the order of the
    buffer when the entity has a start address. *)
Theorem split_plain_strings_round_trip (w : World) r e strs identify :
  heap w !! r = Some e ->
  decoded_data e = VStr (join x00 strs) ->
  size e = Some (Py.len (join x00 strs)) ->
  Forall (plain x00) strs -> long_head strs ->
  exists refs w' ents,
    split_decoded_string r identify w = (Ret refs, w') /\
    NoDup refs /\
    Forall2 (fun r' e' => heap w' !! r' = Some e') refs ents /\
    ents ≡ₚ pieces_from x00 (carved VStr e) 0 strs /\
    map decoded_data ents ≡ₚ map (fun s => VStr (s ++ [x00])) strs /\
    (located e -> ents = pieces_from x00 (carved VStr e) 0 strs).
Proof.
  intros Hr Hd Hsz Hp Hh.
  assert (Hc : split_results e = Ret (rev (pieces_from x00 (carved VStr e) 0 strs))).
  { unfold split_results. rewrite Hd, Hsz. apply split_loops_plain; assumption. }
  destruct (split_decoded_string_run r identify w e _ Hr Hc) as (refs & w' & Hrun & _ & Hperm & Hl).
  exists refs, w', (Py.sort_by entity_startEA (rev (pieces_from x00 (carved VStr e) 0 strs))).
  assert (Hents : Py.sort_by entity_startEA (rev (pieces_from x00 (carved VStr e) 0 strs))
            ≡ₚ pieces_from x00 (carved VStr e) 0 strs).
  { rewrite sort_by_perm. symmetry. apply Permutation_rev. }
  split; [exact Hrun|]. split; [rewrite Hperm; apply NoDup_seq|].
  split; [exact Hl|]. split; [exact Hents|].
  split; [rewrite Hents, pieces_decoded_data; reflexivity|].
  unfold located. destruct (string_location e) as [loc|] eqn:Hloc; [|contradiction].
  intros [Hi Hb]. apply sort_by_rev_increasing.
  apply (pieces_increasing e loc strs 0); [assumption..|lia].
Qed.

(** For every byte buffer whose [size] is its length the call returns;
    every entity returned is a copy of the input whose [decoded_data] is
    a non-empty slice [data[s:t]] of the buffer followed by one null and
    whose [offset] is the start [s] of the slice; and the entities are in
    non-decreasing order of start address. *)
Theorem split_results_tagged_and_sorted (w : World) r e data identify :
  heap w !! r = Some e ->
  decoded_data e = VStr data ->
  size e = Some (Py.len data) ->
  exists refs w' ents,
    split_decoded_string r identify w = (Ret refs, w') /\
    Forall2 (fun r' e' => heap w' !! r' = Some e') refs ents /\
    Forall (Carved x00 data (carved VStr e)) ents /\
    ascending entity_startEA ents.
Proof.
  intros Hr Hd Hsz.
  destruct (split_loops_total x00 data (carved VStr e)) as (copies & Hc & Hcarved).
  assert (Hres : split_results e = Ret copies).
  { unfold split_results. rewrite Hd, Hsz. exact Hc. }
  destruct (split_decoded_string_run r identify w e _ Hr Hres)
    as (refs & w' & Hrun & _ & _ & Hl).
  exists refs, w', (Py.sort_by entity_startEA copies).
  split; [exact Hrun|]. split; [exact Hl|]. split.
  - rewrite sort_by_perm. exact Hcarved.
  - apply sort_by_ascending.
Qed.

Lemma split_results_copies e copies :
  split_results e = Ret copies -> Forall (copy_of e) copies.
Proof.
  unfold split_results. destruct (decoded_data e); try discriminate.
  - apply split_loops_shape. intros piece o. repeat split.
  - apply split_loops_shape. intros piece o. repeat split.
Qed.

(** C10.  Whatever the outcome of the call, every object that existed
    before it is unchanged, the input among them; the entities returned
    are new objects, distinct from each other and from the input, and each
    is a copy of the input that differs from it at most in [decoded_data],
    [size] and [offset]. *)
Theorem split_leaves_input_unchanged (w : World) r identify o w' :
  split_decoded_string r identify w = (o, w') ->
  (forall (r0 : ref) e0, heap w !! r0 = Some e0 -> heap w' !! r0 = Some e0) /\
  (forall refs, o = Ret refs ->
     NoDup refs /\
     Forall (fun r' => r' <> r /\ (length (heap w) <= r')%nat /\
               exists e e', heap w !! r = Some e /\ heap w' !! r' = Some e' /\
                            copy_of e e') refs).
Proof.
  intros Hrun.
  destruct (heap w !! r) as [e|] eqn:Hr.
  2:{ unfold split_decoded_string, bind, deref in Hrun. rewrite Hr in Hrun.
      injection Hrun as <- <-. split; [auto | intros refs; discriminate]. }
  destruct (split_results e) as [copies| |] eqn:Hres.
  2,3: unfold split_decoded_string, bind, deref, lift in Hrun;
       rewrite Hr, Hres in Hrun; injection Hrun as <- <-;
       (split; [auto | intros refs; discriminate]).
  destruct (split_decoded_string_run r identify w e _ Hr Hres)
    as (refs & w1 & Hrun' & Hheap & Hperm & Hl).
  rewrite Hrun' in Hrun. injection Hrun as <- <-.
  split.
  - intros r0 e0 H0. rewrite Hheap. apply lookup_app_l_Some. exact H0.
  - intros refs' [= <-]. split; [rewrite Hperm; apply NoDup_seq|].
    apply lookup_lt_Some in Hr as Hlt.
    pose proof (split_results_copies e copies Hres) as Hcopies.
    rewrite <- (sort_by_perm entity_startEA) in Hcopies.
    apply Forall_forall. intros r' Hin.
    assert (Hfresh : (length (heap w) <= r')%nat).
    { rewrite Hperm in Hin. apply elem_of_seq in Hin. lia. }
    split; [lia|]. split; [exact Hfresh|].
    apply list_elem_of_lookup_1 in Hin as [i Hi].
    destruct (Forall2_lookup_l _ _ _ i r' Hl Hi) as (e' & He' & Hlook).
    exists e, e'. split; [reflexivity|]. split; [exact Hlook|].
    rewrite Forall_forall in Hcopies. apply Hcopies.
    eapply list_elem_of_lookup_2; eassumption.
Qed.

End SplitterClaims.

(** ** The splitter on the example buffers *)

Section SplitterExamples.
Import Examples.

Lemma two_strings_plain : Forall (plain x00) two_strings.
Proof.
  repeat constructor; try (simpl; lia); intros Hin;
    repeat (apply elem_of_cons in Hin as [Hin|Hin]; [discriminate|]);
    apply elem_of_nil in Hin; exact Hin.
Defined.

Lemma split_plain_strings_round_trip_witness :
  exists refs w' ents,
    split_decoded_string 0%nat false
      (one_entity (join x00 two_strings)) = (Ret refs, w') /\
    NoDup refs /\
    Forall2 (fun r' e' => heap w' !! r' = Some e') refs ents /\
    ents ≡ₚ pieces_from x00 (carved VStr (decoded_at_401000 (join x00 two_strings)))
              0 two_strings /\
    map decoded_data ents ≡ₚ map (fun s => VStr (s ++ [x00])) two_strings /\
    (located (decoded_at_401000 (join x00 two_strings)) ->
     ents = pieces_from x00 (carved VStr (decoded_at_401000 (join x00 two_strings)))
              0 two_strings).
Proof.
  apply (split_plain_strings_round_trip
           (one_entity (join x00 two_strings)) 0%nat
           (decoded_at_401000 (join x00 two_strings)) two_strings false).
  - reflexivity.
  - reflexivity.
  - reflexivity.
  - exact two_strings_plain.
  - simpl. lia.
Defined.

(** "A\x00B\x00" holds the single-byte strings "A" and "B", and is split
    into the single entity "A\x00B\x00\x00": the nulls after one-byte
    strings are read as the high bytes of double-byte characters. *)
Lemma split_single_chars_merged :
  ~ exists refs w' ents,
      split_decoded_string 0%nat false (one_entity single_chars)
        = (Ret refs, w') /\
      Forall2 (fun r' e' => heap w' !! r' = Some e') refs ents /\
      map decoded_data ents ≡ₚ map (fun s => VStr (s ++ [x00])) [["A"]; ["B"]]%byte.
Proof.
  intros (refs & w' & ents & Hrun & Hl & Hperm).
  vm_compute in Hrun. injection Hrun as <- <-.
  apply Forall2_length in Hl. apply Permutation_length in Hperm.
  rewrite !length_map in Hperm. simpl in Hl, Hperm. lia.
Qed.

Example split_single_chars :
  exists w',
    split_decoded_string 0%nat false (one_entity single_chars)
      = (Ret [1%nat], w') /\
    decoded_data <$> heap w' !! 1%nat = Some (VStr ["A"; x00; "B"; x00; x00]%byte).
Proof. eexists. split; vm_compute; reflexivity. Qed.

(** "AB\x00CD\x00": the two-byte string at the start of the buffer is not
    separated from its successor. *)
Example split_short_head :
  exists w',
    split_decoded_string 0%nat false (one_entity short_head)
      = (Ret [1%nat], w') /\
    decoded_data <$> heap w' !! 1%nat = Some (VStr ["A"; "B"; x00; "C"; "D"; x00]%byte).
Proof. eexists. split; vm_compute; reflexivity. Qed.

Lemma split_results_tagged_and_sorted_witness :
  exists refs w' ents,
    split_decoded_string 0%nat false (one_entity mixed) = (Ret refs, w') /\
    Forall2 (fun r' e' => heap w' !! r' = Some e') refs ents /\
    Forall (Carved x00 mixed (carved VStr (decoded_at_401000 mixed))) ents /\
    ascending entity_startEA ents.
Proof.
  apply (split_results_tagged_and_sorted
           (one_entity mixed) 0%nat
           (decoded_at_401000 mixed) mixed false);
    reflexivity.
Defined.


Lemma split_leaves_input_unchanged_witness :
  (forall r0 e0,
     heap (one_entity mixed) !! r0 = Some e0 ->
     heap (snd (split_decoded_string 0%nat true (one_entity mixed)))
       !! r0 = Some e0) /\
  (forall refs,
     fst (split_decoded_string 0%nat true (one_entity mixed)) = Ret refs ->
     NoDup refs /\
     Forall (fun r' => r' <> 0%nat /\
               (length (heap (one_entity mixed)) <= r')%nat /\
               exists e e',
                 heap (one_entity mixed) !! 0%nat = Some e /\
                 heap (snd (split_decoded_string 0%nat true
                              (one_entity mixed))) !! r' = Some e' /\
                 copy_of e e') refs).
Proof.
  apply (split_leaves_input_unchanged (one_entity mixed) 0%nat true).
  apply surjective_pairing.
Defined.

End SplitterExamples.

(** ** The Charset Detector *)

Section DetectorFacts.
Context `{Codecs}.

Lemma num_raw_bytes_from text acc :
  acc <= fold_left
    (fun count char =>
       let char := unicode_escape char in
       count + (b2z (Py.startswith char ["\"; "x"]%byte)
                + b2z (Py.startswith char ["\"; "u"]%byte) * 2))
    text acc.
Proof.
  assert (Hb : forall b, 0 <= b2z b) by (intros []; unfold b2z; lia).
  revert acc. induction text as [|c text IH]; intros acc; cbn [fold_left]; [lia|].
  etransitivity; [|apply IH]. cbv zeta.
  pose proof (Hb (Py.startswith (unicode_escape c) ["\"; "x"]%byte)).
  pose proof (Hb (Py.startswith (unicode_escape c) ["\"; "u"]%byte)).
  lia.
Qed.

Lemma num_raw_bytes_nonneg text : 0 <= _num_raw_bytes text.
Proof. apply num_raw_bytes_from. Qed.

(** A decode obtained by stripping removed at least one null byte. *)
Lemma strip_and_decode_spec cp rdata out :
  strip_and_decode cp rdata = Some out ->
  exists k rest text,
    rdata = replicate (S k) x00 ++ rest /\
    decode cp (rev rest) = Some text /\ out = rstrip text.
Proof.
  induction rdata as [|b rdata IH]; simpl; [discriminate|].
  case_bool_decide as Hb; [subst b|discriminate].
  destruct (decode cp (rev rdata)) as [text|] eqn:Hd.
  - intros [= <-]. exists 0%nat, rdata, text. repeat split. assumption.
  - intros (k & rest & text & -> & Hd' & ->)%IH.
    exists (S k), rest, text. repeat split. assumption.
Qed.

(** The output of a candidate is the stripped decode of the buffer, or,
    for the four UTF candidates only, of the buffer without some of its
    trailing null bytes. *)
Lemma candidate_output_spec data cp out :
  candidate_output data cp = Some out ->
  exists k trimmed text,
    data = trimmed ++ replicate k x00 /\
    decode cp trimmed = Some text /\ out = rstrip text /\
    (k <> 0%nat -> is_utf_wide cp = true /\ decode cp data = None).
Proof.
  unfold candidate_output. destruct (decode cp data) as [text|] eqn:Hd.
  - intros [= <-]. exists 0%nat, data, text.
    rewrite app_nil_r. repeat split; try assumption; congruence.
  - destruct (is_utf_wide cp) eqn:Hw; [|discriminate].
    intros (k & rest & text & Hr & Hd' & ->)%strip_and_decode_spec.
    exists (S k), (rev rest), text. split.
    + rewrite <- (rev_involutive data), Hr, rev_app_distr.
      f_equal. rewrite rev_alt. apply reverse_replicate.
    + repeat split; assumption.
Qed.

Lemma try_code_page_found data b cp : found data b -> found data (try_code_page data b cp).
Proof.
  intros Hb. unfold try_code_page.
  destruct (candidate_output data cp) as [out|] eqn:Hc; [|assumption].
  destruct (no_output b || (_num_raw_bytes out <? best_score b)); [|assumption].
  right. exists cp, out. repeat split. assumption.
Qed.

Lemma fold_found data l b :
  found data b -> found data (fold_left (try_code_page data) l b).
Proof.
  revert b. induction l as [|cp l IH]; intros b Hb; simpl; [assumption|].
  apply IH, try_code_page_found, Hb.
Qed.

Lemma detect_found data : found data (detect data).
Proof. apply fold_found. left. reflexivity. Qed.

(** A candidate that does not score strictly lower leaves a non-empty
    best output in place. *)
Lemma fold_keeps_best data l b :
  no_output b = false ->
  (forall cp out, cp ∈ l -> candidate_output data cp = Some out ->
     best_score b <= _num_raw_bytes out) ->
  fold_left (try_code_page data) l b = b.
Proof.
  intros Hb. induction l as [|cp l IH]; intros Hl; simpl; [reflexivity|].
  assert (Hstep : try_code_page data b cp = b).
  { unfold try_code_page.
    destruct (candidate_output data cp) as [out|] eqn:Hc; [|reflexivity].
    rewrite Hb. simpl.
    destruct (Z.ltb_spec (_num_raw_bytes out) (best_score b)) as [Hlt|]; [|reflexivity].
    specialize (Hl cp out (list_elem_of_here _ _) Hc). lia. }
  rewrite Hstep. apply IH. intros cp' out Hin. apply Hl. right. exact Hin.
Qed.

Lemma ascii_score_is_lowest_spec data output cp out :
  ascii_score_is_lowest data output = true -> cp ∈ CODE_PAGES ->
  candidate_output data cp = Some out -> _num_raw_bytes output <= _num_raw_bytes out.
Proof.
  unfold ascii_score_is_lowest. rewrite forallb_forall.
  intros Hall Hin Hc. apply list_elem_of_In in Hin.
  specialize (Hall cp Hin). rewrite Hc in Hall. lia.
Qed.

Lemma fold_left_step {A B} (f : A -> B -> A) x l a :
  fold_left f (x :: l) a = fold_left f l (f a x).
Proof. reflexivity. Qed.

(** Full detection when the ASCII output is non-empty and no candidate
    scores strictly lower. *)
Lemma detect_ascii data text :
  decode ascii data = Some text -> rstrip text <> [] ->
  ascii_score_is_lowest data (rstrip text) = true ->
  detect data =
  {| best_score := _num_raw_bytes (rstrip text); best_code_page := Some ascii;
     best_output := Some (rstrip text) |}.
Proof.
  intros Hd Hne Hlow. unfold detect, CODE_PAGES.
  rewrite fold_left_step.
  assert (Hfirst : try_code_page data
            {| best_score := Py.len data; best_code_page := None; best_output := None |}
            ascii =
          {| best_score := _num_raw_bytes (rstrip text); best_code_page := Some ascii;
             best_output := Some (rstrip text) |}).
  { unfold try_code_page, candidate_output. rewrite Hd. reflexivity. }
  rewrite Hfirst. apply fold_keeps_best.
  - unfold no_output. simpl. apply bool_decide_false. assumption.
  - intros cp out Hin Hc. simpl.
    eapply ascii_score_is_lowest_spec; [exact Hlow| |exact Hc].
    unfold CODE_PAGES. right. exact Hin.
Qed.

End DetectorFacts.

Section DetectorClaims.
Context `{Codecs}.

Lemma full_detection_entered e data :
  decoded_data e = VStr data -> detection_reached e data ->
  decode_unknown_charset e =
  (let b := detect data in
   if no_output b then (Ret [], e)
   else (Ret (default [] (best_output b)), set_code_page (best_code_page b) e)).
Proof.
  intros Hd Hr. unfold decode_unknown_charset. rewrite Hd. simpl.
  unfold detection_reached in Hr.
  destruct (code_page e) as [cp|]; [rewrite Hr|]; reflexivity.
Qed.

(** X1.  When full detection records a code page,
    that code page decodes the buffer with [k] trailing null bytes
    removed, and the text returned is that decode without its trailing
    null characters; [k] is zero unless the code page is one of the four
    UTF-16/UTF-32 candidates and fails on the whole buffer. *)
Theorem recorded_codec_decodes_stripped_buffer e data text e' :
  decoded_data e = VStr data ->
  detection_reached e data ->
  decode_unknown_charset e = (Ret text, e') ->
  text <> [] ->
  exists cp k trimmed decoded,
    code_page e' = Some cp /\
    data = trimmed ++ replicate k x00 /\
    decode cp trimmed = Some decoded /\
    text = rstrip decoded /\
    (k <> 0%nat -> is_utf_wide cp = true /\ decode cp data = None).
Proof.
  intros Hd Hr Hrun Hne.
  rewrite (full_detection_entered e data Hd Hr) in Hrun. cbv zeta in Hrun.
  destruct (no_output (detect data)) eqn:Hno.
  - injection Hrun as <- <-. contradiction.
  - injection Hrun as <- <-.
    destruct (detect_found data) as [Hcontra | (cp & out & Hcp & Hout & Hc)];
      [congruence|].
    destruct (candidate_output_spec data cp out Hc) as (k & trimmed & decoded & H1 & H2 & H3 & H4).
    exists cp, k, trimmed, decoded. rewrite Hout. simpl.
    repeat split; try assumption; apply H4; assumption.
Qed.

(** X2.  When the ASCII candidate decodes the buffer
    to a text that is not empty once its trailing nulls are stripped, and
    no candidate of [CODE_PAGES] has a strictly lower score, full
    detection returns the ASCII text and records [ascii]: the first
    candidate seen wins the ties. *)
Theorem ascii_selected_when_no_lower_score e data text :
  decoded_data e = VStr data ->
  detection_reached e data ->
  decode ascii data = Some text ->
  rstrip text <> [] ->
  ascii_score_is_lowest data (rstrip text) = true ->
  decode_unknown_charset e = (Ret (rstrip text), set_code_page (Some ascii) e).
Proof.
  intros Hd Hr Hdec Hne Hlow.
  rewrite (full_detection_entered e data Hd Hr).
  rewrite (detect_ascii data text Hdec Hne Hlow). cbv zeta.
  unfold no_output. simpl. rewrite bool_decide_false by assumption. reflexivity.
Qed.

(** A score of zero cannot be beaten. *)
Lemma ascii_selected_when_score_zero e data text :
  decoded_data e = VStr data ->
  detection_reached e data ->
  decode ascii data = Some text ->
  rstrip text <> [] ->
  _num_raw_bytes (rstrip text) = 0 ->
  decode_unknown_charset e = (Ret (rstrip text), set_code_page (Some ascii) e).
Proof.
  intros Hd Hr Hdec Hne Hzero.
  apply (ascii_selected_when_no_lower_score e data text); try assumption.
  unfold ascii_score_is_lowest. apply forallb_forall. intros cp _.
  destruct (candidate_output data cp) as [out|]; [|reflexivity].
  rewrite Hzero. apply Z.leb_le, num_raw_bytes_nonneg.
Qed.

(** X3.  When the first call detects ASCII on an entity without a code
    page, it returns the text without its trailing nulls; the next call
    finds the recorded code page and returns the decode of the whole
    buffer, trailing nulls included, leaving the entity as it is. *)
Theorem second_call_keeps_trailing_nulls e data text :
  decoded_data e = VStr data ->
  code_page e = None ->
  decode ascii data = Some text ->
  rstrip text <> [] ->
  ascii_score_is_lowest data (rstrip text) = true ->
  exists e1,
    decode_unknown_charset e = (Ret (rstrip text), e1) /\
    decode_unknown_charset e1 = (Ret text, e1).
Proof.
  intros Hd Hcp Hdec Hne Hlow.
  exists (set_code_page (Some ascii) e). split.
  - apply (ascii_selected_when_no_lower_score e data text); try assumption.
    unfold detection_reached. rewrite Hcp. exact I.
  - unfold decode_unknown_charset. simpl. rewrite Hd. simpl. rewrite Hdec. reflexivity.
Qed.

Lemma rstrip_last text : last (rstrip text) <> Some 0.
Proof.
  induction text as [|c text IH]; [discriminate|].
  change (rstrip (c :: text))
    with (if (c =? 0) && bool_decide (rstrip text = []) then [] else c :: rstrip text).
  destruct (Z.eqb_spec c 0) as [->|Hc]; simpl.
  - case_bool_decide as Hnil; [discriminate|].
    destruct (rstrip text); [contradiction | exact IH].
  - destruct (rstrip text) as [|c' rest]; [simpl; congruence | exact IH].
Qed.

(** X4.  The text that full detection returns never ends with a null
    character. *)
Theorem detected_text_has_no_trailing_null e data text e' :
  decoded_data e = VStr data ->
  detection_reached e data ->
  decode_unknown_charset e = (Ret text, e') ->
  last text <> Some 0.
Proof.
  intros Hd Hr Hrun.
  rewrite (full_detection_entered e data Hd Hr) in Hrun. cbv zeta in Hrun.
  destruct (no_output (detect data)) eqn:Hno.
  - injection Hrun as <- <-. discriminate.
  - injection Hrun as <- <-.
    destruct (detect_found data) as [Hcontra | (cp & out & Hcp & Hout & Hc)];
      [congruence|].
    destruct (candidate_output_spec data cp out Hc) as (k & trimmed & decoded & _ & _ & -> & _).
    rewrite Hout. simpl. apply rstrip_last.
Qed.

Lemma try_code_page_invariant data tried b cp :
  loop_invariant data tried b ->
  loop_invariant data (tried ++ [cp]) (try_code_page data b cp).
Proof.
  intros [Hbest Hnone]. unfold try_code_page.
  destruct (candidate_output data cp) as [out|] eqn:Hc.
  - destruct (no_output b) eqn:Hno; cbn [orb].
    + (* nothing kept so far: the candidate is taken whatever its score *)
      split.
      * intros Hout. exists cp, out, tried, []. cbn.
        split; [reflexivity|]. split; [reflexivity|]. split; [reflexivity|].
        split; [reflexivity|]. split; [exact Hc|]. split.
        -- intros cp' out' Hin. apply elem_of_nil in Hin. contradiction.
        -- intros Hnonempty cp' out' Hin Hc'.
           rewrite (Hnone eq_refl Hnonempty cp' Hin) in Hc'. discriminate.
      * cbn. intros Hout Hnonempty. exfalso.
        apply (Hnonempty cp); [apply elem_of_app; right; left|].
        rewrite Hc. f_equal. unfold no_output in Hout. cbn in Hout.
        apply bool_decide_eq_true in Hout. exact Hout.
    + destruct (Hbest eq_refl)
        as (cpb & outb & before & after & Htried & Hcp & Hob & Hscore & Hcb & Hafter & Hbefore).
      destruct (Z.ltb_spec (_num_raw_bytes out) (best_score b)) as [Hlt|Hge].
      * (* strictly lower: the candidate replaces the best one *)
        split.
        -- intros Hout. exists cp, out, tried, []. cbn.
           split; [reflexivity|]. split; [reflexivity|]. split; [reflexivity|].
           split; [reflexivity|]. split; [exact Hc|]. split.
           ++ intros cp' out' Hin. apply elem_of_nil in Hin. contradiction.
           ++ intros Hnonempty cp' out' Hin Hc'. rewrite Htried in Hin.
              apply elem_of_app in Hin as [Hin|Hin].
              ** assert (Hlow : _num_raw_bytes outb < _num_raw_bytes out'); [|lia].
                 apply (Hbefore) with (cp' := cp'); [|exact Hin | exact Hc'].
                 intros cp'' Hin''. apply Hnonempty. rewrite Htried.
                 apply elem_of_app. left. exact Hin''.
              ** apply elem_of_cons in Hin as [->|Hin].
                 --- rewrite Hcb in Hc'. injection Hc' as <-. lia.
                 --- specialize (Hafter cp' out' Hin Hc'). lia.
        -- cbn. intros Hout Hnonempty. exfalso.
           apply (Hnonempty cp); [apply elem_of_app; right; left|].
           rewrite Hc. f_equal. unfold no_output in Hout. cbn in Hout.
           apply bool_decide_eq_true in Hout. exact Hout.
      * (* not lower: the best one stays *)
        split; [|rewrite Hno; discriminate].
        intros _. exists cpb, outb, before, (after ++ [cp]).
        split; [rewrite Htried, <- app_assoc; reflexivity|].
        split; [exact Hcp|]. split; [exact Hob|]. split; [exact Hscore|].
        split; [exact Hcb|]. split; [|exact Hbefore].
        intros cp' out' Hin Hc'. apply elem_of_app in Hin as [Hin|Hin].
        -- apply (Hafter cp' out' Hin Hc').
        -- apply list_elem_of_singleton in Hin as ->.
           rewrite Hc in Hc'. injection Hc' as <-. lia.
  - (* the candidate does not decode *)
    split.
    + intros Hno. destruct (Hbest Hno)
        as (cpb & outb & before & after & Htried & Hcp & Hob & Hscore & Hcb & Hafter & Hbefore).
      exists cpb, outb, before, (after ++ [cp]).
      split; [rewrite Htried, <- app_assoc; reflexivity|].
      split; [exact Hcp|]. split; [exact Hob|]. split; [exact Hscore|].
      split; [exact Hcb|]. split; [|exact Hbefore].
      intros cp' out' Hin Hc'. apply elem_of_app in Hin as [Hin|Hin].
      * apply (Hafter cp' out' Hin Hc').
      * apply list_elem_of_singleton in Hin as ->. rewrite Hc in Hc'. discriminate.
    + intros Hno Hnonempty cp' Hin. apply elem_of_app in Hin as [Hin|Hin].
      * apply (Hnone Hno); [|exact Hin].
        intros cp'' Hin''. apply Hnonempty. apply elem_of_app. left. exact Hin''.
      * apply list_elem_of_singleton in Hin as ->. exact Hc.
Qed.

Lemma fold_invariant data l : forall tried b,
  loop_invariant data tried b ->
  loop_invariant data (tried ++ l) (fold_left (try_code_page data) l b).
Proof.
  induction l as [|cp l IH]; intros tried b Hb; cbn [fold_left].
  - rewrite app_nil_r. exact Hb.
  - replace (tried ++ cp :: l) with ((tried ++ [cp]) ++ l)
      by (rewrite <- app_assoc; reflexivity).
    apply IH, try_code_page_invariant, Hb.
Qed.

Lemma detect_invariant data : loop_invariant data CODE_PAGES (detect data).
Proof.
  assert (Hinit : loop_invariant data []
            {| best_score := Py.len data; best_code_page := None; best_output := None |}).
  { split.
    - discriminate.
    - intros _ _ cp' Hin. apply elem_of_nil in Hin. contradiction. }
  pose proof (fold_invariant data CODE_PAGES [] _ Hinit) as Hinv.
  rewrite app_nil_l in Hinv. exact Hinv.
Qed.

(** X5.  When full detection records a code page, it is the first
    candidate of lowest score: its output scores no higher than the
    output of any candidate that comes after it in [CODE_PAGES], and
    strictly lower than the output of every candidate that comes before
    it, provided no earlier candidate decodes to an empty text (after an
    empty output the loop takes the next candidate whatever its
    score). *)
Theorem recorded_codec_is_first_lowest e data text e' :
  decoded_data e = VStr data ->
  detection_reached e data ->
  decode_unknown_charset e = (Ret text, e') ->
  text <> [] ->
  exists cp before after,
    code_page e' = Some cp /\
    CODE_PAGES = before ++ cp :: after /\
    first_lowest data before cp text after.
Proof.
  intros Hd Hr Hrun Hne.
  rewrite (full_detection_entered e data Hd Hr) in Hrun. cbv zeta in Hrun.
  destruct (no_output (detect data)) eqn:Hno.
  - injection Hrun as <- <-. contradiction.
  - injection Hrun as <- <-.
    destruct (detect_invariant data) as [Hbest _].
    destruct (Hbest Hno) as (cp & out & before & after & Hall & Hcp & Hout & _ & Hfirst).
    exists cp, before, after.
    split; [unfold set_code_page; cbn [code_page]; exact Hcp|].
    split; [exact Hall|]. rewrite Hout. exact Hfirst.
Qed.

End DetectorClaims.

(** ** The detector on example buffers, with the reference codecs *)

Section DetectorExamples.
Import Examples Py27.

(** On "A\x00" the first call returns u"A" and records [ascii]; the
    second call, which tries the recorded code page first, returns
    u"A\x00". *)
Example second_call_returns_other_text :
  decode_unknown_charset a_nul = (Ret [65], set_code_page (Some ascii) a_nul) /\
  decode_unknown_charset (set_code_page (Some ascii) a_nul)
    = (Ret [65; 0], set_code_page (Some ascii) a_nul).
Proof. split; vm_compute; reflexivity. Qed.

Lemma recorded_codec_decodes_stripped_buffer_witness :
  exists cp k trimmed decoded,
    code_page (snd (decode_unknown_charset (entity None [x00; "A"; x00]%byte))) = Some cp /\
    [x00; "A"; x00]%byte = trimmed ++ replicate k x00 /\
    decode cp trimmed = Some decoded /\
    [65] = rstrip decoded /\
    (k <> 0%nat -> is_utf_wide cp = true /\ decode cp [x00; "A"; x00]%byte = None).
Proof.
  apply (recorded_codec_decodes_stripped_buffer
           (entity None [x00; "A"; x00]%byte) [x00; "A"; x00]%byte [65]).
  - reflexivity.
  - exact I.
  - vm_compute. reflexivity.
  - discriminate.
Defined.

(** For "\x00A\x00" the detector records [utf_16_be], which does not
    decode these three bytes. *)
Lemma recorded_codec_fails_on_buffer :
  code_page (snd (decode_unknown_charset (entity None [x00; "A"; x00]%byte)))
    = Some utf_16_be /\
  decode utf_16_be [x00; "A"; x00]%byte = None.
Proof. split; vm_compute; reflexivity. Qed.

Lemma ascii_selected_when_no_lower_score_witness :
  decode_unknown_charset (entity None ["A"; "B"; x00]%byte)
    = (Ret (rstrip [65; 66; 0]), set_code_page (Some ascii) (entity None ["A"; "B"; x00]%byte)).
Proof.
  apply (ascii_selected_when_no_lower_score
           (entity None ["A"; "B"; x00]%byte) ["A"; "B"; x00]%byte [65; 66; 0]).
  - reflexivity.
  - exact I.
  - reflexivity.
  - discriminate.
  - vm_compute. reflexivity.
Defined.

(** The 7-bit buffer "\x00A" is decoded as [utf_16_be], whose output u"A"
    needs no escape, while the ASCII output u"\x00A" needs one. *)
Lemma ascii_not_selected :
  Forall (fun b => ord b < 128) [x00; "A"]%byte /\
  decode_unknown_charset (entity None [x00; "A"]%byte)
    = (Ret [65], set_code_page (Some utf_16_be) (entity None [x00; "A"]%byte)).
Proof. split; [repeat constructor | vm_compute; reflexivity]. Qed.

(** The one-byte buffer "\x00" leaves no code page recorded. *)
Example nothing_recorded_for_nul :
  decode_unknown_charset (entity None [x00])
    = (Ret [], entity None [x00]).
Proof. vm_compute. reflexivity. Qed.

Lemma second_call_keeps_trailing_nulls_witness :
  exists e1,
    decode_unknown_charset a_nul = (Ret (rstrip [65; 0]), e1) /\
    decode_unknown_charset e1 = (Ret [65; 0], e1).
Proof.
  apply (second_call_keeps_trailing_nulls a_nul ["A"; x00]%byte [65; 0]).
  - reflexivity.
  - reflexivity.
  - reflexivity.
  - discriminate.
  - vm_compute. reflexivity.
Defined.

Lemma detected_text_has_no_trailing_null_witness : last [65] <> Some 0.
Proof.
  apply (detected_text_has_no_trailing_null a_nul ["A"; x00]%byte [65]
           (set_code_page (Some ascii) a_nul)).
  - reflexivity.
  - exact I.
  - vm_compute. reflexivity.
Defined.

Lemma recorded_codec_is_first_lowest_witness :
  exists cp before after,
    code_page (set_code_page (Some ascii) a_nul) = Some cp /\
    CODE_PAGES = before ++ cp :: after /\
    first_lowest ["A"%byte; x00] before cp [65] after.
Proof.
  assert (Hrun : decode_unknown_charset a_nul
            = (Ret [65], set_code_page (Some ascii) a_nul)).
  { vm_compute. reflexivity. }
  exact (recorded_codec_is_first_lowest a_nul ["A"%byte; x00] [65]
           (set_code_page (Some ascii) a_nul) eq_refl I Hrun
           (fun Heq : [65] = [] => eq_ind [65] (fun l => match l with [] => False | _ => True end) I [] Heq)).
Defined.

End DetectorExamples.

(** ** The Decode Pipeline *)

Lemma omap_ext_in {A B} (f g : A -> option B) (l : list A) :
  (forall x, x ∈ l -> f x = g x) -> omap f l = omap g l.
Proof.
  induction l as [|x l IH]; intros Hfg; [reflexivity|].
  cbn [omap list_omap]. rewrite (Hfg x) by left.
  rewrite IH; [reflexivity|]. intros y Hy. apply Hfg. right. exact Hy.
Qed.

Section PipelineFacts.
Context `{IDA}.
Variable decode : EncodedString -> pyval.

Lemma decode_strings_from_distinct l : forall acc (w : World),
  NoDup l -> Forall (loggable (heap w)) l ->
  exists w',
    decode_strings_from decode l acc w
      = (Ret (acc ++ List.filter (decodes decode (heap w)) l), w') /\
    length (heap w') = length (heap w) /\
    (forall r : ref, heap w' !! r =
               if bool_decide (r ∈ l) then decoded_entity decode <$> heap w !! r
               else heap w !! r) /\
    debug w' = debug w ++ omap (decode_message decode (heap w)) l /\
    db w' = db w.
Proof.
  induction l as [|r l IH]; intros acc w Hnd Hok.
  - exists w. simpl. rewrite !app_nil_r. repeat split; reflexivity.
  - apply NoDup_cons in Hnd as [Hr Hnd]. apply Forall_cons in Hok as [(e & He & Hloc) Hok].
    cbn [decode_strings_from]. unfold bind at 1. unfold deref at 1. rewrite He.
    assert (Hrest : forall (w1 : World) (f : EncodedString -> EncodedString),
              heap w1 = <[r := f e]> (heap w) ->
              Forall (loggable (heap w1)) l /\
              List.filter (decodes decode (heap w1)) l
                = List.filter (decodes decode (heap w)) l /\
              omap (decode_message decode (heap w1)) l
                = omap (decode_message decode (heap w)) l).
    { intros w1 f Hh. rewrite Hh.
      assert (Hsame : forall r', r' ∈ l -> <[r := f e]> (heap w) !! r' = heap w !! r').
      { intros r' Hin. apply list_lookup_insert_ne. intros ->. contradiction. }
      split; [|split].
      - rewrite Forall_forall in Hok |- *. intros r' Hin.
        unfold loggable. rewrite (Hsame r' Hin). apply Hok, Hin.
      - apply filter_ext_in. intros r' Hin%list_elem_of_In.
        unfold decodes. rewrite (Hsame r' Hin). reflexivity.
      - apply omap_ext_in. intros r' Hin.
        unfold decode_message. rewrite (Hsame r' Hin). reflexivity. }
    assert (Hd : decodes decode (heap w) r
              = negb (bool_decide (encoded_data e = VInt INVALID)) && truthy (decode e)).
    { unfold decodes. rewrite He. reflexivity. }
    assert (Hmsg : decode_message decode (heap w) r
              = if bool_decide (encoded_data e = VInt INVALID)
                then UnableToFindString <$> string_location e
                else if truthy (decode e) then None else Some (FailedToDecode r)).
    { unfold decode_message. rewrite He. reflexivity. }
    assert (Hfilter : List.filter (decodes decode (heap w)) (r :: l)
              = if decodes decode (heap w) r
                then r :: List.filter (decodes decode (heap w)) l
                else List.filter (decodes decode (heap w)) l) by reflexivity.
    assert (Homap : omap (decode_message decode (heap w)) (r :: l)
              = match decode_message decode (heap w) r with
                | Some m => m :: omap (decode_message decode (heap w)) l
                | None => omap (decode_message decode (heap w)) l
                end) by reflexivity.
    rewrite Hfilter, Homap, Hd, Hmsg. clear Hfilter Homap Hd Hmsg.
    assert (Hhead : forall (h1 : list EncodedString) r',
        h1 !! r = Some (decoded_entity decode e) ->
        (forall r'', r'' <> r -> h1 !! r'' = heap w !! r'') ->
        (if bool_decide (r' ∈ l) then decoded_entity decode <$> h1 !! r' else h1 !! r') =
        (if bool_decide (r' ∈ r :: l) then decoded_entity decode <$> heap w !! r'
         else heap w !! r')).
    { intros h1 r' Hat Hother. destruct (decide (r' = r)) as [->|Hne].
      - rewrite (bool_decide_false (r ∈ l)) by assumption.
        rewrite (bool_decide_true (r ∈ r :: l)) by left.
        rewrite Hat, He. reflexivity.
      - rewrite (Hother r' Hne). destruct (decide (r' ∈ l)) as [Hin|Hnin].
        + rewrite !bool_decide_true; [reflexivity | right; exact Hin | exact Hin].
        + rewrite !bool_decide_false; [reflexivity | | exact Hnin].
          intros [?|?]%elem_of_cons; contradiction. }
    unfold decoded_entity in Hhead.
    case_bool_decide as Henc.
    + destruct (Hloc Henc) as [loc Hl]. rewrite Hl.
      unfold bind at 1. unfold append_debug at 1, modify at 1.
      destruct (IH acc (with_debug (debug w ++ [UnableToFindString loc]) w) Hnd Hok)
        as (w' & Hrun & Hlen & Hheap & Hdebug & Hdb).
      exists w'. split; [exact Hrun|]. split; [exact Hlen|].
      split; [|split; [|exact Hdb]].
      * intros r'. rewrite Hheap. apply Hhead; [exact He | reflexivity].
      * rewrite Hdebug. simpl. rewrite <- app_assoc. reflexivity.
    + unfold bind at 1. unfold assign at 1. rewrite He.
      set (w1 := with_heap (<[r := set_decoded_data (decode e) e]> (heap w)) w).
      destruct (Hrest w1 (set_decoded_data (decode e)) eq_refl) as (Hok1 & Hf & Hm).
      assert (Hat : heap w1 !! r = Some (set_decoded_data (decode e) e)).
      { simpl. apply list_lookup_insert_eq. eapply lookup_lt_Some; eassumption. }
      assert (Hother : forall r'', r'' <> r -> heap w1 !! r'' = heap w !! r'').
      { intros r'' Hne. simpl. apply list_lookup_insert_ne. congruence. }
      assert (Hlen1 : length (heap w1) = length (heap w)) by (simpl; apply length_insert).
      simpl negb. cbn [andb].
      destruct (truthy (decode e)) eqn:Ht.
      * destruct (IH (acc ++ [r]) w1 Hnd Hok1) as (w' & Hrun & Hlen & Hheap & Hdebug & Hdb).
        exists w'. split.
        { rewrite Hrun, <- app_assoc. simpl. do 4 f_equal. exact Hf. }
        split; [rewrite Hlen; exact Hlen1|].
        split; [intros r'; rewrite Hheap; apply Hhead; assumption|].
        split; [|exact Hdb]. rewrite Hdebug. simpl. f_equal. exact Hm.
      * unfold bind at 1. unfold append_debug at 1, modify at 1.
        destruct (IH acc (with_debug (debug w1 ++ [FailedToDecode r]) w1) Hnd Hok1)
          as (w' & Hrun & Hlen & Hheap & Hdebug & Hdb).
        exists w'. split.
        { rewrite Hrun. do 3 f_equal. exact Hf. }
        split; [rewrite Hlen; exact Hlen1|].
        split; [intros r'; rewrite Hheap; apply Hhead; assumption|].
        split; [|exact Hdb]. rewrite Hdebug. simpl. rewrite <- app_assoc. simpl.
        do 2 f_equal. exact Hm.
Qed.

(** X6.  On a list of distinct entities, each with an integer location
    where its bytes are unresolved, [decode_strings] returns, in order,
    exactly the entities whose bytes are resolved and whose decode result
    is truthy; every entity with resolved bytes has its [decoded_data] set
    to the decode result and no other object changes; one message is
    logged per skipped or dropped entity; and every entity returned holds
    a truthy [decoded_data]. *)
Theorem decode_strings_distinct (w : World) l :
  NoDup l -> Forall (loggable (heap w)) l ->
  exists w',
    decode_strings decode l w = (Ret (List.filter (decodes decode (heap w)) l), w') /\
    (forall r : ref, heap w' !! r =
               if bool_decide (r ∈ l) then decoded_entity decode <$> heap w !! r
               else heap w !! r) /\
    debug w' = debug w ++ omap (decode_message decode (heap w)) l /\
    Forall (fun r => exists e', heap w' !! r = Some e' /\ truthy (decoded_data e') = true)
      (List.filter (decodes decode (heap w)) l).
Proof.
  intros Hnd Hok.
  destruct (decode_strings_from_distinct l [] w Hnd Hok)
    as (w' & Hrun & _ & Hheap & Hdebug & _).
  exists w'. split; [exact Hrun|]. split; [exact Hheap|]. split; [exact Hdebug|].
  apply Forall_forall. intros r Hin%list_elem_of_In%filter_In.
  destruct Hin as [Hin Hdec%Is_true_true]. apply list_elem_of_In in Hin.
  unfold decodes in Hdec. destruct (heap w !! r) as [e|] eqn:He; [|contradiction].
  apply Is_true_true, andb_true_iff in Hdec as [Henc Ht].
  apply negb_true_iff, bool_decide_eq_false in Henc.
  exists (set_decoded_data (decode e) e). split; [|exact Ht].
  rewrite Hheap, bool_decide_true by assumption. rewrite He. simpl.
  unfold decoded_entity. rewrite bool_decide_false by assumption. reflexivity.
Qed.

Lemma set_decoded_data_same e : set_decoded_data (decoded_data e) e = e.
Proof. destruct e. reflexivity. Qed.

Lemma decode_strings_from_frame l : forall acc (w : World) o w',
  decode_strings_from decode l acc w = (o, w') ->
  length (heap w') = length (heap w) /\
  (forall (r : ref) e, heap w !! r = Some e ->
     exists v, heap w' !! r = Some (set_decoded_data v e)) /\
  db w' = db w /\
  (forall res, o = Ret res -> exists res', res = acc ++ res' /\ sublist res' l).
Proof.
  induction l as [|r l IH]; intros acc w o w' Hrun.
  - injection Hrun as <- <-. split; [reflexivity|]. split; [|split; [reflexivity|]].
    + intros r e He. exists (decoded_data e). rewrite set_decoded_data_same. exact He.
    + intros res [= <-]. exists []. rewrite app_nil_r. split; [reflexivity | constructor].
  - assert (Hstay : forall (w1 : World),
      heap w1 = heap w -> db w1 = db w ->
      forall o1 w1', decode_strings_from decode l acc w1 = (o1, w1') ->
      length (heap w1') = length (heap w) /\
      (forall (r0 : ref) e, heap w !! r0 = Some e ->
         exists v, heap w1' !! r0 = Some (set_decoded_data v e)) /\
      db w1' = db w /\
      (forall res, o1 = Ret res -> exists res', res = acc ++ res' /\ sublist res' (r :: l))).
    { intros w1 Hh Hd o1 w1' Hrun1. apply IH in Hrun1 as (H1 & H2 & H3 & H4).
      rewrite Hh in H1, H2. split; [exact H1|]. split; [exact H2|].
      split; [congruence|]. intros res Hres. destruct (H4 res Hres) as (res' & -> & Hsub).
      exists res'. split; [reflexivity | apply sublist_cons; exact Hsub]. }
    assert (Hstop : forall e0, o = Raise e0 -> w' = w ->
      length (heap w') = length (heap w) /\
      (forall (r : ref) e, heap w !! r = Some e ->
         exists v, heap w' !! r = Some (set_decoded_data v e)) /\
      db w' = db w /\
      (forall res, o = Ret res -> exists res', res = acc ++ res' /\ sublist res' (r :: l))).
    { intros e0 -> ->. split; [reflexivity|]. split; [|split; [reflexivity|]].
      - intros r0 e He. exists (decoded_data e). rewrite set_decoded_data_same. exact He.
      - intros res; discriminate. }
    cbn [decode_strings_from] in Hrun. unfold bind at 1 in Hrun. unfold deref at 1 in Hrun.
    destruct (heap w !! r) as [e|] eqn:He;
      [|injection Hrun as <- <-; eapply Hstop; reflexivity].
    case_bool_decide as Henc.
    + destruct (string_location e) as [loc|];
        [|injection Hrun as <- <-; eapply Hstop; reflexivity].
      unfold bind at 1 in Hrun. unfold append_debug at 1, modify at 1 in Hrun.
      eapply Hstay; [| |exact Hrun]; reflexivity.
    + unfold bind at 1 in Hrun. unfold assign at 1 in Hrun. rewrite He in Hrun.
      set (w1 := with_heap (<[r := set_decoded_data (decode e) e]> (heap w)) w) in Hrun.
      assert (Hgo : forall acc1 (w2 : World),
        heap w2 = heap w1 -> db w2 = db w ->
        (exists tl, acc1 ++ tl = acc \/ acc1 = acc ++ [r]) ->
        decode_strings_from decode l acc1 w2 = (o, w') ->
        length (heap w') = length (heap w) /\
        (forall (r0 : ref) e0, heap w !! r0 = Some e0 ->
           exists v, heap w' !! r0 = Some (set_decoded_data v e0)) /\
        db w' = db w /\
        (forall res, o = Ret res -> exists res', res = acc1 ++ res' /\ sublist res' l)).
      { intros acc1 w2 Hh Hd _ Hrun2. apply IH in Hrun2 as (H1 & H2 & H3 & H4).
        rewrite Hh in H1, H2. split; [rewrite H1; simpl; apply length_insert|].
        split; [|split; [congruence | exact H4]].
        intros r0 e0 He0. simpl in H2.
        destruct (decide (r0 = r)) as [->|Hne].
        - assert (e0 = e) as -> by congruence.
          destruct (H2 r (set_decoded_data (decode e) e)) as [v Hv].
          { apply list_lookup_insert_eq. eapply lookup_lt_Some; eassumption. }
          exists v. rewrite Hv. destruct e. reflexivity.
        - apply H2. rewrite list_lookup_insert_ne by congruence. exact He0. }
      destruct (truthy (decode e)).
      * destruct (Hgo (acc ++ [r]) w1 eq_refl eq_refl) as (H1 & H2 & H3 & H4);
          [exists []; right; reflexivity | exact Hrun |].
        split; [exact H1|]. split; [exact H2|]. split; [exact H3|].
        intros res Hres. destruct (H4 res Hres) as (res' & -> & Hsub).
        exists (r :: res'). rewrite <- app_assoc. split; [reflexivity|].
        apply sublist_skip. exact Hsub.
      * unfold bind at 1 in Hrun. unfold append_debug at 1, modify at 1 in Hrun.
        destruct (Hgo acc (with_debug (debug w1 ++ [FailedToDecode r]) w1) eq_refl eq_refl)
          as (H1 & H2 & H3 & H4); [exists []; left; apply app_nil_r | exact Hrun |].
        split; [exact H1|]. split; [exact H2|]. split; [exact H3|].
        intros res Hres. destruct (H4 res Hres) as (res' & -> & Hsub).
        exists res'. split; [reflexivity | apply sublist_cons; exact Hsub].
Qed.

(** X7.  With a decode function that only computes its result from the
    entity it is given (it modifies neither the entity nor anything
    else), and whatever the list and the outcome, [decode_strings]
    creates and removes no object, changes no attribute other than
    [decoded_data], leaves the database alone, and returns a sub-list of
    its input, in the order of the input. *)
Theorem decode_strings_frame (w : World) l o w' :
  decode_strings decode l w = (o, w') ->
  length (heap w') = length (heap w) /\
  (forall (r : ref) e, heap w !! r = Some e ->
     exists v, heap w' !! r = Some (set_decoded_data v e)) /\
  db w' = db w /\
  (forall res, o = Ret res -> sublist res l).
Proof.
  intros Hrun. apply decode_strings_from_frame in Hrun as (H1 & H2 & H3 & H4).
  split; [exact H1|]. split; [exact H2|]. split; [exact H3|].
  intros res Hres. destruct (H4 res Hres) as (res' & -> & Hsub). exact Hsub.
Qed.

End PipelineFacts.

Section PipelineExamples.
Import Examples.

Lemma three_entities_loggable :
  Forall (loggable (heap three_entities)) [0%nat; 1%nat; 2%nat].
Proof.
  repeat constructor; eexists; (split; [reflexivity|]); intros _; eexists; reflexivity.
Defined.

Lemma decode_strings_distinct_witness :
  exists w',
    decode_strings drop_first [0%nat; 1%nat; 2%nat] three_entities
      = (Ret (List.filter (decodes drop_first (heap three_entities)) [0%nat; 1%nat; 2%nat]), w') /\
    (forall r : ref, heap w' !! r =
               if bool_decide (r ∈ [0%nat; 1%nat; 2%nat])
               then decoded_entity drop_first <$> heap three_entities !! r
               else heap three_entities !! r) /\
    debug w' = debug three_entities
               ++ omap (decode_message drop_first (heap three_entities)) [0%nat; 1%nat; 2%nat] /\
    Forall (fun r => exists e', heap w' !! r = Some e' /\ truthy (decoded_data e') = true)
      (List.filter (decodes drop_first (heap three_entities)) [0%nat; 1%nat; 2%nat]).
Proof.
  apply (decode_strings_distinct drop_first three_entities [0%nat; 1%nat; 2%nat]).
  - repeat constructor; intros Hin;
      repeat (apply elem_of_cons in Hin as [Hin|Hin]; [discriminate|]);
      apply elem_of_nil in Hin; exact Hin.
  - exact three_entities_loggable.
Defined.

(** On the three example entities the first is returned, the second is
    skipped and the third is dropped. *)
Example decode_strings_three :
  fst (decode_strings drop_first [0%nat; 1%nat; 2%nat] three_entities) = Ret [0%nat] /\
  debug (snd (decode_strings drop_first [0%nat; 1%nat; 2%nat] three_entities))
    = [UnableToFindString 0x2000; FailedToDecode 2%nat].
Proof. split; vm_compute; reflexivity. Qed.

Lemma decode_strings_frame_witness :
  length (heap (snd (decode_strings drop_first [0%nat; 0%nat; 1%nat] three_entities)))
    = length (heap three_entities) /\
  (forall (r : ref) e, heap three_entities !! r = Some e ->
     exists v, heap (snd (decode_strings drop_first [0%nat; 0%nat; 1%nat] three_entities)) !! r
               = Some (set_decoded_data v e)) /\
  db (snd (decode_strings drop_first [0%nat; 0%nat; 1%nat] three_entities))
    = db three_entities /\
  (forall res,
     fst (decode_strings drop_first [0%nat; 0%nat; 1%nat] three_entities) = Ret res ->
     sublist res [0%nat; 0%nat; 1%nat]).
Proof.
  apply (decode_strings_frame drop_first three_entities [0%nat; 0%nat; 1%nat]).
  apply surjective_pairing.
Defined.

End PipelineExamples.

(** ** Building entities *)

Section EntityFacts.
Context `{IDA}.

(** X8.  Constructing an [EncodedString] never raises: the size error of
    [get_bytes] cannot occur inside the constructor.  The new entity has
    the attributes given, no decoded data and no code page; its
    [encoded_data] is [INVALID] when no size is given or the host cannot
    read the bytes, the empty string when the size is 0, and the bytes the
    host returns otherwise. *)
Theorem constructor_never_raises (d : idb) location reference sz off k :
  exists e,
    EncodedString__init__ d location reference sz off k = Ret e /\
    string_location e = location /\ string_reference e = reference /\
    size e = sz /\ offset e = off /\ key e = k /\
    decoded_data e = VInt INVALID /\ code_page e = None /\ stack e = None /\
    encoded_data e =
      (if unset sz then VInt INVALID
       else if truthy_attr sz then
              match get_many_bytes d location sz with
              | Some b => VStr b
              | None => VInt INVALID
              end
            else VStr []).
Proof.
  unfold EncodedString__init__, init_entity.
  destruct sz as [n|]; simpl.
  - unfold INVALID. destruct (Z.eqb_spec n (-1)) as [->|Hn]; simpl.
    + eexists. repeat split.
    + unfold get_bytes. simpl. rewrite bool_decide_false by (unfold INVALID; congruence).
      simpl. destruct (Z.eqb_spec n 0); simpl; eexists; repeat split.
  - eexists. repeat split.
Qed.

(** X9.  A stack string never has bytes: whatever size is given, the
    constructor of [EncodedStackString] returns an entity whose
    [encoded_data] is [INVALID] and whose location is [INVALID], and
    [get_bytes] on it returns [INVALID] without raising. *)
Theorem stack_string_has_no_bytes (d : idb) frame off_in_frame ptr reference sz off k :
  exists e,
    EncodedStackString__init__ d frame off_in_frame ptr reference sz off k = Ret e /\
    encoded_data e = VInt INVALID /\
    string_location e = Some INVALID /\
    size e = sz /\
    get_bytes d e = Ret (VInt INVALID).
Proof.
  unfold EncodedStackString__init__, init_entity.
  destruct (unset sz); simpl; eexists; repeat split.
Qed.

Lemma constructor_sized (d : idb) location reference sz off k e :
  EncodedString__init__ d location reference sz off k = Ret e -> sized e.
Proof.
  intros He.
  destruct (constructor_never_raises d location reference sz off k)
    as (e' & He' & _ & _ & Hsz & _ & _ & _ & _ & _ & Henc).
  rewrite He in He'. injection He' as <-.
  unfold sized. rewrite Hsz, Henc. destruct (unset sz); [congruence | reflexivity].
Qed.

End EntityFacts.

(** ** The state monad *)

Section RunFacts.
Context `{IDA}.

Lemma bind_inv {A B} (m : M A) (f : A -> M B) (w : World) o w' :
  bind m f w = (o, w') ->
  (exists a w1, m w = (Ret a, w1) /\ f a w1 = (o, w')) \/
  (exists e, m w = (Raise e, w') /\ o = Raise e) \/
  (m w = (OutOfFuel, w') /\ o = OutOfFuel).
Proof.
  unfold bind. destruct (m w) as [[a|e|] w1]; intros Hrun.
  - left. eauto.
  - right. left. injection Hrun as <- <-. eauto.
  - right. right. injection Hrun as <- <-. eauto.
Qed.

Lemma bind_Ret_inv {A B} (m : M A) (f : A -> M B) (w : World) b w' :
  bind m f w = (Ret b, w') ->
  exists a w1, m w = (Ret a, w1) /\ f a w1 = (Ret b, w').
Proof.
  intros [Hret | [(e & _ & He) | (_ & He)]]%bind_inv; [exact Hret | discriminate..].
Qed.

Lemma catch_never {A} (m handler : M A) e (w : World) :
  (forall w1, fst (handler w1) <> Raise e) ->
  fst (catch m e handler w) <> Raise e.
Proof.
  intros Hh. unfold catch. destruct (m w) as [[a|e'|] w1]; simpl; try discriminate.
  case_bool_decide as He; [apply Hh | simpl; congruence].
Qed.

End RunFacts.

(** ** The Function Locator *)

Section LocatorFacts.
Context `{IDA}.

Lemma SuperFunc_t_found (w : World) ea id create f :
  get_func (db w) ea = Some f ->
  SuperFunc_t__init__ ea id create w =
    (Ret {| origin_ea := ea; identifier := id; function_obj := f;
            name := get_func_name (db w) (startEA f);
            xrefs_to := filter (fun frm => get_func_name (db w) frm
                                             <> get_func_name (db w) (startEA f))
                          (XrefsTo (db w) (startEA f));
            xref_count := Py.len (filter (fun frm => get_func_name (db w) frm
                                             <> get_func_name (db w) (startEA f))
                          (XrefsTo (db w) (startEA f))) |}, w).
Proof.
  intros Hf. unfold SuperFunc_t__init__, bind, get, ret. rewrite Hf. reflexivity.
Qed.

(** X10.  When a function contains the address, [SuperFunc_t] is built
    without changing anything, and its [xrefs_to] is the host's list of
    references to the function's start with the references whose own
    function name is the function's name taken out: the others are kept
    in the host's order, each as many times as the host lists it;
    [xref_count] is the length of that list.  When the host gives every
    address inside the function the function's name, no reference kept
    lies inside the function. *)
Theorem SuperFunc_t_references (w : World) ea id create f :
  get_func (db w) ea = Some f ->
  exists sf,
    SuperFunc_t__init__ ea id create w = (Ret sf, w) /\
    function_obj sf = f /\
    name sf = get_func_name (db w) (startEA f) /\
    xrefs_to sf = filter (fun frm => get_func_name (db w) frm <> name sf)
                    (XrefsTo (db w) (startEA f)) /\
    (forall frm, frm ∈ xrefs_to sf <->
       frm ∈ XrefsTo (db w) (startEA f) /\ get_func_name (db w) frm <> name sf) /\
    sublist (xrefs_to sf) (XrefsTo (db w) (startEA f)) /\
    xref_count sf = Py.len (xrefs_to sf) /\
    ((forall frm, get_func (db w) frm = Some f ->
        get_func_name (db w) frm = get_func_name (db w) (startEA f)) ->
     Forall (fun frm => get_func (db w) frm <> Some f) (xrefs_to sf)).
Proof.
  intros Hf. eexists. split; [apply SuperFunc_t_found, Hf|]. simpl.
  split; [reflexivity|]. split; [reflexivity|]. split; [reflexivity|].
  split; [intros frm; rewrite list_elem_of_filter; tauto|].
  split; [apply sublist_filter|]. split; [reflexivity|].
  intros Hname. apply Forall_forall. intros frm [Hne _]%list_elem_of_filter Hin.
  apply Hne, Hname, Hin.
Qed.

(** X11.  Whatever the host does, building a [SuperFunc_t] touches no
    entity; the only exception it raises is [AttributeError], and then no
    function contained the address at the start and nothing was logged;
    when it returns, the object's function is the one that the host
    reports at the address in the final database, and the log has grown
    by at most the message of a created function. *)
Theorem SuperFunc_t_outcome (w : World) ea id create o w' :
  SuperFunc_t__init__ ea id create w = (o, w') ->
  heap w' = heap w /\
  o <> OutOfFuel /\
  (forall e, o = Raise e ->
     e = AttributeError /\ get_func (db w) ea = None /\ debug w' = debug w) /\
  (forall sf, o = Ret sf ->
     get_func (db w') ea = Some (function_obj sf) /\
     origin_ea sf = ea /\ identifier sf = id /\
     (debug w' = debug w \/
      get_func (db w) ea = None /\ create = true /\
      debug w' = debug w ++ [CreatedFunction (startEA (function_obj sf))])).
Proof.
  destruct (get_func (db w) ea) as [f|] eqn:Hf.
  - rewrite (SuperFunc_t_found w ea id create f Hf). intros [= <- <-].
    split; [reflexivity|]. split; [discriminate|]. split; [discriminate|].
    intros sf [= <-]. simpl. auto.
  - assert (Hfail : forall w1 : World, heap w1 = heap w -> debug w1 = debug w ->
              (Raise AttributeError, w1) = (o, w') ->
              heap w' = heap w /\ o <> OutOfFuel /\
              (forall e, o = Raise e ->
                 e = AttributeError /\ (None : option func_t) = None /\ debug w' = debug w) /\
              (forall sf, o = Ret sf ->
                 get_func (db w') ea = Some (function_obj sf) /\
                 origin_ea sf = ea /\ identifier sf = id /\
                 (debug w' = debug w \/
                  (None : option func_t) = None /\ create = true /\
                  debug w' = debug w ++ [CreatedFunction (startEA (function_obj sf))]))).
    { intros w1 Hh Hd [= <- <-]. split; [exact Hh|]. split; [discriminate|].
      split; [|discriminate]. intros e [= <-]. auto. }
    unfold SuperFunc_t__init__, bind at 1, get at 1. rewrite Hf.
    destruct create.
    + unfold bind at 1, bind at 1, ida at 1.
      destruct (create_function_precise ea (db w)) as [created d] eqn:Hc.
      destruct created.
      * unfold bind at 1, get at 1. cbn [db with_db].
        destruct (get_func d ea) as [f|] eqn:Hf'.
        -- unfold bind, append_debug, modify, get, ret. cbn.
           intros [= <- <-]. cbn.
           split; [reflexivity|]. split; [discriminate|]. split; [discriminate|].
           intros sf [= <-]. cbn. split; [exact Hf'|].
           split; [reflexivity|]. split; [reflexivity|]. right.
           split; [reflexivity|]. split; reflexivity.
        -- apply Hfail; reflexivity.
      * apply Hfail; reflexivity.
    + apply Hfail; reflexivity.
Qed.

End LocatorFacts.

Section LocatorExamples.

Lemma SuperFunc_t_references_witness :
  exists sf,
    SuperFunc_t__init__ 0x401020 None true Hosts.at_rest = (Ret sf, Hosts.at_rest) /\
    xrefs_to sf = [0x402010; 0x402020] /\ xref_count sf = 2.
Proof.
  destruct (SuperFunc_t_references Hosts.at_rest 0x401020 None true
              {| startEA := 0x401000; endEA := 0x401100 |} eq_refl)
    as (sf & Hrun & _).
  exists sf. split; [exact Hrun|].
  vm_compute in Hrun. injection Hrun as <-. split; reflexivity.
Defined.

(** A reference that the host lists twice is kept twice and counted
    twice. *)
Example SuperFunc_t_keeps_repeated_references :
  exists sf,
    SuperFunc_t__init__ 0x401020 None true (Hosts.world_of Hosts.repeated_call "sample.bin")
      = (Ret sf, Hosts.world_of Hosts.repeated_call "sample.bin") /\
    xrefs_to sf = [0x402010; 0x402010; 0x402020] /\ xref_count sf = 3.
Proof. eexists. split; [vm_compute; reflexivity|]. split; reflexivity. Qed.

Lemma SuperFunc_t_outcome_witness :
  SuperFunc_t__init__ 0x500000 None true Hosts.at_rest
    = (Raise AttributeError, Hosts.at_rest) /\
  get_func (db Hosts.at_rest) 0x500000 = None.
Proof.
  split; [reflexivity|].
  destruct (SuperFunc_t_outcome Hosts.at_rest 0x500000 None true
              (Raise AttributeError) Hosts.at_rest eq_refl) as (_ & _ & Hraise & _).
  apply (Hraise AttributeError eq_refl).
Defined.

End LocatorExamples.

(** ** The discovery drivers *)

Section DriverFacts.
Context `{IDA}.
Variable Tracer : TracerClass.

Lemma find_encoded_strings_inline_from_swallows matches :
  forall acc (w : World),
    fst (find_encoded_strings_inline_from Tracer matches acc w) <> Raise AttributeError.
Proof.
  induction matches as [|[ea id] matches IH]; intros acc w; [discriminate|].
  cbn [find_encoded_strings_inline_from]. unfold bind at 1.
  match goal with
  | |- context [catch ?m ?e ?h w] =>
      pose proof (catch_never m h e w) as Hc; destruct (catch m e h w) as [[a|e'|] w1]
  end.
  - apply IH.
  - apply Hc. intros w2. discriminate.
  - discriminate.
Qed.

Lemma trace_callers_swallows func refs :
  forall acc (w : World),
    fst (trace_callers Tracer func refs acc w) <> Raise AttributeError.
Proof.
  induction refs as [|ref refs IH]; intros acc w; [discriminate|].
  cbn [trace_callers]. unfold bind at 1, get at 1. unfold bind at 1.
  case_bool_decide as Hseg.
  - unfold bind at 1, append_debug at 1, modify at 1, ret at 1. apply IH.
  - match goal with
    | |- context [catch ?m ?e ?h w] =>
        pose proof (catch_never m h e w) as Hc; destruct (catch m e h w) as [[a|e'|] w1]
    end.
    + apply IH.
    + apply Hc. intros w2. discriminate.
    + discriminate.
Qed.

Lemma find_encoded_strings_from_swallows funcs :
  forall acc (w : World),
    fst (find_encoded_strings_from Tracer funcs acc w) <> Raise AttributeError.
Proof.
  induction funcs as [|func funcs IH]; intros acc w; [discriminate|].
  cbn [find_encoded_strings_from]. unfold bind at 1.
  pose proof (trace_callers_swallows func (xrefs_to func) acc w) as Hc.
  destruct (trace_callers Tracer func (xrefs_to func) acc w) as [[a|e'|] w1].
  - apply IH.
  - exact Hc.
  - discriminate.
Qed.

(** X12.  Neither discovery driver ever raises [AttributeError], whatever
    the tracer's [search] does and whatever the matches or functions
    are: a missing function and an [AttributeError] of the tracer are
    both caught at the address where they occur. *)
Theorem drivers_swallow_AttributeError matches funcs (w : World) :
  fst (find_encoded_strings_inline Tracer matches w) <> Raise AttributeError /\
  fst (find_encoded_strings Tracer funcs w) <> Raise AttributeError.
Proof.
  split.
  - apply find_encoded_strings_inline_from_swallows.
  - apply find_encoded_strings_from_swallows.
Qed.

Lemma trace_at_no_function ea id acc (w : World) :
  get_func (db w) ea = None ->
  trace_at Tracer ea id acc w = (Raise AttributeError, w).
Proof.
  intros Hf. unfold trace_at, bind at 1, StringTracer__init__, bind at 1, get at 1.
  rewrite Hf. reflexivity.
Qed.

Lemma find_encoded_strings_inline_from_outside matches :
  forall acc (w : World),
    Forall (fun m => get_func (db w) (fst m) = None) matches ->
    find_encoded_strings_inline_from Tracer matches acc w =
      (Ret acc, with_debug (debug w ++ map (fun m => ErrorTracing (fst m)) matches) w).
Proof.
  induction matches as [|[ea id] matches IH]; intros acc w Hall.
  - simpl. rewrite app_nil_r. destruct w; reflexivity.
  - apply Forall_cons in Hall as [Hea Hall]. simpl in Hea.
    cbn [find_encoded_strings_inline_from]. unfold bind at 1, catch at 1, bind at 1.
    rewrite (trace_at_no_function ea (Some id) acc w Hea).
    rewrite bool_decide_true by reflexivity.
    unfold bind at 1, append_debug at 1, modify at 1, ret at 1.
    rewrite IH by exact Hall. cbn. rewrite <- app_assoc. reflexivity.
Qed.

(** X13.  When no match lies inside a function, the inline driver
    returns no entity, never calls the tracer's [search], and logs one
    tracing error per match, in order; nothing else changes. *)
Theorem inline_matches_outside_functions matches (w : World) :
  Forall (fun m => get_func (db w) (fst m) = None) matches ->
  find_encoded_strings_inline Tracer matches w =
    (Ret [], with_debug (debug w ++ map (fun m => ErrorTracing (fst m)) matches) w).
Proof.
  apply find_encoded_strings_inline_from_outside.
Qed.

Lemma trace_callers_untraceable func refs :
  forall acc (w : World),
    Forall (untraceable (db w)) refs ->
    trace_callers Tracer func refs acc w =
      (Ret acc, with_debug (debug w ++ map (caller_message (db w)) refs) w).
Proof.
  induction refs as [|ref refs IH]; intros acc w Hall.
  - simpl. rewrite app_nil_r. destruct w; reflexivity.
  - apply Forall_cons in Hall as [Href Hall].
    cbn [trace_callers]. unfold bind at 1, get at 1. unfold bind at 1.
    cbn [map]. unfold caller_message at 1.
    case_bool_decide as Hseg.
    + unfold bind at 1, append_debug at 1, modify at 1, ret at 1.
      rewrite IH by exact Hall. cbn. rewrite <- app_assoc. reflexivity.
    + destruct Href as [Href|Href]; [contradiction|].
      unfold catch at 1, bind at 1.
      rewrite (trace_at_no_function ref (identifier func) acc w Href).
      rewrite bool_decide_true by reflexivity.
      unfold bind at 1, append_debug at 1, modify at 1, ret at 1.
      rewrite IH by exact Hall. cbn. rewrite <- app_assoc. reflexivity.
Qed.

Lemma find_encoded_strings_from_untraceable funcs :
  forall acc (w : World),
    Forall (fun func => Forall (untraceable (db w)) (xrefs_to func)) funcs ->
    find_encoded_strings_from Tracer funcs acc w =
      (Ret acc,
       with_debug (debug w ++ concat (map (fun func => map (caller_message (db w)) (xrefs_to func)) funcs)) w).
Proof.
  induction funcs as [|func funcs IH]; intros acc w Hall.
  - simpl. rewrite app_nil_r. destruct w; reflexivity.
  - apply Forall_cons in Hall as [Hfunc Hall].
    cbn [find_encoded_strings_from]. unfold bind at 1.
    rewrite trace_callers_untraceable by exact Hfunc.
    rewrite IH by exact Hall. cbn. rewrite <- app_assoc. reflexivity.
Qed.

(** X14.  When every caller of every function lies in the [.pdata]
    segment or in no function, the reference driver returns no entity,
    never calls the tracer's [search], and logs one message per caller,
    in order: the skip message for a [.pdata] caller, the
    missing-function message for the others. *)
Theorem callers_untraceable funcs (w : World) :
  Forall (fun func => Forall (untraceable (db w)) (xrefs_to func)) funcs ->
  find_encoded_strings Tracer funcs w =
    (Ret [],
     with_debug (debug w ++ concat (map (fun func => map (caller_message (db w)) (xrefs_to func)) funcs)) w).
Proof.
  apply find_encoded_strings_from_untraceable.
Qed.

End DriverFacts.

Section DriverExamples.

Lemma inline_matches_outside_functions_witness :
  find_encoded_strings_inline Hosts.finds_nothing
      [(0x500000, "$a"%string); (0x500010, "$b"%string)] Hosts.at_rest =
    (Ret [], with_debug [ErrorTracing 0x500000; ErrorTracing 0x500010] Hosts.at_rest).
Proof.
  apply (inline_matches_outside_functions Hosts.finds_nothing
           [(0x500000, "$a"%string); (0x500010, "$b"%string)] Hosts.at_rest).
  repeat constructor.
Defined.

Lemma callers_untraceable_witness :
  find_encoded_strings Hosts.finds_nothing [Hosts.orphan_callers] Hosts.at_rest =
    (Ret [], with_debug [NoFunctionExists 0x500000; NoFunctionExists 0x500010] Hosts.at_rest).
Proof.
  apply (callers_untraceable Hosts.finds_nothing [Hosts.orphan_callers] Hosts.at_rest).
  repeat constructor; right; reflexivity.
Defined.

End DriverExamples.

(** ** The Pattern Matcher *)

Section MatcherFacts.
Context `{IDA} `{System}.

Lemma yara_hits_cons (d : idb) data rules :
  yara_hits d (data :: rules) =
    (if matches data
     then map (fun datum => (ItemHead d (get_fileregion_ea d (fst datum)), snd datum))
            (strings data)
     else []) ++ yara_hits d rules.
Proof. reflexivity. Qed.

Lemma run_callbacks_spec rules : forall w : World,
  run_callbacks rules w =
    (Ret tt, with_yara_matches (_YARA_MATCHES w ++ yara_hits (db w) rules) w).
Proof.
  induction rules as [|data rules IH]; intros w.
  - simpl. unfold yara_hits. simpl. rewrite app_nil_r. destruct w; reflexivity.
  - cbn [run_callbacks]. unfold bind at 1, _yara_callback.
    rewrite yara_hits_cons. destruct (matches data); cbn [negb].
    + unfold modify at 1. rewrite IH. cbn. rewrite <- app_assoc. reflexivity.
    + unfold ret at 1. rewrite IH. reflexivity.
Qed.

Lemma yara_hits_none (d : idb) rules :
  List.filter matches rules = [] -> yara_hits d rules = [].
Proof.
  induction rules as [|data rules IH]; [reflexivity|].
  rewrite yara_hits_cons. simpl. destruct (matches data); [discriminate|]. exact IH.
Qed.

Lemma yara_match_spec rule_text rules (w : World) :
  yara_scan rule_text (INPUT_FILE_PATH w) = Some rules ->
  yara_match rule_text (with_yara_matches [] w) =
    (Ret (List.filter matches rules), with_yara_matches (yara_hits (db w) rules) w).
Proof.
  intros Hscan. unfold yara_match, bind at 1, get at 1. cbn [INPUT_FILE_PATH with_yara_matches].
  rewrite Hscan. unfold bind at 1. rewrite run_callbacks_spec. reflexivity.
Qed.

(** X15.  When the rule text compiles, [generic_run_yara] returns, and
    leaves in [_YARA_MATCHES], exactly the strings of the rules that
    matched, each paired with the head of the item at its file offset,
    in scan order.  The result does not depend on the matches recorded
    by an earlier scan, and nothing else changes. *)
Theorem generic_run_yara_fresh rule_text rules (w : World) :
  yara_scan rule_text (INPUT_FILE_PATH w) = Some rules ->
  generic_run_yara rule_text w =
    (Ret (yara_hits (db w) rules), with_yara_matches (yara_hits (db w) rules) w).
Proof.
  intros Hscan. unfold generic_run_yara, bind at 1, modify at 1.
  unfold bind at 1. rewrite (yara_match_spec rule_text rules w Hscan). reflexivity.
Qed.

Lemma SuperFunc_t_rename_frame self new_name (w : World) :
  exists r w', SuperFunc_t_rename self new_name w = (Ret r, w') /\
    origin_ea (fst r) = origin_ea self /\ identifier (fst r) = identifier self /\
    function_obj (fst r) = function_obj self /\
    heap w' = heap w.
Proof.
  unfold SuperFunc_t_rename. case_bool_decide.
  - unfold bind at 1, ida at 1.
    destruct (set_name _ _ (db w)) as [[] d];
      unfold bind, get, append_debug, modify, ret; cbn; eauto 10.
  - unfold bind at 1, ida at 1.
    destruct (do_name_anyway _ _ (db w)) as [[] d].
    + unfold bind at 1, get at 1. unfold bind at 1. case_bool_decide;
        unfold append_debug, modify, ret; cbn; eauto 10.
    + unfold bind, get, append_debug, modify, ret; cbn; eauto 10.
Qed.

Lemma make_superfunc_t_from_spec matches func_name :
  forall acc (w : World) o w',
    make_superfunc_t_from matches func_name acc w = (o, w') ->
    heap w' = heap w /\
    (forall e, o = Raise e -> e = AttributeError) /\
    o <> OutOfFuel /\
    (forall funcs, o = Ret funcs ->
       (NoDup (map SuperFunc_t_key acc) -> NoDup (map SuperFunc_t_key funcs)) /\
       (exists more, funcs = acc ++ more /\
          Forall (fun func => origin_ea func <> BADADDR /\
                    exists id, (origin_ea func, id) ∈ matches /\
                               identifier func = Some id) more)).
Proof.
  induction matches as [|[ea id] matches IH]; intros acc w o w' Hrun.
  - injection Hrun as <- <-. split; [reflexivity|]. split; [discriminate|].
    split; [discriminate|]. intros funcs [= <-]. split; [auto|].
    exists []. rewrite app_nil_r. split; [reflexivity | constructor].
  - cbn [make_superfunc_t_from] in Hrun.
    assert (Hweak : forall acc1 (w1 : World), heap w1 = heap w ->
              (exists more1, acc1 = acc ++ more1 /\
                 (NoDup (map SuperFunc_t_key acc) -> NoDup (map SuperFunc_t_key acc1)) /\
                 Forall (fun func => origin_ea func <> BADADDR /\
                    exists id0, (origin_ea func, id0) ∈ (ea, id) :: matches /\
                                identifier func = Some id0) more1) ->
              make_superfunc_t_from matches func_name acc1 w1 = (o, w') ->
              heap w' = heap w /\
              (forall e, o = Raise e -> e = AttributeError) /\
              o <> OutOfFuel /\
              (forall funcs, o = Ret funcs ->
                 (NoDup (map SuperFunc_t_key acc) -> NoDup (map SuperFunc_t_key funcs)) /\
                 (exists more, funcs = acc ++ more /\
                    Forall (fun func => origin_ea func <> BADADDR /\
                       exists id0, (origin_ea func, id0) ∈ (ea, id) :: matches /\
                                   identifier func = Some id0) more))).
    { intros acc1 w1 Hh (more1 & -> & Hnd1 & Hmore1) Hrest.
      destruct (IH _ _ _ _ Hrest) as (Hheap & Hexn & Hfuel & Hret).
      split; [congruence|]. split; [exact Hexn|]. split; [exact Hfuel|].
      intros funcs Ho. destruct (Hret funcs Ho) as (Hnd & more & -> & Hmore).
      split; [auto|]. exists (more1 ++ more). split; [apply eq_sym, app_assoc|].
      apply Forall_app. split; [exact Hmore1|].
      eapply Forall_impl; [exact Hmore|]. intros func (Hbad & id0 & Hin & Hid).
      split; [exact Hbad|]. exists id0. split; [right; exact Hin | exact Hid]. }
    destruct (Z.eqb_spec ea BADADDR) as [Hbad|Hbad].
    + apply (Hweak acc w eq_refl); [|exact Hrun].
      exists []. rewrite app_nil_r. split; [reflexivity|]. split; [auto | constructor].
    + apply bind_inv in Hrun as [(func & w1 & Hinit & Hrun) | [(e & Hinit & ->) | (Hinit & ->)]].
      * destruct (SuperFunc_t_outcome _ _ _ _ _ _ Hinit) as (Hh1 & _ & _ & Hsf).
        destruct (Hsf func eq_refl) as (_ & Hor & Hid & _).
        apply bind_inv in Hrun as [(func' & w2 & Hren & Hrun) | [(e & Hren & ->) | (Hren & ->)]].
        -- assert (Hfunc' : origin_ea func' = ea /\ identifier func' = Some id /\
                             heap w2 = heap w).
           { destruct func_name as [n|].
             - destruct (SuperFunc_t_rename_frame func n w1) as (r & w3 & Hr & Ho & Hi & _ & Hh).
               unfold bind in Hren. rewrite Hr in Hren. injection Hren as <- <-.
               repeat split; congruence.
             - injection Hren as <- <-. repeat split; assumption. }
           destruct Hfunc' as (Hor' & Hid' & Hh2).
           refine (Hweak _ w2 Hh2 _ Hrun).
           case_bool_decide as Hseen.
           ++ exists []. rewrite app_nil_r. split; [reflexivity|]. split; [auto | constructor].
           ++ exists [func']. split; [reflexivity|]. split.
              ** intros Hnd. rewrite map_app. apply NoDup_app. split; [exact Hnd|].
                 split; [|apply NoDup_singleton].
                 intros k Hk ->%list_elem_of_singleton. contradiction.
              ** constructor; [|constructor]. split; [congruence|].
                 exists id. split; [rewrite Hor'; left | exact Hid'].
        -- exfalso. destruct func_name as [n|]; [|discriminate].
           destruct (SuperFunc_t_rename_frame func n w1) as (r & w3 & Hr & _).
           unfold bind in Hren. rewrite Hr in Hren. discriminate.
        -- exfalso. destruct func_name as [n|]; [|discriminate].
           destruct (SuperFunc_t_rename_frame func n w1) as (r & w3 & Hr & _).
           unfold bind in Hren. rewrite Hr in Hren. discriminate.
      * destruct (SuperFunc_t_outcome _ _ _ _ _ _ Hinit) as (Hh1 & _ & Hexn & _).
        split; [exact Hh1|]. split; [|split; discriminate].
        intros e' [= <-]. apply (Hexn e eq_refl).
      * destruct (SuperFunc_t_outcome _ _ _ _ _ _ Hinit) as (_ & Hfuel & _).
        contradiction.
Qed.

(** X16.  The function objects that [make_superfunc_t_from_matches]
    returns have pairwise different keys (name, start, end); each was
    built at the address of a match other than the host's invalid
    address and carries that match's identifier; no entity is touched. *)
Theorem decode_functions_distinct matches func_name (w : World) funcs w' :
  make_superfunc_t_from_matches matches func_name w = (Ret funcs, w') ->
  NoDup (map SuperFunc_t_key funcs) /\
  Forall (fun func => origin_ea func <> BADADDR /\
            exists id, (origin_ea func, id) ∈ matches /\ identifier func = Some id) funcs /\
  heap w' = heap w.
Proof.
  intros Hrun. destruct (make_superfunc_t_from_spec _ _ _ _ _ _ Hrun) as (Hh & _ & _ & Hret).
  destruct (Hret funcs eq_refl) as (Hnd & more & -> & Hmore).
  split; [apply Hnd; constructor|]. split; [exact Hmore | exact Hh].
Qed.

Lemma make_superfunc_t_from_matches_no_RuntimeError matches func_name (w : World) :
  fst (make_superfunc_t_from_matches matches func_name w) <> Raise RuntimeError.
Proof.
  destruct (make_superfunc_t_from_matches matches func_name w) as [o w'] eqn:Hrun.
  destruct (make_superfunc_t_from_spec _ _ _ _ _ _ Hrun) as (_ & Hexn & _).
  simpl. intros ->. specialize (Hexn RuntimeError eq_refl). discriminate.
Qed.

(** X17.  When the rule text compiles, [yara_find_decode_functions]
    raises [RuntimeError] exactly when no rule matched; it then leaves
    [_YARA_MATCHES] empty and changes nothing else. *)
Theorem no_match_raises_RuntimeError rule_text func_name rules (w : World) :
  yara_scan rule_text (INPUT_FILE_PATH w) = Some rules ->
  (List.filter matches rules = [] ->
     yara_find_decode_functions rule_text func_name w
       = (Raise RuntimeError, with_yara_matches [] w)) /\
  (fst (yara_find_decode_functions rule_text func_name w) = Raise RuntimeError ->
     List.filter matches rules = []).
Proof.
  intros Hscan.
  assert (Hrun : yara_find_decode_functions rule_text func_name w =
            (if bool_decide (List.filter matches rules = []) then raise RuntimeError
             else run found <- get _YARA_MATCHES;
                  make_superfunc_t_from_matches found func_name)
              (with_yara_matches (yara_hits (db w) rules) w)).
  { unfold yara_find_decode_functions, bind at 1, modify at 1.
    unfold bind at 1. rewrite (yara_match_spec rule_text rules w Hscan). reflexivity. }
  rewrite Hrun. split.
  - intros Hnone. rewrite bool_decide_true by exact Hnone.
    rewrite (yara_hits_none (db w) rules Hnone). reflexivity.
  - case_bool_decide as Hnone; [intros _; exact Hnone|].
    unfold bind, get. intros Hraise.
    exfalso. exact (make_superfunc_t_from_matches_no_RuntimeError _ _ _ Hraise).
Qed.

End MatcherFacts.

Section MatcherExamples.

Lemma generic_run_yara_fresh_witness :
  generic_run_yara "decode" (with_yara_matches [(0, "$old"%string)] Hosts.input_found) =
    (Ret [(0x401020, "$a"%string); (0x401040, "$b"%string)],
     with_yara_matches [(0x401020, "$a"%string); (0x401040, "$b"%string)] Hosts.input_found).
Proof.
  assert (Hscan : yara_scan "decode"
            (INPUT_FILE_PATH (with_yara_matches [(0, "$old"%string)] Hosts.input_found))
            = Some Hosts.decode_rules).
  { vm_compute. reflexivity. }
  apply (generic_run_yara_fresh "decode" Hosts.decode_rules
           (with_yara_matches [(0, "$old"%string)] Hosts.input_found) Hscan).
Defined.

Lemma decode_functions_distinct_witness :
  make_superfunc_t_from_matches Hosts.three_matches None Hosts.input_found
    = (Ret [Hosts.decode_function], Hosts.input_found) /\
  NoDup (map SuperFunc_t_key [Hosts.decode_function]).
Proof.
  split; [reflexivity|].
  apply (decode_functions_distinct Hosts.three_matches None Hosts.input_found
           [Hosts.decode_function] Hosts.input_found eq_refl).
Defined.

Lemma no_match_raises_RuntimeError_witness :
  yara_find_decode_functions "absent" None Hosts.input_found
    = (Raise RuntimeError, with_yara_matches [] Hosts.input_found).
Proof.
  assert (Hscan : yara_scan "absent" (INPUT_FILE_PATH Hosts.input_found)
            = Some Hosts.absent_rules).
  { vm_compute. reflexivity. }
  apply (no_match_raises_RuntimeError "absent" None Hosts.absent_rules
           Hosts.input_found Hscan).
  reflexivity.
Defined.

End MatcherExamples.

(** ** The engine entry point *)

Section EngineFacts.
Context `{IDA} `{System} `{Codecs}.

Lemma find_input_file_known (w : World) :
  path_exists (INPUT_FILE_PATH w) = true -> find_input_file w = (Ret true, w).
Proof.
  intros Hp. unfold find_input_file, bind at 1, get at 1. rewrite Hp. reflexivity.
Qed.

Lemma with_encoded_strings_twice l1 l2 (w : World) :
  with_encoded_strings l1 (with_encoded_strings l2 w) = with_encoded_strings l1 w.
Proof. reflexivity. Qed.

Lemma with_encoded_strings_same (w : World) :
  with_encoded_strings (ENCODED_STRINGS w) w = w.
Proof. destruct w; reflexivity. Qed.

(** X18.  With a tracer class that extends [StringTracer], an input file
    that exists and a rule text that compiles but matches nothing, the
    two modes of [string_decoder_main] end differently: the reference
    mode returns nothing and logs that the rule failed to match; the
    inline mode returns the empty list of strings, records no entity and
    logs nothing.  In both, [_YARA_MATCHES] is left empty and neither the
    entities nor the database change. *)
Theorem no_match_in_either_mode yara_rule Tracer decode do_patch func_name rules
    (w : World) :
  extends_StringTracer Tracer = true ->
  path_exists (INPUT_FILE_PATH w) = true ->
  yara_scan yara_rule (INPUT_FILE_PATH w) = Some rules ->
  List.filter matches rules = [] ->
  string_decoder_main yara_rule Tracer decode do_patch func_name false w
    = (Ret None, with_debug (debug w ++ [YaraFailedToMatch]) (with_yara_matches [] w)) /\
  string_decoder_main yara_rule Tracer decode do_patch func_name true w
    = (Ret (Some []), with_encoded_strings [] (with_yara_matches [] w)).
Proof.
  intros Hext Hpath Hscan Hnone.
  unfold string_decoder_main. rewrite Hext. cbn [negb].
  split.
  - unfold bind at 1. rewrite (find_input_file_known w Hpath). cbn [negb].
    unfold catch, bind at 1, bind at 1.
    destruct (no_match_raises_RuntimeError yara_rule func_name rules w Hscan) as [Hraise _].
    rewrite (Hraise Hnone). reflexivity.
  - unfold bind at 1. rewrite (find_input_file_known w Hpath). cbn [negb].
    unfold catch, bind at 1, bind at 1.
    rewrite (generic_run_yara_fresh yara_rule rules w Hscan).
    rewrite (yara_hits_none (db w) rules Hnone).
    destruct do_patch; reflexivity.
Qed.

(** X19.  A [RuntimeError] raised by the tracer is reported as a rule
    that failed to match.  In inline mode, with a tracer class that
    extends [StringTracer], an input file that exists and a rule whose
    first match lies inside a function, when the tracer's [search] at
    that match raises [RuntimeError], [string_decoder_main] returns
    nothing and logs that the rule failed to match, although it matched;
    the state is the one that [search] left, and [ENCODED_STRINGS] is not
    assigned. *)
Theorem tracer_RuntimeError_reported_as_no_match yara_rule Tracer decode do_patch
    func_name rules ea id rest f (w w1 : World) :
  extends_StringTracer Tracer = true ->
  path_exists (INPUT_FILE_PATH w) = true ->
  yara_scan yara_rule (INPUT_FILE_PATH w) = Some rules ->
  yara_hits (db w) rules = (ea, id) :: rest ->
  get_func (db w) ea = Some f ->
  search Tracer {| initial_offset := Some ea; tracer_identifier := Some id;
                   func_ea := startEA f |}
         (with_yara_matches ((ea, id) :: rest) w) = (Raise RuntimeError, w1) ->
  string_decoder_main yara_rule Tracer decode do_patch func_name true w
    = (Ret None, with_debug (debug w1 ++ [YaraFailedToMatch]) w1).
Proof.
  intros Hext Hpath Hscan Hhits Hf Hsearch.
  unfold string_decoder_main. rewrite Hext. cbn [negb].
  unfold bind at 1. rewrite (find_input_file_known w Hpath). cbn [negb].
  unfold catch, bind at 1, bind at 1.
  rewrite (generic_run_yara_fresh yara_rule rules w Hscan), Hhits.
  unfold find_encoded_strings_inline. cbn [find_encoded_strings_inline_from].
  unfold bind at 1, catch at 1, bind at 1, trace_at, bind at 1.
  unfold StringTracer__init__, bind at 1, get at 1. cbn [db with_yara_matches].
  rewrite Hf. unfold ret at 1. unfold bind at 1. rewrite Hsearch.
  rewrite bool_decide_false by discriminate.
  rewrite bool_decide_true by reflexivity. reflexivity.
Qed.

End EngineFacts.

Section EngineExamples.

Lemma no_match_in_either_mode_witness :
  string_decoder_main "absent" Hosts.finds_nothing (fun _ => VNone) true None false
      Hosts.input_found
    = (Ret None, with_debug [YaraFailedToMatch] Hosts.input_found) /\
  string_decoder_main "absent" Hosts.finds_nothing (fun _ => VNone) true None true
      Hosts.input_found
    = (Ret (Some []), Hosts.input_found).
Proof.
  assert (Hscan : yara_scan "absent" (INPUT_FILE_PATH Hosts.input_found)
            = Some Hosts.absent_rules).
  { vm_compute. reflexivity. }
  assert (Hpath : path_exists (INPUT_FILE_PATH Hosts.input_found) = true).
  { vm_compute. reflexivity. }
  apply (no_match_in_either_mode "absent" Hosts.finds_nothing (fun _ => VNone) true None
           Hosts.absent_rules Hosts.input_found eq_refl Hpath Hscan eq_refl).
Defined.

Lemma tracer_RuntimeError_reported_as_no_match_witness :
  string_decoder_main "decode" Hosts.gives_up (fun _ => VNone) true None true
      Hosts.input_found
    = (Ret None,
       with_debug [YaraFailedToMatch]
         (with_yara_matches [(0x401020, "$a"%string); (0x401040, "$b"%string)]
            Hosts.input_found)).
Proof.
  assert (Hscan : yara_scan "decode" (INPUT_FILE_PATH Hosts.input_found)
            = Some Hosts.decode_rules).
  { vm_compute. reflexivity. }
  assert (Hpath : path_exists (INPUT_FILE_PATH Hosts.input_found) = true).
  { vm_compute. reflexivity. }
  apply (tracer_RuntimeError_reported_as_no_match "decode" Hosts.gives_up (fun _ => VNone)
           true None Hosts.decode_rules 0x401020 "$a"%string [(0x401040, "$b"%string)]
           {| startEA := 0x401000; endEA := 0x401100 |} Hosts.input_found
           (with_yara_matches [(0x401020, "$a"%string); (0x401040, "$b"%string)]
              Hosts.input_found)
           eq_refl Hpath Hscan eq_refl eq_refl eq_refl).
Defined.

End EngineExamples.

(** ** Stack strings in the decode pipeline *)

Section StackStringFacts.
Context `{IDA}.
Variable decode : EncodedString -> pyval.

Lemma built_on_stack_unresolved e :
  built_on_stack e -> encoded_data e = VInt INVALID /\ string_location e = Some INVALID.
Proof.
  intros (d & frame & off & ptr & reference & sz & o & k & Hinit).
  unfold EncodedStackString__init__, init_entity in Hinit.
  destruct (unset sz); simpl in Hinit; injection Hinit as <-; split; reflexivity.
Qed.

Lemma decode_strings_from_on_stack l : forall acc (w : World),
  Forall (fun r : ref => exists e, heap w !! r = Some e /\ built_on_stack e) l ->
  decode_strings_from decode l acc w =
    (Ret acc, with_debug (debug w ++ map (fun _ => UnableToFindString INVALID) l) w).
Proof.
  induction l as [|r l IH]; intros acc w Hall.
  - simpl. rewrite app_nil_r. destruct w; reflexivity.
  - apply Forall_cons in Hall as [(e & He & Hbuilt) Hall].
    destruct (built_on_stack_unresolved e Hbuilt) as [Henc Hloc].
    cbn [decode_strings_from]. unfold bind at 1, deref at 1. rewrite He.
    rewrite bool_decide_true by exact Henc. rewrite Hloc.
    unfold bind at 1, append_debug at 1, modify at 1.
    rewrite IH by exact Hall. cbn. rewrite <- app_assoc. reflexivity.
Qed.

(** X20.  Stack strings as their constructor builds them are never
    decoded: on a list of such entities, repeated or not,
    [decode_strings] returns the empty list without calling the decode
    function on any of them, leaves every entity as it is, and logs one
    message per entity, for the location [INVALID]. *)
Theorem stack_strings_are_skipped l (w : World) :
  Forall (fun r : ref => exists e, heap w !! r = Some e /\ built_on_stack e) l ->
  decode_strings decode l w =
    (Ret [], with_debug (debug w ++ map (fun _ => UnableToFindString INVALID) l) w).
Proof.
  apply decode_strings_from_on_stack.
Qed.

End StackStringFacts.

Section StackStringExamples.

Lemma on_stack_built : built_on_stack Hosts.on_stack.
Proof.
  exists Hosts.two_functions, (Some 7), (Some 0x10), None, (Some 0x402010), (Some 4),
    (Some INVALID), (VInt INVALID).
  reflexivity.
Qed.

Lemma stack_strings_are_skipped_witness :
  decode_strings (fun _ => VStr ["A"%byte]) [0%nat; 0%nat] Hosts.with_stack_string =
    (Ret [], with_debug [UnableToFindString INVALID; UnableToFindString INVALID]
               Hosts.with_stack_string).
Proof.
  apply (stack_strings_are_skipped (fun _ => VStr ["A"%byte]) [0%nat; 0%nat]
           Hosts.with_stack_string).
  repeat constructor; exists Hosts.on_stack; (split; [reflexivity | exact on_stack_built]).
Defined.

End StackStringExamples.

(** ** More on the splitter *)

Section SplitterOrder.
Context `{IDA}.

Lemma pieces_increasing_wrap {A} (null : A) (wrap : list A -> pyval) e loc strs o :
  string_location e = Some loc -> loc <> INVALID -> loc <> BADADDR -> 0 <= o ->
  Forall (fun p => loc + o <= entity_startEA p) (pieces_from null (carved wrap e) o strs) /\
  increasing entity_startEA (pieces_from null (carved wrap e) o strs).
Proof.
  intros Hloc Hi Hb. revert o. induction strs as [|s strs IH]; intros o Ho; simpl.
  - split; [constructor | exact I].
  - pose proof (len_nonneg s) as Hs.
    destruct (IH (o + Py.len s + 1)) as [Hge Hinc]; [lia|].
    pose proof (startEA_carved wrap e (s ++ [null]) o loc Hloc Hi Hb Ho) as Hk.
    split; [|split; [|assumption]].
    + constructor; [lia|]. eapply Forall_impl; [exact Hge|]. simpl. intros; lia.
    + rewrite Hk. eapply Forall_impl; [exact Hge|]. simpl. intros; lia.
Qed.

Lemma pieces_decoded_data_wrap {A} (null : A) (wrap : list A -> pyval) e strs o :
  map decoded_data (pieces_from null (carved wrap e) o strs) =
  map (fun s => wrap (s ++ [null])) strs.
Proof.
  revert o. induction strs as [|s strs IH]; intros o; simpl; [reflexivity|].
  rewrite IH. reflexivity.
Qed.

Lemma copies_not_located e copies :
  split_results e = Ret copies -> ~ located e ->
  Forall (fun e' => entity_startEA e' = INVALID) copies.
Proof.
  intros Hres Hn. eapply Forall_impl; [exact (split_results_copies e copies Hres)|].
  intros e' (Hloc & _). apply startEA_not_located.
  unfold located in *. rewrite Hloc. exact Hn.
Qed.

(** X21.  When the input has no start address (its location is [UNUSED],
    [INVALID] or [BADADDR], as for every stack string) and its [size] is
    the length of its buffer, the final sort has nothing to order by, and
    a buffer of null-terminated single-byte strings, each of at least two
    bytes and the first of at least three, comes back last string first:
    the entities returned are the strings in the reverse of their order
    in the buffer. *)
Theorem split_unlocated_in_reverse_order (w : World) r e strs identify :
  heap w !! r = Some e ->
  decoded_data e = VStr (join x00 strs) ->
  size e = Some (Py.len (join x00 strs)) ->
  Forall (plain x00) strs -> long_head strs ->
  ~ located e ->
  exists refs w',
    split_decoded_string r identify w = (Ret refs, w') /\
    Forall2 (fun r' e' => heap w' !! r' = Some e') refs
      (rev (pieces_from x00 (carved VStr e) 0 strs)) /\
    map decoded_data (rev (pieces_from x00 (carved VStr e) 0 strs))
      = rev (map (fun s => VStr (s ++ [x00])) strs).
Proof.
  intros Hr Hd Hsz Hp Hh Hn.
  assert (Hc : split_results e = Ret (rev (pieces_from x00 (carved VStr e) 0 strs))).
  { unfold split_results. rewrite Hd, Hsz. apply split_loops_plain; assumption. }
  destruct (split_decoded_string_run r identify w e _ Hr Hc) as (refs & w' & Hrun & _ & _ & Hl).
  rewrite (sort_by_constant entity_startEA _ INVALID (copies_not_located e _ Hc Hn)) in Hl.
  exists refs, w'. split; [exact Hrun|]. split; [exact Hl|].
  rewrite map_rev, pieces_decoded_data_wrap. reflexivity.
Qed.

(** X22.  A [unicode] buffer is split like a byte string, on the null
    code unit: a buffer of null-terminated strings of code units, each of
    at least two units and the first of at least three, held by an entity
    with a start address whose [size] is the length of the buffer in code
    units, is split into exactly these strings, in buffer order, each
    re-terminated with one null and tagged with its start. *)
Theorem split_unicode_round_trip (w : World) r e strs identify :
  heap w !! r = Some e ->
  decoded_data e = VUnicode (join 0 strs) ->
  size e = Some (Py.len (join 0 strs)) ->
  Forall (plain 0) strs -> long_head strs ->
  located e ->
  exists refs w',
    split_decoded_string r identify w = (Ret refs, w') /\
    NoDup refs /\
    Forall2 (fun r' e' => heap w' !! r' = Some e') refs
      (pieces_from 0 (carved VUnicode e) 0 strs) /\
    map decoded_data (pieces_from 0 (carved VUnicode e) 0 strs)
      = map (fun s => VUnicode (s ++ [0])) strs.
Proof.
  intros Hr Hd Hsz Hp Hh Hloc.
  assert (Hc : split_results e = Ret (rev (pieces_from 0 (carved VUnicode e) 0 strs))).
  { unfold split_results. rewrite Hd, Hsz. apply split_loops_plain; assumption. }
  destruct (split_decoded_string_run r identify w e _ Hr Hc)
    as (refs & w' & Hrun & _ & Hperm & Hl).
  assert (Hsort : Py.sort_by entity_startEA (rev (pieces_from 0 (carved VUnicode e) 0 strs))
            = pieces_from 0 (carved VUnicode e) 0 strs).
  { unfold located in Hloc. destruct (string_location e) as [loc|] eqn:Hl0; [|contradiction].
    destruct Hloc as [Hi Hb]. apply sort_by_rev_increasing.
    apply (pieces_increasing_wrap 0 VUnicode e loc strs 0); [assumption..|lia]. }
  rewrite Hsort in Hl.
  exists refs, w'. split; [exact Hrun|]. split; [rewrite Hperm; apply NoDup_seq|].
  split; [exact Hl|]. apply pieces_decoded_data_wrap.
Qed.

Lemma split_decoded_string_refs r identify (w : World) e copies :
  heap w !! r = Some e -> split_results e = Ret copies ->
  exists w',
    split_decoded_string r identify w =
      (Ret (Py.sort_by (fun r => from_option entity_startEA INVALID ((heap w ++ copies) !! r))
              (seq (length (heap w)) (length copies))), w') /\
    heap w' = heap w ++ copies /\
    reported w' = reported w /\ stdout w' = stdout w /\
    (identify = false -> db w' = db w /\ debug w' = debug w).
Proof.
  intros Hr Hc. unfold split_decoded_string.
  unfold bind at 1. unfold deref. rewrite Hr.
  unfold bind at 1. unfold lift. rewrite Hc.
  unfold bind at 1. rewrite alloc_all_spec.
  unfold bind at 1. unfold sort_results at 1.
  set (w1 := with_heap (heap w ++ copies) w).
  change (heap w1) with (heap w ++ copies).
  set (refs := Py.sort_by _ _).
  destruct identify.
  - assert (Hall : forall rs (w2 : World), Forall (fun r => is_Some (heap w2 !! r)) rs ->
              exists w3, define_all rs w2 = (Ret tt, w3) /\ heap w3 = heap w2 /\
                reported w3 = reported w2 /\ stdout w3 = stdout w2).
    { induction rs as [|r0 rs IH]; intros w2 Hrs.
      - exists w2. repeat split.
      - apply Forall_cons in Hrs as [[e0 He0] Hrs].
        assert (Hone : exists w3, define r0 w2 = (Ret tt, w3) /\ heap w3 = heap w2 /\
                  reported w3 = reported w2 /\ stdout w3 = stdout w2).
        { unfold define, bind, deref. rewrite He0.
          destruct (byte_length e0) as [n| |].
          - destruct (MakeUnknown (entity_startEA e0) n (db w2)) as [[] d].
            + destruct (make_ascii_string (entity_startEA e0) n (string_type e0) d) as [[] d'];
                eexists; repeat split.
            + eexists; repeat split.
          - eexists; repeat split.
          - eexists; repeat split. }
        destruct Hone as (w3 & Hd & Hh & Hrep & Hout).
        destruct (IH w3) as (w4 & Hd4 & Hh4 & Hrep4 & Hout4); [rewrite Hh; exact Hrs|].
        exists w4. simpl. unfold bind. rewrite Hd.
        split; [exact Hd4|]. repeat split; congruence. }
    destruct (Hall refs w1) as (w2 & Hd & Hh & Hrep & Hout).
    { apply Forall_forall. intros r0 Hin.
      apply lookup_lt_is_Some.
      assert (Hin' : r0 ∈ seq (length (heap w)) (length copies)).
      { unfold refs in Hin. rewrite sort_by_perm in Hin. exact Hin. }
      apply elem_of_seq in Hin'. simpl. rewrite length_app. lia. }
    exists w2. unfold bind, ret. rewrite Hd.
    split; [reflexivity|]. split; [rewrite Hh; reflexivity|].
    split; [rewrite Hrep; reflexivity|]. split; [rewrite Hout; reflexivity|]. discriminate.
  - exists w1. repeat split.
Qed.


End SplitterOrder.

Section SplitterOrderExamples.
Import Examples.

Lemma split_unlocated_in_reverse_order_witness :
  exists w',
    split_decoded_string 0%nat false Hosts.unlocated_strings = (Ret [1%nat; 2%nat], w') /\
    decoded_data <$> heap w' !! 1%nat = Some (VStr ["D"; "E"; x00]%byte) /\
    decoded_data <$> heap w' !! 2%nat = Some (VStr ["A"; "B"; "C"; x00]%byte).
Proof.
  destruct (split_unlocated_in_reverse_order Hosts.unlocated_strings 0%nat
              (entity None (join x00 two_strings)) two_strings false)
    as (refs & w' & Hrun & Hl & _).
  - reflexivity.
  - reflexivity.
  - reflexivity.
  - exact two_strings_plain.
  - simpl. lia.
  - intros [].
  - exists w'. vm_compute in Hrun. injection Hrun as <- <-.
    split; [reflexivity|]. split; reflexivity.
Defined.

Lemma wide_strings_plain : Forall (plain 0) Hosts.wide_strings.
Proof.
  repeat constructor; try (simpl; lia); intros Hin;
    repeat (apply elem_of_cons in Hin as [Hin|Hin]; [discriminate|]);
    apply elem_of_nil in Hin; exact Hin.
Defined.

Lemma split_unicode_round_trip_witness :
  exists refs w',
    split_decoded_string 0%nat false (world [Hosts.wide_entity]) = (Ret refs, w') /\
    NoDup refs /\
    Forall2 (fun r' e' => heap w' !! r' = Some e') refs
      (pieces_from 0 (carved VUnicode Hosts.wide_entity) 0 Hosts.wide_strings) /\
    map decoded_data (pieces_from 0 (carved VUnicode Hosts.wide_entity) 0 Hosts.wide_strings)
      = [VUnicode [65; 66; 67; 0]; VUnicode [68; 69; 0]].
Proof.
  apply (split_unicode_round_trip (world [Hosts.wide_entity]) 0%nat Hosts.wide_entity
           Hosts.wide_strings false).
  - reflexivity.
  - reflexivity.
  - reflexivity.
  - exact wide_strings_plain.
  - simpl. lia.
  - split; discriminate.
Defined.

End SplitterOrderExamples.

(** ** Buffers of several groups: what the splitter returns *)

Section SplitterGroups.
Context `{IDA}.

Lemma pieces_below {A} (null : A) (wrap : list A -> pyval) e loc strs o :
  string_location e = Some loc -> loc <> INVALID -> loc <> BADADDR -> 0 <= o ->
  Forall (fun p => loc + o <= entity_startEA p
                   /\ entity_startEA p < loc + o + Py.len (join null strs))
    (pieces_from null (carved wrap e) o strs).
Proof.
  intros Hloc Hi Hb. revert o. induction strs as [|s strs IH]; intros o Ho; simpl.
  - constructor.
  - pose proof (len_nonneg s) as Hs. pose proof (len_nonneg (join null strs)) as Hj.
    rewrite len_join_cons.
    constructor.
    + rewrite (startEA_carved wrap e (s ++ [null]) o loc Hloc Hi Hb Ho). lia.
    + eapply Forall_impl; [apply (IH (o + Py.len s + 1)); lia|].
      simpl. intros p [H1 H2]. lia.
Qed.

Lemma carving_order_above {A} (null : A) (wrap : list A -> pyval) e loc groups last :
  string_location e = Some loc -> loc <> INVALID -> loc <> BADADDR ->
  forall o, 0 <= o ->
  Forall (fun p => loc + o <= entity_startEA p)
    (carving_order null (carved wrap e) o groups last).
Proof.
  intros Hloc Hi Hb. induction groups as [|g groups IH]; intros o Ho; cbn [carving_order].
  - apply Forall_rev.
    eapply Forall_impl; [apply (pieces_below null wrap e loc last o); assumption|].
    simpl. intros p [H1 _]. exact H1.
  - pose proof (len_nonneg (join null g)) as Hj.
    apply Forall_app. split.
    + apply Forall_rev.
      eapply Forall_impl; [apply (pieces_below null wrap e loc g o); assumption|].
      simpl. intros p [H1 _]. exact H1.
    + eapply Forall_impl; [apply (IH (o + Py.len (join null g) + 1)); lia|].
      simpl. intros p Hp. lia.
Qed.

(** The final sort puts the items in the order of the buffer. *)
Lemma sort_carving_order {A} (null : A) (wrap : list A -> pyval) e loc groups last :
  string_location e = Some loc -> loc <> INVALID -> loc <> BADADDR ->
  forall o, 0 <= o ->
  Py.sort_by entity_startEA (carving_order null (carved wrap e) o groups last) =
  group_pieces null (carved wrap e) o groups last.
Proof.
  intros Hloc Hi Hb. induction groups as [|g groups IH]; intros o Ho;
    cbn [carving_order group_pieces].
  - apply sort_by_rev_increasing.
    apply (pieces_increasing_wrap null wrap e loc last o); assumption.
  - pose proof (len_nonneg (join null g)) as Hj.
    rewrite sort_by_rev_app.
    + rewrite IH by lia. reflexivity.
    + apply (pieces_increasing_wrap null wrap e loc g o); assumption.
    + intros x y Hx Hy.
      pose proof (pieces_below null wrap e loc g o Hloc Hi Hb Ho) as Hbelow.
      rewrite Forall_forall in Hbelow. destruct (Hbelow x Hx) as [_ Hlt].
      pose proof (carving_order_above null wrap e loc groups last Hloc Hi Hb
                    (o + Py.len (join null g) + 1) ltac:(lia)) as Habove.
      rewrite Forall_forall in Habove. specialize (Habove y Hy). lia.
Qed.

Lemma carving_order_perm {A R} (null : A) (new_string : list A -> Z -> R) groups last :
  forall o, carving_order null new_string o groups last
            ≡ₚ group_pieces null new_string o groups last.
Proof.
  induction groups as [|g groups IH]; intros o; cbn [carving_order group_pieces].
  - symmetry. apply Permutation_rev.
  - rewrite IH. f_equiv. symmetry. apply Permutation_rev.
Qed.

Lemma length_pieces_from {A R} (null : A) (new_string : list A -> Z -> R) strs :
  forall o, length (pieces_from null new_string o strs) = length strs.
Proof. induction strs as [|s strs IH]; intros o; simpl; [reflexivity|]. rewrite IH. reflexivity. Qed.

Lemma length_group_pieces {A R} (null : A) (new_string : list A -> Z -> R) groups last :
  forall o, length (group_pieces null new_string o groups last)
            = (length (concat groups) + length last)%nat.
Proof.
  induction groups as [|g groups IH]; intros o; cbn [group_pieces concat].
  - apply length_pieces_from.
  - rewrite !length_app, length_pieces_from, IH. lia.
Qed.

Lemma group_pieces_decoded_data {A} (null : A) (wrap : list A -> pyval) e groups last :
  forall o, map decoded_data (group_pieces null (carved wrap e) o groups last) =
            map (fun s => wrap (s ++ [null])) (concat groups ++ last).
Proof.
  induction groups as [|g groups IH]; intros o; cbn [group_pieces concat].
  - apply pieces_decoded_data_wrap.
  - rewrite (map_app decoded_data), IH, pieces_decoded_data_wrap.
    rewrite <- map_app, app_assoc. reflexivity.
Qed.


End SplitterGroups.

Section SplitterGroupsExamples.
Import Examples.

Lemma wide_then_narrow_groups : Forall (group x00) wide_then_narrow.
Proof.
  assert (Hnot : forall (s : list byte), Forall (fun c => c <> x00) s -> x00 ∉ s).
  { intros s Hs Hin. rewrite Forall_forall in Hs. exact (Hs x00 Hin eq_refl). }
  assert (Hplain : forall (s : list byte),
            Forall (fun c => c <> x00) s -> (2 <= length s)%nat -> plain x00 s).
  { intros s Hs Hlen. split; [apply Hnot, Hs | exact Hlen]. }
  constructor; [|constructor; [|constructor]].
  - split; [discriminate|]. split; [|left; reflexivity].
    constructor; [|constructor].
    apply Hplain; [repeat constructor; discriminate | simpl; lia].
  - split; [discriminate|]. split; [|right; simpl; lia].
    constructor; [|constructor; [|constructor]].
    + apply Hplain; [repeat constructor; discriminate | simpl; lia].
    + apply Hplain; [repeat constructor; discriminate | simpl; lia].
Defined.


End SplitterGroupsExamples.

(** ** An invariant of the store *)

Section StoreInvariant.
Context `{IDA} `{Codecs}.

Lemma sized_set_decoded_data v e : sized e -> sized (set_decoded_data v e).
Proof. exact (fun Hs => Hs). Qed.

Lemma sized_carved {A} (wrap : list A -> pyval) e piece o : sized (carved wrap e piece o).
Proof.
  intros _. unfold carved. simpl. unfold INVALID.
  pose proof (len_nonneg piece). destruct (Z.eqb_spec (Py.len piece) (-1)); [lia | reflexivity].
Qed.

Lemma split_results_sized e copies :
  split_results e = Ret copies -> Forall sized copies.
Proof.
  unfold split_results. destruct (decoded_data e); try discriminate.
  - apply split_loops_shape. intros piece o. apply sized_carved.
  - apply split_loops_shape. intros piece o. apply sized_carved.
Qed.

Lemma decode_unknown_charset_keeps e o e' :
  decode_unknown_charset e = (o, e') ->
  encoded_data e' = encoded_data e /\ size e' = size e.
Proof.
  unfold decode_unknown_charset.
  destruct (invalid_or_unused (decoded_data e)); [intros [= <- <-]; split; reflexivity|].
  assert (Hfull : forall data,
    (let b := detect data in
     if no_output b then (Ret [], e)
     else (Ret (default [] (best_output b)), set_code_page (best_code_page b) e)) = (o, e') ->
    encoded_data e' = encoded_data e /\ size e' = size e).
  { intros data. cbv zeta. destruct (no_output (detect data));
      intros [= <- <-]; split; reflexivity. }
  destruct (decoded_data e) as [|z|data|text].
  - destruct (code_page e); intros [= <- <-]; split; reflexivity.
  - destruct (code_page e); intros [= <- <-]; split; reflexivity.
  - destruct (code_page e) as [cp|]; [|apply Hfull].
    destruct (decode cp data); [intros [= <- <-]; split; reflexivity | apply Hfull].
  - intros [= <- <-]. split; reflexivity.
Qed.

(** X29.  "An entity whose bytes are populated has a known size" is an
    invariant of the store: the [EncodedString] constructor adds an
    entity that satisfies it, and when every entity satisfies it before
    [decode_strings], [split_decoded_string] or [decode_unknown_charset],
    every entity satisfies it afterwards, whatever the outcome of the
    call. *)
Theorem sized_is_preserved (w : World) :
  Forall sized (heap w) ->
  (forall location reference sz off k o w',
     new_EncodedString location reference sz off k w = (o, w') -> Forall sized (heap w')) /\
  (forall decode l o w',
     decode_strings decode l w = (o, w') -> Forall sized (heap w')) /\
  (forall r identify o w',
     split_decoded_string r identify w = (o, w') -> Forall sized (heap w')) /\
  (forall r o w',
     decode_unknown_charset_ref r w = (o, w') -> Forall sized (heap w')).
Proof.
  intros Hw. split; [|split; [|split]].
  - intros location reference sz off k o w'.
    unfold new_EncodedString, bind at 1, get at 1. unfold bind at 1, lift at 1.
    destruct (EncodedString__init__ (db w) location reference sz off k) as [e|x|] eqn:Hinit.
    + unfold alloc. intros [= <- <-]. simpl. apply Forall_app. split; [exact Hw|].
      constructor; [|constructor]. exact (constructor_sized _ _ _ _ _ _ _ Hinit).
    + intros [= <- <-]. exact Hw.
    + intros [= <- <-]. exact Hw.
  - intros decode l o w' Hrun.
    destruct (decode_strings_from_frame decode l [] w o w' Hrun) as (Hlen & Hat & _).
    apply Forall_lookup. intros i x Hx.
    destruct (lookup_lt_is_Some_2 (heap w) i) as [e He].
    { rewrite <- Hlen. eapply lookup_lt_Some. exact Hx. }
    destruct (Hat i e He) as [v Hv].
    pose proof (eq_trans (eq_sym Hx) Hv) as Heq. injection Heq as ->.
    apply sized_set_decoded_data. exact (proj1 (Forall_lookup _ _) Hw i e He).
  - intros r identify o w' Hrun.
    destruct (heap w !! r) as [e|] eqn:Hr.
    2:{ unfold split_decoded_string, bind, deref in Hrun. rewrite Hr in Hrun.
        injection Hrun as <- <-. exact Hw. }
    destruct (split_results e) as [copies|x|] eqn:Hres.
    2,3: unfold split_decoded_string, bind, deref, lift in Hrun;
         rewrite Hr, Hres in Hrun; injection Hrun as <- <-; exact Hw.
    destruct (split_decoded_string_run r identify w e _ Hr Hres)
      as (refs & w1 & Hrun' & Hheap & _).
    rewrite Hrun' in Hrun. injection Hrun as <- <-. rewrite Hheap.
    apply Forall_app. split; [exact Hw | exact (split_results_sized e copies Hres)].
  - intros r o w'. unfold decode_unknown_charset_ref, bind at 1, deref at 1.
    destruct (heap w !! r) as [e|] eqn:Hr; [|intros [= <- <-]; exact Hw].
    destruct (decode_unknown_charset e) as [o1 e1] eqn:Hd.
    destruct (decode_unknown_charset_keeps e o1 e1 Hd) as [Henc Hsz].
    unfold bind, assign. rewrite Hr. unfold lift.
    assert (Hnew : Forall sized (<[r := e1]> (heap w))).
    { apply Forall_insert; [exact Hw|]. unfold sized. rewrite Henc, Hsz.
      exact (proj1 (Forall_lookup _ _) Hw r e Hr). }
    destruct o1; intros [= <- <-]; exact Hnew.
Qed.

End StoreInvariant.

Section EngineInput.
Context `{IDA} `{System}.


End EngineInput.

Section StoreInvariantExamples.
Import Examples.

Lemma sized_is_preserved_witness :
  Forall sized (heap (snd (split_decoded_string 0%nat false (one_entity mixed)))).
Proof.
  assert (Hw : Forall sized (heap (one_entity mixed))).
  { repeat constructor. }
  destruct (sized_is_preserved (H0 := Py27.codecs) (one_entity mixed) Hw)
    as (_ & _ & Hsplit & _).
  apply (Hsplit 0%nat false (fst (split_decoded_string 0%nat false (one_entity mixed)))).
  apply surjective_pairing.
Defined.

Example find_input_file_next_to_database :
  find_input_file Hosts.moved =
    (Ret true,
     with_debug [GuessedInputPath "./sample.bin"; IDAThoughtItWas "C:/samples/sample.bin"]
       (with_input_file_path "./sample.bin" Hosts.moved)).
Proof. vm_compute. reflexivity. Qed.

Example find_input_file_unreadable :
  find_input_file (H0 := Hosts.unreadable) Hosts.moved = (Raise IOError, Hosts.moved).
Proof. vm_compute. reflexivity. Qed.

End StoreInvariantExamples.

(** * The test-case support *)

Section ComparisonFacts.
Context {A : Type} `{EqDecision A}.
Import Tester.

Lemma not_in_elem (xs ys : list (list A)) item :
  item ∈ not_in xs ys <-> item ∈ xs /\ item <> [] /\ item ∉ ys.
Proof.
  unfold not_in. rewrite list_elem_of_filter.
  destruct item; simpl; split.
  - intros [[Hlen _] _]. lia.
  - intros (_ & Hne & _). contradiction.
  - intros [[_ Hn] Hin]. repeat split; [exact Hin | discriminate | exact Hn].
  - intros (Hin & _ & Hn). repeat split; [lia | exact Hn | exact Hin].
Qed.

Lemma not_in_nil (xs ys : list (list A)) :
  not_in xs ys = [] <-> forall item, item ∈ xs -> item <> [] -> item ∈ ys.
Proof.
  split.
  - intros Hnil item Hin Hne. destruct (decide (item ∈ ys)) as [|Hn]; [assumption|].
    exfalso. assert (Hel : item ∈ not_in xs ys) by (apply not_in_elem; auto).
    rewrite Hnil in Hel. apply elem_of_nil in Hel. exact Hel.
  - intros Hall. apply elem_of_nil_inv. intros item (Hin & Hne & Hn)%not_in_elem.
    apply Hn, Hall; assumption.
Qed.

Lemma compare_passed (f : string) (a b : list (list A)) :
  passed (compare (ResultComparison__init__ f) a b) = true <-> same_items a b.
Proof.
  unfold passed, compare. simpl.
  case_bool_decide as Hm.
  - split; [discriminate|]. intros Hsame. exfalso. apply Hm. apply not_in_nil.
    intros item Hin Hne. apply (Hsame item Hne), Hin.
  - case_bool_decide as Hu.
    + split; [discriminate|]. intros Hsame. exfalso. apply Hu. apply not_in_nil.
      intros item Hin Hne. apply (Hsame item Hne), Hin.
    + split; [intros _|reflexivity].
      intros item Hne. split; intros Hin.
      * exact (proj1 (not_in_nil a b) Hm item Hin Hne).
      * exact (proj1 (not_in_nil b a) Hu item Hin Hne).
Qed.

(** X24.  A comparison that has compared nothing does not pass.  After
    [compare] on a new comparison, the code is [FAIL] exactly when some
    non-empty item of the test case is absent from the new results,
    [SUPERSET] exactly when none is but the new results hold a non-empty
    item that the test case lacks, and the comparison passes exactly when
    both hold the same non-empty items; empty items, order and
    repetitions play no part. *)
Theorem compare_classifies (f : string) (a b : list (list A)) :
  passed (ResultComparison__init__ (A := A) f) = false /\
  (code (compare (ResultComparison__init__ f) a b) = FAIL <->
     exists item, item ∈ a /\ item <> [] /\ item ∉ b) /\
  (code (compare (ResultComparison__init__ f) a b) = SUPERSET <->
     (forall item, item ∈ a -> item <> [] -> item ∈ b) /\
     exists item, item ∈ b /\ item <> [] /\ item ∉ a) /\
  (passed (compare (ResultComparison__init__ f) a b) = true <-> same_items a b).
Proof.
  split; [reflexivity|]. split; [|split; [|apply compare_passed]].
  - unfold compare. simpl. case_bool_decide as Hm.
    + split; [intros _|reflexivity].
      destruct (not_in a b) as [|item l] eqn:Hl; [contradiction|].
      exists item. apply not_in_elem. rewrite Hl. left.
    + split.
      * case_bool_decide; discriminate.
      * intros (item & Hin & Hne & Hn). exfalso. apply Hn.
        exact (proj1 (not_in_nil a b) Hm item Hin Hne).
  - unfold compare. simpl. case_bool_decide as Hm.
    + split; [discriminate|]. intros [Hall _]. exfalso. apply Hm, not_in_nil, Hall.
    + case_bool_decide as Hu.
      * split; [intros _|reflexivity]. split; [apply not_in_nil, Hm|].
        destruct (not_in b a) as [|item l] eqn:Hl; [contradiction|].
        exists item. apply not_in_elem. rewrite Hl. left.
      * split; [discriminate|].
        intros (_ & item & Hin & Hne & Hn). exfalso. apply Hn.
        exact (proj1 (not_in_nil b a) Hu item Hin Hne).
Qed.

Lemma compare_results_field_passed (a b : gmap string (list (list A))) f :
  passed (compare_results_field a b f) = true <->
  (is_Some (a !! f) \/ is_Some (b !! f)) /\
  same_items (default [] (a !! f)) (default [] (b !! f)).
Proof.
  unfold compare_results_field, results. case_bool_decide as Hnone.
  - destruct Hnone as [Ha Hb]. rewrite Ha, Hb. split; [discriminate|].
    intros [[[x Hx]|[x Hx]] _]; discriminate.
  - rewrite compare_passed. split; [|intros [_ Hs]; exact Hs].
    intros Hs. split; [|exact Hs].
    destruct (a !! f) as [x|]; [left; eauto|].
    destruct (b !! f) as [y|]; [right; eauto|]. exfalso. apply Hnone. split; reflexivity.
Qed.

Lemma compare_fields_from (a b : gmap string (list (list A))) names :
  forall (acc : bool * gmap string (ResultComparison A)),
    (fst (fold_left
      (fun acc field_name =>
         let comparer := compare_results_field a b field_name in
         (if passed comparer then fst acc else false, <[field_name := comparer]> (snd acc)))
      names acc) = true <->
       fst acc = true /\ Forall (fun f => passed (compare_results_field a b f) = true) names) /\
    (forall k, snd (fold_left
      (fun acc field_name =>
         let comparer := compare_results_field a b field_name in
         (if passed comparer then fst acc else false, <[field_name := comparer]> (snd acc)))
      names acc) !! k =
       if bool_decide (k ∈ names) then Some (compare_results_field a b k) else snd acc !! k).
Proof.
  induction names as [|f names IH]; intros acc; cbn [fold_left].
  - split; [split; [auto | intros [? _]; assumption]|].
    intros k. rewrite bool_decide_false by apply not_elem_of_nil. reflexivity.
  - destruct (IH (if passed (compare_results_field a b f) then acc.1 else false,
                  <[f := compare_results_field a b f]> acc.2)) as [IHp IHm].
    cbv zeta. split.
    + rewrite IHp, Forall_cons. cbn [fst snd].
      destruct (passed (compare_results_field a b f)); intuition congruence.
    + intros k. rewrite IHm. cbn [fst snd].
      destruct (decide (k ∈ names)) as [Hin|Hn].
      * rewrite !bool_decide_true; [reflexivity | right; exact Hin | exact Hin].
      * rewrite (bool_decide_false _ Hn). destruct (decide (k = f)) as [->|Hne].
        -- rewrite lookup_insert_eq, bool_decide_true by left. reflexivity.
        -- rewrite lookup_insert_ne by congruence.
           rewrite bool_decide_false; [reflexivity|].
           intros [?|?]%elem_of_cons; contradiction.
Qed.

Lemma compare_fields_spec (a b : gmap string (list (list A))) names :
  (fst (compare_fields a b names) = true <->
     Forall (fun f => passed (compare_results_field a b f) = true) names) /\
  (forall k, snd (compare_fields a b names) !! k =
     if bool_decide (k ∈ names) then Some (compare_results_field a b k) else None).
Proof.
  destruct (compare_fields_from a b names (true, ∅)) as [Hp Hm]. split.
  - unfold compare_fields. rewrite Hp. simpl. tauto.
  - intros k. unfold compare_fields. rewrite Hm. simpl. rewrite lookup_empty. reflexivity.
Qed.

Lemma pop_all_lookup ignore (r : gmap string (list (list A))) k :
  pop_all ignore r !! k = if bool_decide (k ∈ ignore) then None else r !! k.
Proof.
  unfold pop_all, results in *. revert r.
  induction ignore as [|f ignore IH]; intros r; cbn [fold_left].
  - rewrite bool_decide_false by apply not_elem_of_nil. reflexivity.
  - rewrite IH. destruct (decide (k ∈ ignore)) as [Hin|Hn].
    + rewrite !bool_decide_true; [reflexivity | right; exact Hin | exact Hin].
    + rewrite (bool_decide_false _ Hn). destruct (decide (k = f)) as [->|Hne].
      * rewrite lookup_delete_eq, bool_decide_true by left. reflexivity.
      * rewrite lookup_delete_ne by congruence.
        rewrite bool_decide_false; [reflexivity|].
        intros [?|?]%elem_of_cons; contradiction.
Qed.

(** X25.  When field names are given, [compare_results] compares exactly
    these fields and the ignore list plays no part: the comparison passes
    exactly when every named field is other than [input_file], is present
    in at least one of the two result sets, and holds the same non-empty
    items in both (an absent field counting as empty).  A named field
    absent from both result sets makes the comparison fail.  The report
    has one entry per named field. *)
Theorem named_fields_compared (a b : results A) field_names ignore :
  field_names <> [] ->
  (fst (compare_results a b field_names ignore) = true <->
     Forall (fun f => f <> INPUT_FILE_PATH /\
                      (is_Some (a !! f) \/ is_Some (b !! f)) /\
                      same_items (default [] (a !! f)) (default [] (b !! f)))
       field_names) /\
  (forall k, is_Some (snd (compare_results a b field_names ignore) !! k) <->
             k ∈ field_names) /\
  compare_results a b field_names ignore = compare_results a b field_names [].
Proof.
  intros Hne. unfold compare_results. unfold results in *.
  destruct field_names as [|f0 names]; [contradiction|].
  cbn [length Nat.ltb Nat.leb].
  destruct (compare_fields_spec (delete INPUT_FILE_PATH a) (delete INPUT_FILE_PATH b)
              (f0 :: names)) as [Hp Hm].
  split; [|split; [|reflexivity]].
  - rewrite Hp. apply Forall_iff. intros f.
    rewrite compare_results_field_passed.
    destruct (decide (f = INPUT_FILE_PATH)) as [->|Hf].
    + rewrite !lookup_delete_eq. split.
      * intros [[[x Hx]|[x Hx]] _]; discriminate.
      * intros [Hk _]. contradiction.
    + rewrite !lookup_delete_ne by congruence. tauto.
  - intros k. rewrite Hm. case_bool_decide as Hin.
    + split; [intros _; exact Hin | eauto].
    + split; [intros [x Hx]; discriminate | contradiction].
Qed.

Lemma elements_dom (m : gmap string (list (list A))) k :
  k ∈ elements (dom m) <-> is_Some (m !! k).
Proof. rewrite elem_of_elements, elem_of_dom. reflexivity. Qed.

(** X26.  Without field names, [compare_results] passes exactly when,
    for every key other than [input_file] and the ignored fields, the key
    is present in both result sets or in neither and holds the same
    non-empty items in both.  In particular a result set always passes
    against itself. *)
Theorem all_fields_compared (a b : results A) ignore :
  (fst (compare_results a b [] ignore) = true <->
     forall k, k <> INPUT_FILE_PATH -> k ∉ ignore ->
       (is_Some (a !! k) <-> is_Some (b !! k)) /\
       same_items (default [] (a !! k)) (default [] (b !! k))) /\
  fst (compare_results a a [] ignore) = true.
Proof.
  assert (Hmain : forall a b : gmap string (list (list A)),
    fst (compare_results a b [] ignore) = true <->
     forall k, k <> INPUT_FILE_PATH -> k ∉ ignore ->
       (is_Some (a !! k) <-> is_Some (b !! k)) /\
       same_items (default [] (a !! k)) (default [] (b !! k))).
  { clear a b. intros a b. unfold compare_results. cbn [length Nat.ltb Nat.leb].
    unfold results in *.
    set (a' := pop_all ignore (delete INPUT_FILE_PATH a)).
    set (b' := pop_all ignore (delete INPUT_FILE_PATH b)).
    assert (Ha : forall k, a' !! k =
              if bool_decide (k ∈ ignore) then None
              else if bool_decide (k = INPUT_FILE_PATH) then None else a !! k).
    { intros k. unfold a'. rewrite pop_all_lookup. case_bool_decide; [reflexivity|].
      case_bool_decide as Hk; [subst k; apply lookup_delete_eq|].
      apply lookup_delete_ne. congruence. }
    assert (Hb : forall k, b' !! k =
              if bool_decide (k ∈ ignore) then None
              else if bool_decide (k = INPUT_FILE_PATH) then None else b !! k).
    { intros k. unfold b'. rewrite pop_all_lookup. case_bool_decide; [reflexivity|].
      case_bool_decide as Hk; [subst k; apply lookup_delete_eq|].
      apply lookup_delete_ne. congruence. }
    case_bool_decide as Hdom.
    - simpl. split; [discriminate|]. intros Hall. exfalso. apply Hdom.
      apply set_eq. intros k. rewrite !elem_of_dom, Ha, Hb.
      case_bool_decide as Hi; [reflexivity|]. case_bool_decide as Hk; [reflexivity|].
      apply (Hall k Hk Hi).
    - destruct (compare_fields_spec a' b' (elements (dom a'))) as [Hp _].
      rewrite Hp. rewrite Forall_forall. split.
      + intros Hall k Hk Hi.
        assert (Hsome : is_Some (a !! k) <-> is_Some (b !! k)).
        { pose proof (proj1 (set_eq _ _) Hdom k) as Hd.
          rewrite !elem_of_dom, Ha, Hb in Hd.
          rewrite !(bool_decide_false _ Hi), !(bool_decide_false _ Hk) in Hd. exact Hd. }
        split; [exact Hsome|].
        destruct (a !! k) as [xs|] eqn:Hak.
        * assert (Hin : k ∈ elements (dom a')).
          { apply (proj2 (elements_dom a' k)). rewrite Ha.
            rewrite (bool_decide_false _ Hi), (bool_decide_false _ Hk), Hak. eauto. }
          apply Hall, compare_results_field_passed in Hin as [_ Hs].
          rewrite Ha, Hb in Hs.
          rewrite !(bool_decide_false _ Hi), !(bool_decide_false _ Hk), Hak in Hs.
          exact Hs.
        * destruct (b !! k) as [ys|] eqn:Hbk.
          -- exfalso. destruct (proj2 Hsome) as [x Hx]; [eauto | discriminate].
          -- intros item _. reflexivity.
      + intros Hall k Hin0.
        pose proof (proj1 (elements_dom a' k) Hin0) as Hin. clear Hin0.
        rewrite Ha in Hin. case_bool_decide as Hi; [destruct Hin; discriminate|].
        case_bool_decide as Hk; [destruct Hin; discriminate|].
        apply compare_results_field_passed. rewrite Ha, Hb.
        rewrite !(bool_decide_false _ Hi), !(bool_decide_false _ Hk).
        split; [left; exact Hin | apply (Hall k Hk Hi)]. }
  split; [apply Hmain|]. apply Hmain. intros k _ _. split; [reflexivity|].
  intros item _. reflexivity.
Qed.

End ComparisonFacts.

Section ComparisonExamples.
Import Tester.

Lemma named_fields_compared_witness :
  fst (compare_results expected produced ["strings"%string] ["debug"%string]) = true /\
  fst (compare_results expected produced ["strings"%string; "files"%string] []) = false.
Proof.
  split; [|vm_compute; reflexivity].
  destruct (named_fields_compared expected produced ["strings"%string] ["debug"%string])
    as [Hiff _]; [discriminate|].
  apply Hiff. clear Hiff.
  assert (He : expected !! "strings"%string = Some [["a"; "b"]; []; ["c"]]%byte)
    by (vm_compute; reflexivity).
  assert (Hp : produced !! "strings"%string = Some [["c"]; ["a"; "b"]]%byte)
    by (vm_compute; reflexivity).
  apply Forall_cons. split; [|constructor].
  split; [discriminate|]. rewrite He, Hp. split; [left; eauto|].
  intros item Hne. simpl. rewrite !elem_of_cons, !elem_of_nil. tauto.
Defined.

End ComparisonExamples.

Section ResultsFileFacts.
Context {V : Type} `{EqDecision V}.
Import Tester.

Local Abbreviation has_path :=
  (fun (m : gmap string V) (p : V) => m !! INPUT_FILE_PATH = Some p).

Lemma list_test_files_from_spec (data : list (gmap string V)) : forall acc r,
  list_test_files_from data acc = Some r <->
  exists paths, Forall2 has_path data paths /\ r = acc ++ paths.
Proof.
  induction data as [|m data IH]; intros acc r; cbn [list_test_files_from].
  - split.
    + intros [= <-]. exists []. split; [constructor | rewrite app_nil_r; reflexivity].
    + intros (paths & Hf & ->). apply Forall2_nil_inv_l in Hf as ->.
      rewrite app_nil_r. reflexivity.
  - unfold metadata in *. destruct (m !! INPUT_FILE_PATH) as [q|] eqn:Hq; simpl.
    + rewrite IH. split.
      * intros (paths & Hf & ->). exists (q :: paths). split; [constructor; assumption|].
        rewrite <- app_assoc. reflexivity.
      * intros (paths & Hf & ->). apply Forall2_cons_inv_l in Hf as (q' & paths' & Hq' & Hf & ->).
        rewrite Hq in Hq'. injection Hq' as <-. exists paths'. split; [exact Hf|].
        rewrite <- app_assoc. reflexivity.
    + split; [discriminate|]. intros (paths & Hf & _).
      apply Forall2_cons_inv_l in Hf as (q' & paths' & Hq' & _). rewrite Hq in Hq'. discriminate.
Qed.

Lemma list_test_files_spec (data : list (gmap string V)) paths :
  list_test_files data = Some paths <-> Forall2 has_path data paths.
Proof.
  unfold list_test_files. rewrite list_test_files_from_spec. split.
  - intros (paths' & Hf & ->). exact Hf.
  - intros Hf. exists paths. split; [exact Hf | reflexivity].
Qed.

Lemma find_duplicate_spec (results_data : gmap string V) replace
    (data : list (gmap string V)) paths p :
  Forall2 has_path data paths -> results_data !! INPUT_FILE_PATH = Some p ->
  forall remaining index,
    (index + remaining = length data)%nat ->
    (forall j, (j < index)%nat -> paths !! j <> Some p) ->
    (exists i, paths !! i = Some p /\ (forall j, (j < i)%nat -> paths !! j <> Some p) /\
       find_duplicate results_data replace data index remaining =
         Some ((if replace then <[i := results_data]> data else data), true)) \/
    ((p ∉ paths) /\
       find_duplicate results_data replace data index remaining = Some (data, false)).
Proof.
  intros Hf Hp. pose proof (Forall2_length _ _ _ Hf) as Hlen.
  induction remaining as [|remaining IH]; intros index Hsum Hbefore.
  - right. split; [|reflexivity].
    intros [j Hj]%list_elem_of_lookup_1. apply (Hbefore j); [|exact Hj].
    apply lookup_lt_Some in Hj. lia.
  - cbn [find_duplicate].
    destruct (lookup_lt_is_Some_2 data index) as [m Hm]; [lia|].
    unfold metadata in *. rewrite Hm.
    destruct (Forall2_lookup_l _ _ _ _ _ Hf Hm) as (q & Hq & Hmq).
    rewrite Hmq, Hp. simpl. case_bool_decide as Heq.
    + subst q. left. exists index. split; [exact Hq|]. split; [exact Hbefore | reflexivity].
    + apply IH; [lia|]. intros j Hj. destruct (decide (j = index)) as [->|Hne].
      * rewrite Hq. congruence.
      * apply Hbefore. lia.
Qed.

(** X27.  When every entry of the results file has an input file path
    and so has the new result, [update_test_results] writes a list with
    the same paths in the same order, extended by the new path only when
    it was not there: a new path is appended; for a path already listed,
    the first entry with that path is replaced by the new result when
    [replace] is set, and nothing changes otherwise.  No other entry is
    touched, and later entries with the same path are kept. *)
Theorem update_test_results_entries (data : list (gmap string V)) paths
    (results_data : gmap string V) p replace :
  list_test_files data = Some paths ->
  results_data !! INPUT_FILE_PATH = Some p ->
  exists data',
    update_test_results (Some data) results_data replace = Some data' /\
    list_test_files data' = Some (if bool_decide (p ∈ paths) then paths else paths ++ [p]) /\
    (p ∉ paths -> data' = data ++ [results_data]) /\
    (p ∈ paths ->
     exists i, paths !! i = Some p /\ (forall j, (j < i)%nat -> paths !! j <> Some p) /\
               data' = if replace then <[i := results_data]> data else data).
Proof.
  intros Hf%list_test_files_spec Hp. unfold update_test_results.
  destruct (find_duplicate_spec results_data replace data paths p Hf Hp
              (length data) 0%nat) as [(i & Hi & Hfirst & Hrun) | (Hn & Hrun)];
    [lia | intros j Hj; lia | |].
  - unfold metadata in *. rewrite Hrun.
    assert (Hin : p ∈ paths) by (eapply list_elem_of_lookup_2; exact Hi).
    eexists. split; [reflexivity|]. rewrite (bool_decide_true _ Hin).
    split; [|split; [contradiction|]].
    + apply list_test_files_spec. destruct replace; [|exact Hf].
      rewrite <- (list_insert_id paths i p Hi). apply Forall2_insert; assumption.
    + intros _. exists i. split; [exact Hi|]. split; [exact Hfirst | reflexivity].
  - unfold metadata in *. rewrite Hrun.
    eexists. split; [reflexivity|]. rewrite (bool_decide_false _ Hn).
    split; [|split; [reflexivity | contradiction]].
    apply list_test_files_spec. apply Forall2_app; [exact Hf|].
    constructor; [exact Hp | constructor].
Qed.

Lemma remove_from_spec (data : list (gmap string V)) paths (filenames : list V) :
  Forall2 has_path data paths ->
  forall removed kept,
  exists kept',
    remove_from data filenames removed kept =
      Some (removed ++ filter (.∈ filenames) paths, kept ++ kept') /\
    Forall2 has_path kept' (filter (.∉ filenames) paths) /\
    sublist kept' data.
Proof.
  induction 1 as [|m q data paths Hq Hf IH]; intros removed kept.
  - exists []. rewrite !app_nil_r. repeat split; constructor.
  - cbn [remove_from]. unfold metadata in *. rewrite Hq. simpl.
    case_bool_decide as Hin.
    + destruct (IH (removed ++ [q]) kept) as (kept' & Hrun & Hk & Hs).
      exists kept'. rewrite Hrun, filter_cons_True, <- app_assoc by exact Hin.
      split; [reflexivity|]. split.
      * rewrite filter_cons_False by (intros Hn; exact (Hn Hin)). exact Hk.
      * apply sublist_cons, Hs.
    + destruct (IH removed (kept ++ [m])) as (kept' & Hrun & Hk & Hs).
      exists (m :: kept'). rewrite Hrun, filter_cons_False, <- app_assoc by exact Hin.
      split; [reflexivity|]. split.
      * rewrite filter_cons_True by exact Hin. constructor; assumption.
      * apply sublist_skip, Hs.
Qed.

Lemma remove_from_absent (data : list (gmap string V)) paths (filenames : list V) :
  Forall2 has_path data paths -> Forall (.∉ filenames) paths ->
  forall removed kept,
    remove_from data filenames removed kept = Some (removed, kept ++ data).
Proof.
  induction 1 as [|m q data paths Hq Hf IH]; intros Hall removed kept.
  - rewrite app_nil_r. reflexivity.
  - apply Forall_cons in Hall as [Hn Hall].
    cbn [remove_from]. unfold metadata in *. rewrite Hq. simpl.
    rewrite bool_decide_false by exact Hn.
    rewrite (IH Hall), <- app_assoc. reflexivity.
Qed.

(** X28.  When every entry of the results file has an input file path,
    [remove_test_results] returns the listed paths that are among the
    file names, in order, and writes the remaining entries, in order:
    the paths listed afterwards are the others.  Removing the same file
    names again removes nothing and writes the same list. *)
Theorem remove_test_results_partition (data : list (gmap string V)) paths
    (filenames : list V) :
  list_test_files data = Some paths ->
  exists kept,
    remove_test_results data filenames = Some (filter (.∈ filenames) paths, kept) /\
    list_test_files kept = Some (filter (.∉ filenames) paths) /\
    sublist kept data /\
    remove_test_results kept filenames = Some ([], kept).
Proof.
  intros Hf%list_test_files_spec.
  destruct (remove_from_spec data paths filenames Hf [] []) as (kept & Hrun & Hk & Hs).
  exists kept. split; [exact Hrun|]. split; [apply list_test_files_spec, Hk|].
  split; [exact Hs|].
  unfold remove_test_results.
  rewrite (remove_from_absent kept _ filenames Hk); [reflexivity|].
  apply Forall_forall. intros q [Hq _]%list_elem_of_filter. exact Hq.
Qed.

End ResultsFileFacts.

Section ResultsFileExamples.
Import Tester.

Lemma update_test_results_entries_witness :
  update_test_results (Some results_file) (entry "a.bin" "4") true
    = Some [entry "a.bin" "4"; entry "b.bin" "2"; entry "a.bin" "3"] /\
  exists data',
    update_test_results (Some results_file) (entry "c.bin" "4") true = Some data' /\
    list_test_files data' = Some ["a.bin"; "b.bin"; "a.bin"; "c.bin"]%string.
Proof.
  split; [vm_compute; reflexivity|].
  destruct (update_test_results_entries results_file ["a.bin"; "b.bin"; "a.bin"]%string
              (entry "c.bin" "4") "c.bin"%string true)
    as (data' & Hrun & Hlist & _).
  - vm_compute. reflexivity.
  - vm_compute. reflexivity.
  - exists data'. split; [exact Hrun|]. rewrite Hlist.
    rewrite bool_decide_false; [reflexivity|].
    rewrite !elem_of_cons, elem_of_nil. intros [?|[?|[?|[]]]]; discriminate.
Defined.

Lemma remove_test_results_partition_witness :
  exists kept,
    remove_test_results results_file ["a.bin"%string]
      = Some (filter (.∈ ["a.bin"%string]) ["a.bin"; "b.bin"; "a.bin"]%string, kept) /\
    list_test_files kept
      = Some (filter (.∉ ["a.bin"%string]) ["a.bin"; "b.bin"; "a.bin"]%string) /\
    sublist kept results_file /\
    remove_test_results kept ["a.bin"%string] = Some ([], kept).
Proof.
  apply (remove_test_results_partition results_file ["a.bin"; "b.bin"; "a.bin"]%string
           ["a.bin"%string]).
  vm_compute. reflexivity.
Defined.

End ResultsFileExamples.
